(** * Multi-store order aggregation and dashboard analytics

    A shallow embedding of [src/services/ozonService.ts] (the paginated
    per-store fetch and the aggregated fetch) and of the memoised
    computations of [src/components/Dashboard.tsx] (revenue statistics,
    smart groups, CSV export), followed by the properties of the
    specification proved or refuted on them.

    Conventions.
    - A JavaScript [number] that holds an amount of money is an IEEE-754
      binary64 value: Rocq's primitive [float].  Numbers that only ever hold
      integers (array lengths, counters, quantities, SKUs, HTTP status codes,
      offsets) are in [Z] or [nat].
    - A JavaScript string is given by its UTF-8 bytes ([string]).
    - An object literal used as a dictionary is the list of its own
      properties in creation order, read through the prototype chain of
      [Object.prototype] where the code reads it that way.
    - The network, the clock and the runtime's parsers ([parseFloat],
      [Date]) are parameters. *)

From Stdlib Require Import ZArith List String Ascii Bool Lia.
From Stdlib Require Import Permutation Sorted DecimalString.
From Stdlib Require Import Floats.
Import ListNotations.

Local Open Scope string_scope.
Local Open Scope Z_scope.

(* ================================================================= *)
(** ** The JavaScript runtime, as far as the code uses it *)

Module JS.

(** [!!x] for a number: [0], [-0] and [NaN] are falsy. *)
Definition truthy (x : float) : bool :=
  negb (PrimFloat.is_zero x || PrimFloat.is_nan x).

(** [a || b] on numbers. *)
Definition or_else (a b : float) : float := if truthy a then a else b.

(** [x?.f || b] where [x] may be [undefined]. *)
Definition opt_or_else (a : option float) (b : float) : float :=
  match a with
  | Some x => or_else x b
  | None => b
  end.

(** [s || d] on strings: only the empty string is falsy. *)
Definition str_or_else (s d : string) : string :=
  match s with
  | EmptyString => d
  | _ => s
  end.

(** Template-literal rendering of an integer-valued number. *)
Definition Number_toString (z : Z) : string :=
  NilZero.string_of_int (Z.to_int z).

Definition dquote : ascii := "034"%char.
Definition newline : ascii := "010"%char.

(** [s.replace] of every double-quote character by two of them. *)
Fixpoint replace_quotes (s : string) : string :=
  match s with
  | EmptyString => EmptyString
  | String c rest =>
      if Ascii.eqb c dquote
      then String dquote (String dquote (replace_quotes rest))
      else String c (replace_quotes rest)
  end.

(** The code unit U+FEFF, in UTF-8. *)
Definition BOM : string :=
  String "239"%char (String "187"%char (String "191"%char EmptyString)).

(** *** Exceptions *)

(** What a [catch] clause can receive: an [Error] instance with its
    message, or any other thrown value. *)
Inductive Thrown : Type :=
| ErrorObject (message : string)
| OtherValue.

(** The settlement of an awaited promise. *)
Inductive Await (A : Type) : Type :=
| Fulfilled (a : A)
| RejectedWith (e : Thrown).
Arguments Fulfilled {A} a.
Arguments RejectedWith {A} e.

(** Synchronous code that either completes or stops on a [TypeError]
    (reading a property of [undefined]). *)
Inductive Completion (A : Type) : Type :=
| Normal (a : A)
| TypeError.
Arguments Normal {A} a.
Arguments TypeError {A}.

Definition bind {A B} (c : Completion A) (k : A -> Completion B)
  : Completion B :=
  match c with
  | Normal a => k a
  | TypeError => TypeError
  end.

(** [xs.forEach(x => { acc = step(acc, x) })] where [step] may throw. *)
Fixpoint forEach {S A} (step : S -> A -> Completion S) (xs : list A) (s : S)
  : Completion S :=
  match xs with
  | [] => Normal s
  | x :: rest => bind (step s x) (forEach step rest)
  end.

(** *** [Array.prototype.sort]

    The sort is stable (ECMAScript 2019).  [cmp a b < 0] puts [a] first,
    [cmp a b > 0] puts [b] first; a comparator result of [NaN] counts as
    [0] and is mapped to [0] by the comparators below.  For a consistent
    comparator every stable sort returns the same array, given here by
    insertion from the right. *)
Section Sort.
Context {A : Type} (cmp : A -> A -> Z).

Fixpoint insert (x : A) (l : list A) : list A :=
  match l with
  | [] => [x]
  | y :: rest => if cmp x y <=? 0 then x :: l else y :: insert x rest
  end.

Fixpoint Array_sort (l : list A) : list A :=
  match l with
  | [] => []
  | x :: rest => insert x (Array_sort rest)
  end.
End Sort.

(** *** Ordinary objects used as dictionaries *)

(** Own properties, in creation order. *)
Definition Obj (V : Type) : Type := list (string * V).

(** The property names every object literal inherits from
    [Object.prototype]; each inherited value is truthy. *)
Definition Object_prototype_keys : list string :=
  [ "constructor"; "__proto__"; "hasOwnProperty"; "isPrototypeOf";
    "propertyIsEnumerable"; "toLocaleString"; "toString"; "valueOf";
    "__defineGetter__"; "__defineSetter__"; "__lookupGetter__";
    "__lookupSetter__" ].

Definition inherited (k : string) : bool :=
  existsb (String.eqb k) Object_prototype_keys.

Fixpoint getOwn {V} (o : Obj V) (k : string) : option V :=
  match o with
  | [] => None
  | (k', v) :: rest => if String.eqb k k' then Some v else getOwn rest k
  end.

(** [o[k] = v]: an existing own property keeps its place, a new one is
    created last. *)
Fixpoint setOwn {V} (k : string) (v : V) (o : Obj V) : Obj V :=
  match o with
  | [] => [(k, v)]
  | (k', v') :: rest =>
      if String.eqb k k' then (k, v) :: rest else (k', v') :: setOwn k v rest
  end.

Definition is_digit (c : ascii) : bool :=
  let n := N_of_ascii c in (48 <=? n)%N && (n <=? 57)%N.

Fixpoint digits_value (s : string) (acc : N) : option N :=
  match s with
  | EmptyString => Some acc
  | String c rest =>
      if is_digit c
      then digits_value rest (10 * acc + (N_of_ascii c - 48))%N
      else None
  end.

(** A property key is an array index when it is the canonical decimal
    form of an integer below 2^32 - 1. *)
Definition arrayIndex (k : string) : option N :=
  match k with
  | EmptyString => None
  | String c rest =>
      if Ascii.eqb c "0"%char && negb (String.eqb rest EmptyString) then None
      else
        match digits_value k 0%N with
        | Some n => if (n <? 4294967295)%N then Some n else None
        | None => None
        end
  end.

Definition indexOf (k : string) : Z :=
  match arrayIndex k with
  | Some n => Z.of_N n
  | None => 0
  end.

Definition isIndex (k : string) : bool :=
  match arrayIndex k with
  | Some _ => true
  | None => false
  end.

Definition isIndexKey {V} (p : string * V) : bool := isIndex (fst p).

(** Own property enumeration order (OrdinaryOwnPropertyKeys): the keys
    that are array indices in ascending numeric order, then the other
    string keys in creation order. *)
Definition ownEntries {V} (o : Obj V) : list (string * V) :=
  Array_sort (fun a b => indexOf (fst a) - indexOf (fst b))
             (filter isIndexKey o)
  ++ filter (fun p => negb (isIndexKey p)) o.

Definition Object_values {V} (o : Obj V) : list V := map snd (ownEntries o).

Definition Object_keys {V} (o : Obj V) : list string :=
  map fst (ownEntries o).

(** Comparators of the form [(a, b) => key(b) - key(a)], and the order
    they sort into. *)
Definition desc {A : Type} (key : A -> Z) (a b : A) : Z := key b - key a.
Definition geKey {A : Type} (key : A -> Z) (a b : A) : Prop :=
  key b <= key a.

End JS.

(* ================================================================= *)
(** ** [src/types.ts] *)

Module Types.

Record OzonCredentials : Type := {
  clientId : string;
  apiKey : string
}.

(** [quantity] is declared [number]; the export guards against its absence
    ([quantity || 1]), so an absent field is representable. *)
Record OzonProduct : Type := {
  name : string;
  offer_id : string;
  price : string;
  currency_code : string;
  quantity : option Z;
  sku : Z
}.

(** One entry of [financial_data.products]. *)
Record FinancialProduct : Type := {
  fin_commission_amount : float;
  fin_payout : float;
  fin_product_id : Z;
  fin_old_price : float;
  fin_price : float
}.

Record FinancialData : Type := {
  fin_products : list FinancialProduct
}.

(** The posting fields the service and the dashboard computations read;
    the spread [{...p, clientId}] carries every field along unchanged. *)
Record OzonPosting : Type := {
  posting_number : string;
  order_id : Z;
  status : string;
  in_process_at : string;
  products : list OzonProduct;
  financial_data : option FinancialData;
  posting_clientId : option string
}.

Record OzonPostingRequest : Type := {
  dir : string;
  filter_since : string;
  filter_to : string;
  limit : Z;
  offset : Z;
  with_analytics_data : bool;
  with_barcodes : bool;
  with_financial_data : bool;
  with_translit : bool
}.

(** [data.result]: [postings] may be missing ([postings || []]). *)
Record OzonApiResponse : Type := {
  postings : option (list OzonPosting);
  has_next : bool
}.

End Types.

(* ================================================================= *)
(** ** [src/services/ozonService.ts] *)

Module OzonService.
Import JS Types.

(** The body of a non-2xx response as the error path reads it: the
    rendering of [errorBody.message] and of [errorBody.error.message]
    (empty when the field is missing or falsy) and
    [JSON.stringify(errorBody)]. *)
Record ErrorBody : Type := {
  body_message : string;
  body_error_message : string;
  body_stringified : string
}.

(** A response of the order transport: [response.ok] is false
    ([NotOk], with what [response.json()] and [response.text()] settle
    to) or true ([Ok], with what [response.json()] settles to; a body
    without [result] counts as a rejection, as reading
    [data.result.postings] throws). *)
Inductive Response : Type :=
| NotOk (status : Z) (json : Await ErrorBody) (text : Await string)
| Ok (json : Await OzonApiResponse).

(** [fetch] on the posting list endpoint, for the credentials sent in
    the headers and the request body.  Within one run the answer is a
    function of the two. *)
Definition Transport : Type :=
  OzonCredentials -> OzonPostingRequest -> Await Response.

(** What one per-store fetch does to the outside world. *)
Inductive Event : Type :=
| Request (credentials : OzonCredentials) (requestBody : OzonPostingRequest)
| ConsoleError (storeId : string) (error : Thrown)
| Alert (storeId : string) (errorMessage : string).

(** The text shown by an [Alert] event. *)
Definition alertText (storeId errorMessage : string) : string :=
  "店铺 [" ++ storeId ++ "] 数据获取失败: " ++ errorMessage
  ++ "。请检查凭证是否正确。".

(** State of the [while] loop of [fetchOrdersForStore]. *)
Record LoopState : Type := {
  allPostings : list OzonPosting;
  offset : Z;
  hasNext : bool
}.

(** One run of the loop body. *)
Inductive Step : Type :=
| Continue (st : LoopState)
| Break (st : LoopState)
| Raise (error : Thrown).

(** How the loop is left. *)
Inductive LoopExit : Type :=
| Completed (st : LoopState)
| Threw (error : Thrown).

Definition limit : Z := 100.

(** Iterations the loop can still make from an offset before the offset
    passes the safety limit. *)
Definition budget (offset : Z) : nat :=
  S (Z.to_nat ((10000 - offset) / 100)).

Section Fetch.
Variable transport : Transport.
(** [(fromDate.toISOString(), toDate.toISOString())] as the clock gives
    them when a fetch over [days] days starts. *)
Variable dateWindow : Z -> string * string.
(** [new Date(s).getTime()]; [None] is [NaN]. *)
Variable Date_getTime : string -> option Z.

Definition requestBody (days offset : Z) : OzonPostingRequest :=
  {| dir := "DESC";
     filter_since := fst (dateWindow days);
     filter_to := snd (dateWindow days);
     Types.limit := limit;
     Types.offset := offset;
     with_analytics_data := true;
     with_barcodes := false;
     with_financial_data := true;
     with_translit := true |}.

Definition errorDetail (json : Await ErrorBody) (text : Await string)
  : Await string :=
  match json with
  | Fulfilled errorBody =>
      Fulfilled
        (str_or_else (body_message errorBody)
           (str_or_else (body_error_message errorBody)
              (body_stringified errorBody)))
  | RejectedWith _ => text
  end.

(** From [fetch] to [data]: the page, or what is thrown inside the
    [try] block. *)
Definition fetchPage (credentials : OzonCredentials)
           (body : OzonPostingRequest) : Await OzonApiResponse :=
  match transport credentials body with
  | RejectedWith e => RejectedWith e
  | Fulfilled (NotOk status json text) =>
      match errorDetail json text with
      | RejectedWith e => RejectedWith e
      | Fulfilled detail =>
          if (status =? 401) || (status =? 403)
          then RejectedWith
                 (ErrorObject
                    ("Client ID 或 API Key 无效 (" ++ detail ++ ")"))
          else RejectedWith
                 (ErrorObject
                    ("API Error " ++ Number_toString status ++ ": "
                     ++ detail))
      end
  | Fulfilled (Ok json) => json
  end.

Definition iteration (credentials : OzonCredentials) (days : Z)
           (st : LoopState) : Step :=
  match fetchPage credentials (requestBody days (offset st)) with
  | RejectedWith e => Raise e
  | Fulfilled data =>
      let pagePostings :=
        match postings data with
        | Some ps => ps
        | None => []
        end in
      let st' := {| allPostings := (allPostings st ++ pagePostings)%list;
                    hasNext := has_next data;
                    offset := offset st + limit |} in
      if offset st' >? 10000 then Break st' else Continue st'
  end.

(** [while (hasNext) { ... }], with the request bodies sent, in order.
    [None] when [fuel] iterations do not reach the end of the loop. *)
Fixpoint whileLoop (credentials : OzonCredentials) (days : Z)
         (fuel : nat) (st : LoopState)
  : option (LoopExit * list OzonPostingRequest) :=
  if hasNext st then
    match fuel with
    | O => None
    | S fuel' =>
        let body := requestBody days (offset st) in
        match iteration credentials days st with
        | Continue st' =>
            match whileLoop credentials days fuel' st' with
            | Some (exit, sent) => Some (exit, body :: sent)
            | None => None
            end
        | Break st' => Some (Completed st', [body])
        | Raise e => Some (Threw e, [body])
        end
    end
  else Some (Completed st, []).

Definition initial : LoopState :=
  {| allPostings := []; offset := 0; hasNext := true |}.

(** [{ ...p, clientId: credentials.clientId }] *)
Definition tag (credentials : OzonCredentials) (p : OzonPosting)
  : OzonPosting :=
  {| posting_number := posting_number p;
     order_id := order_id p;
     status := status p;
     in_process_at := in_process_at p;
     products := products p;
     financial_data := financial_data p;
     posting_clientId := Some (clientId credentials) |}.

(** [error instanceof Error ? error.message : ...] *)
Definition errorMessage (error : Thrown) : string :=
  match error with
  | ErrorObject message => message
  | OtherValue => "连接失败"
  end.

(** Iterations that always suffice for the loop to end (see
    [LoopFacts.whileLoop_enough]): with them the loop never comes back
    empty-handed. *)
Definition enoughFuel : nat := 101.

(** The promise of [fetchOrdersForStore] always fulfils; its value
    comes with the events of the run, in order. *)
Definition fetchOrdersForStore (credentials : OzonCredentials) (days : Z)
  : list OzonPosting * list Event :=
  match whileLoop credentials days enoughFuel initial with
  | Some (Completed st, sent) =>
      (map (tag credentials) (allPostings st),
       map (Request credentials) sent)
  | Some (Threw error, sent) =>
      ([],
       (map (Request credentials) sent
        ++ [ConsoleError (clientId credentials) error;
            Alert (clientId credentials) (errorMessage error)])%list)
  | None => ([], [])
  end.

(** The comparator of the final sort; a [NaN] difference counts as 0. *)
Definition byDateDesc (a b : OzonPosting) : Z :=
  match Date_getTime (in_process_at b), Date_getTime (in_process_at a) with
  | Some tb, Some ta => tb - ta
  | _, _ => 0
  end.

Definition defaultDays (days : option Z) : Z :=
  match days with
  | Some d => d
  | None => 15
  end.

(** The value the returned promise fulfils with, and the events of each
    per-store fetch, one list per credential.  The fetches run
    concurrently: no order is given between events of different
    stores. *)
Definition fetchAggregatedOrders (credentialsList : list OzonCredentials)
           (days : option Z) : list OzonPosting * list (list Event) :=
  let days := defaultDays days in
  match credentialsList with
  | [] => ([], [])
  | _ =>
      let results :=
        map (fun cred => fetchOrdersForStore cred days) credentialsList in
      let aggregated := List.concat (map fst results) in
      (Array_sort byDateDesc aggregated, map snd results)
  end.

Definition fetchOrders (credentials : OzonCredentials) (days : option Z)
  : list OzonPosting * list (list Event) :=
  let days := defaultDays days in
  fetchAggregatedOrders [credentials] (Some days).

(** *** Notions used in the statements *)

(** The postings of the page a request is answered with (none when
    the page fetch fails). *)
Definition pagePostings (credentials : OzonCredentials)
           (body : OzonPostingRequest) : list OzonPosting :=
  match fetchPage credentials body with
  | Fulfilled data =>
      match postings data with
      | Some ps => ps
      | None => []
      end
  | RejectedWith _ => []
  end.

Definition requestsOf (events : list Event) : list OzonPostingRequest :=
  flat_map (fun ev =>
              match ev with
              | Request _ body => [body]
              | _ => []
              end) events.

(** Some page fetch of the store's run fails. *)
Definition PageFetchFails (credentials : OzonCredentials) (days : Z)
  : Prop :=
  exists body e,
    In (Request credentials body)
       (snd (fetchOrdersForStore credentials days))
    /\ fetchPage credentials body = RejectedWith e.

Definition isAlertFor (storeId : string) (ev : Event) : bool :=
  match ev with
  | Alert s _ => String.eqb s storeId
  | _ => false
  end.

(** Number of alerts that name the store, over all per-store runs. *)
Definition alertsNaming (storeId : string) (events : list (list Event))
  : nat :=
  List.length (filter (isAlertFor storeId) (List.concat events)).

(** [a.createdAt >= b.createdAt] as a comparison of numbers: false as
    soon as one side is [NaN]. *)
Definition createdAt_ge (a b : OzonPosting) : Prop :=
  match Date_getTime (in_process_at a), Date_getTime (in_process_at b) with
  | Some ta, Some tb => tb <= ta
  | _, _ => False
  end.

(** Every posting the transport delivers carries a timestamp. *)
Definition ValidDates : Prop :=
  forall cred body p,
    In p (pagePostings cred body) ->
    Date_getTime (in_process_at p) <> None.

(** The stores of a credential list whose run ends in the [catch]
    block. *)
Definition failedStores (credentialsList : list OzonCredentials)
           (days : Z) : list string :=
  flat_map (fun cred =>
              match whileLoop cred days enoughFuel initial with
              | Some (Threw _, _) => [clientId cred]
              | _ => []
              end) credentialsList.

End Fetch.

End OzonService.

(* ================================================================= *)
(** ** [src/components/Dashboard.tsx] *)

Module Dashboard.
Import JS Types.

(** An entry of [revenueByCurrency]. *)
Record Revenue : Type := {
  amount : float;
  count : Z
}.

(** What the [stats] memo returns, without the chart series.  The series
    is built from a second, date-keyed table, filled by the second half of
    the [forEach] body; no statement below reads it, and that half
    completes for every order whose date part does not name a member of
    [Object.prototype]. *)
Record Stats : Type := {
  totalOrders : nat;
  revenueByCurrency : Obj Revenue
}.

(** An entry of the [groups] table of [smartGroups]. *)
Record Group : Type := {
  product : OzonProduct;
  orders : list OzonPosting;
  currency : string
}.

Section Stats.
Variable parseFloat : string -> float.

(** [order.products[0]?.currency_code || 'RUB'] *)
Definition orderCurrency (order : OzonPosting) : string :=
  match products order with
  | p :: _ => str_or_else (currency_code p) "RUB"
  | [] => "RUB"
  end.

(** [order.financial_data?.products.reduce((sum, p) => sum + p.price, 0)] *)
Definition financialTotal (order : OzonPosting) : option float :=
  match financial_data order with
  | Some fd =>
      Some (fold_left (fun sum p => (sum + fin_price p)%float)
                      (fin_products fd) 0%float)
  | None => None
  end.

(** [order.products.reduce((sum, p) => sum + parseFloat(p.price), 0)] *)
Definition productsTotal (order : OzonPosting) : float :=
  fold_left (fun sum p => (sum + parseFloat (price p))%float)
            (products order) 0%float.

Definition orderTotal (order : OzonPosting) : float :=
  opt_or_else (financialTotal order) (productsTotal order).

(** The first half of the [forEach] body.  For a currency code that
    names a member of [Object.prototype] the lookup is truthy, no own
    entry is created and the two updates land on the inherited
    object. *)
Definition addRevenue (revenueByCurrency : Obj Revenue)
           (order : OzonPosting) : Obj Revenue :=
  let currency := orderCurrency order in
  let orderTotal := orderTotal order in
  match getOwn revenueByCurrency currency with
  | Some r =>
      setOwn currency
             {| amount := (amount r + orderTotal)%float;
                count := count r + 1 |}
             revenueByCurrency
  | None =>
      if inherited currency then revenueByCurrency
      else
        setOwn currency
               {| amount := (0 + orderTotal)%float; count := 0 + 1 |}
               revenueByCurrency
  end.

Definition stats (orders : list OzonPosting) : Stats :=
  {| totalOrders := List.length orders;
     revenueByCurrency := fold_left addRevenue orders [] |}.

End Stats.

(** The body of the [forEach] of [smartGroups].  For an offer id that
    names a member of [Object.prototype], [groups[key]] is that member:
    it is truthy and has no [orders], so [push] is called on
    [undefined]. *)
Definition addToGroups (groups : Obj Group) (order : OzonPosting)
  : Completion (Obj Group) :=
  match products order with
  | [product] =>
      let key := offer_id product in
      match getOwn groups key with
      | Some g =>
          Normal (setOwn key
                    {| product := Dashboard.product g;
                       orders := (orders g ++ [order])%list;
                       currency := currency g |}
                    groups)
      | None =>
          if inherited key then TypeError
          else
            Normal (setOwn key
                      {| product := product;
                         orders := [order];
                         currency := str_or_else (currency_code product) "RUB" |}
                      groups)
      end
  | _ => Normal groups
  end.

(** [(a, b) => b.orders.length - a.orders.length] *)
Definition byOrderCountDesc (a b : Group) : Z :=
  Z.of_nat (List.length (orders b)) - Z.of_nat (List.length (orders a)).

Definition smartGroups (orders : list OzonPosting) : Completion (list Group) :=
  bind (forEach addToGroups orders [])
       (fun groups =>
          Normal (Array_sort byOrderCountDesc (Object_values groups))).

(** [packedOrderIds.has(id)] on the set of packed posting numbers. *)
Definition Set_has (s : list string) (id : string) : bool :=
  existsb (String.eqb id) s.

Definition header : string :=
  "货号 (Offer ID),SKU,商品名称,单价,币种,总数量 (件),待打包订单,已打包订单"
  ++ String newline EmptyString.

(** [o.products[0].quantity || 1] *)
Definition quantityOrOne (p : OzonProduct) : Z :=
  match quantity p with
  | Some q => if q =? 0 then 1 else q
  | None => 1
  end.

Definition totalQty (group : Group) : Completion Z :=
  forEach (fun sum o =>
             match products o with
             | p :: _ => Normal (sum + quantityOrOne p)
             | [] => TypeError
             end)
          (orders group) 0.

Definition packedCount (packedOrderIds : list string) (group : Group) : Z :=
  Z.of_nat
    (List.length (filter (fun o => Set_has packedOrderIds (posting_number o))
                    (orders group))).

Definition unpackedCount (packedOrderIds : list string) (group : Group) : Z :=
  Z.of_nat (List.length (orders group)) - packedCount packedOrderIds group.

Definition safeName (group : Group) : string :=
  replace_quotes (name (product group)).

Definition comma : string := ",".
Definition quote : string := String dquote EmptyString.

(** The template literal of one row, given the total quantity. *)
Definition csvRow (packedOrderIds : list string) (group : Group)
           (totalQty : Z) : string :=
  offer_id (product group) ++ comma
  ++ Number_toString (sku (product group)) ++ comma
  ++ quote ++ safeName group ++ quote ++ comma
  ++ price (product group) ++ comma
  ++ currency group ++ comma
  ++ Number_toString totalQty ++ comma
  ++ Number_toString (unpackedCount packedOrderIds group) ++ comma
  ++ Number_toString (packedCount packedOrderIds group)
  ++ String newline EmptyString.

(** The content handed to the [Blob]; [None] when the handler returns
    before building any. *)
Definition handleExportSmartGroups (smartGroups : list Group)
           (packedOrderIds : list string) : Completion (option string) :=
  match smartGroups with
  | [] => Normal None
  | _ =>
      bind (forEach
              (fun csvContent group =>
                 bind (totalQty group)
                      (fun qty =>
                         Normal (csvContent
                                 ++ csvRow packedOrderIds group qty)))
              smartGroups (BOM ++ header))
           (fun csvContent => Normal (Some csvContent))
  end.

(** *** Notions used in the statements *)

(** The revenue of an order in the words of the specification: the sum
    of its financial amounts (the [price] entries of
    [financial_data.products], the numbers the code adds up) when it has
    financial data, the sum of the unit prices of its line items
    otherwise. *)
Definition claimedRevenue (parseFloat : string -> float)
           (order : OzonPosting) : float :=
  match financial_data order with
  | Some fd =>
      fold_left (fun sum p => (sum + fin_price p)%float)
                (fin_products fd) 0%float
  | None => productsTotal parseFloat order
  end.

(** The order with the quantity of every line item replaced. *)
Definition withQuantities (q : OzonProduct -> option Z)
           (order : OzonPosting) : OzonPosting :=
  {| posting_number := posting_number order;
     order_id := order_id order;
     status := status order;
     in_process_at := in_process_at order;
     products :=
       map (fun p => {| name := name p;
                        offer_id := offer_id p;
                        price := price p;
                        currency_code := currency_code p;
                        quantity := q p;
                        sku := sku p |})
           (products order);
     financial_data := financial_data order;
     posting_clientId := posting_clientId order |}.

(** The offer id of the one line item of a single-item order. *)
Definition singleKey (o : OzonPosting) : option string :=
  match products o with
  | [p] => Some (offer_id p)
  | _ => None
  end.

Definition hasKey (k : string) (o : OzonPosting) : bool :=
  match singleKey o with
  | Some k' => String.eqb k' k
  | None => false
  end.

(** The offer ids of the single-item orders, one per order. *)
Definition keysOf (orders : list OzonPosting) : list string :=
  flat_map (fun o =>
              match singleKey o with
              | Some k => [k]
              | None => []
              end) orders.

(** The distinct keys, each at the place of its first occurrence. *)
Definition firstEncountered (ks : list string) : list string :=
  rev (nodup string_dec (rev ks)).

(** The order in which [Object.values] visits a table whose keys were
    created in the order [ks]. *)
Definition enumerationOrder (ks : list string) : list string :=
  (Array_sort (fun a b => indexOf a - indexOf b) (filter isIndex ks)
   ++ filter (fun k => negb (isIndex k)) ks)%list.

Definition groupKey (g : Group) : string := offer_id (product g).

Definition orderCount (orders : list OzonPosting) (k : string) : nat :=
  List.length (filter (hasKey k) orders).

(** Groups with the same number of orders come in the order [ks] of
    their keys. *)
Definition TiesFollow (ks : list string) (orders : list OzonPosting)
           (groups : list Group) : Prop :=
  forall n : nat,
    map groupKey
        (filter (fun g => Nat.eqb (List.length (Dashboard.orders g)) n) groups)
    = filter (fun k => Nat.eqb (orderCount orders k) n) ks.

(** The quantity of the line item of a member order, as the export
    counts it: 1 when it is absent or zero. *)
Definition lineQuantity (o : OzonPosting) : Z :=
  match products o with
  | p :: _ =>
      match quantity p with
      | Some q => if q =? 0 then 1 else q
      | None => 1
      end
  | [] => 0
  end.

(** The total quantity of a group in the words of the specification:
    the quantities of the member orders, 1 standing for an absent one. *)
Definition claimedTotalQty (group : Group) : Z :=
  fold_left (fun sum o =>
               sum + match products o with
                     | p :: _ =>
                         match quantity p with
                         | Some q => q
                         | None => 1
                         end
                     | [] => 0
                     end)
            (orders group) 0.

(** Reading a quoted field back: two quote characters stand for one. *)
Fixpoint collapse_quotes (s : string) : string :=
  match s with
  | EmptyString => EmptyString
  | String c rest =>
      match rest with
      | String c' rest' =>
          if Ascii.eqb c dquote && Ascii.eqb c' dquote
          then String dquote (collapse_quotes rest')
          else String c (collapse_quotes rest)
      | EmptyString => String c EmptyString
      end
  end.

(** What the [groups] table holds under key [k] once the orders [l] have
    been visited: the single-item orders of [l] with offer id [k], in
    order, with the line item of the first of them. *)
Definition GroupOf (l : list OzonPosting) (kg : string * Group) : Prop :=
  groupKey (snd kg) = fst kg
  /\ orders (snd kg) = filter (hasKey (fst kg)) l
  /\ (exists o rest,
         orders (snd kg) = o :: rest /\ products o = [product (snd kg)])
  /\ currency (snd kg) = str_or_else (currency_code (product (snd kg))) "RUB".

(** The [groups] table after the orders [l]. *)
Definition TableOf (l : list OzonPosting) (groups : Obj Group) : Prop :=
  map fst groups = firstEncountered (keysOf l)
  /\ Forall (GroupOf l) groups.

End Dashboard.

(* ================================================================= *)
(** ** [src/services/ozonService.ts], the label request *)

Module Labels.
Import JS Types OzonService.

(** A response of the label endpoint: not ok, with what
    [response.json()] settles to (a rejection also stands for a body that
    is [null], on which reading [message] throws) and
    [response.statusText]; or ok, with what [response.blob()] settles
    to.  A blob is given by its bytes. *)
Inductive LabelResponse : Type :=
| LabelNotOk (status : Z) (json : Await ErrorBody) (statusText : string)
| LabelOk (blob : Await string).

Definition LabelTransport : Type :=
  OzonCredentials -> list string -> Await LabelResponse.

(** What a label download does to the outside world. *)
Inductive LabelEvent : Type :=
| LabelRequest (credentials : OzonCredentials) (postingNumbers : list string)
| LabelConsoleError (error : Thrown)
| SetDownloading (downloading : bool)
| SaveFile (storeId : string) (blob : string)
| DownloadConsoleError (error : Thrown)
| DownloadAlert.

Section Download.
Variable transport : LabelTransport.
(** The [TypeError] of reading [clientId] of [undefined], and the one of
    calling a [push] that is [undefined]. *)
Variable undefinedRead : Thrown.
Variable notCallable : Thrown.

(** [credentialsList.find(c => c.clientId === targetClientId)
    || credentialsList[0]] *)
Definition pickCredential (credentialsList : list OzonCredentials)
           (targetClientId : option string) : option OzonCredentials :=
  match
    match targetClientId with
    | Some target =>
        find (fun c => String.eqb (clientId c) target) credentialsList
    | None => None
    end
  with
  | Some cred => Some cred
  | None => hd_error credentialsList
  end.

Definition labelErrorDetail (json : Await ErrorBody) (statusText : string)
  : string :=
  match json with
  | Fulfilled errorBody =>
      str_or_else (body_message errorBody) (body_stringified errorBody)
  | RejectedWith _ => statusText
  end.

(** The settlement of the returned promise and the events of the call. *)
Definition fetchPackageLabel (credentialsList : list OzonCredentials)
           (postingNumbers : list string) (targetClientId : option string)
  : Await string * list LabelEvent :=
  match pickCredential credentialsList targetClientId with
  | None => (RejectedWith undefinedRead, [LabelConsoleError undefinedRead])
  | Some cred =>
      let sent := LabelRequest cred postingNumbers in
      match transport cred postingNumbers with
      | RejectedWith e => (RejectedWith e, [sent; LabelConsoleError e])
      | Fulfilled (LabelNotOk status json statusText) =>
          let e :=
            ErrorObject ("Failed to fetch labels: " ++ Number_toString status
                         ++ " " ++ labelErrorDetail json statusText) in
          (RejectedWith e, [sent; LabelConsoleError e])
      | Fulfilled (LabelOk (RejectedWith e)) =>
          (RejectedWith e, [sent; LabelConsoleError e])
      | Fulfilled (LabelOk (Fulfilled blob)) => (Fulfilled blob, [sent])
      end
  end.

(** *** [handleDownloadLabels] of [src/components/Dashboard.tsx] *)

(** [ordersById.get(id)]: of several orders with one posting number the
    [Map] keeps the last. *)
Definition orderById (orders : list OzonPosting) (id : string)
  : option OzonPosting :=
  find (fun o => String.eqb (posting_number o) id) (rev orders).

(** The store an id is requested from: the [clientId] of its order when
    the order is known and the field is truthy, else the first
    credential. *)
Definition storeOfId (credsList : list OzonCredentials)
           (orders : list OzonPosting) (id : string) : option string :=
  match
    match orderById orders id with
    | Some order =>
        match posting_clientId order with
        | Some EmptyString => None
        | other => other
        end
    | None => None
    end
  with
  | Some cid => Some cid
  | None =>
      match credsList with
      | firstCred :: _ => Some (clientId firstCred)
      | [] => None
      end
  end.

(** The body of [ids.forEach].  For a store id that names a member of
    [Object.prototype] the lookup is truthy and has no [push]. *)
Definition addId (credsList : list OzonCredentials)
           (orders : list OzonPosting) (groups : Obj (list string))
           (id : string) : Completion (Obj (list string)) :=
  match storeOfId credsList orders id with
  | Some key =>
      match getOwn groups key with
      | Some storeIds => Normal (setOwn key (storeIds ++ [id])%list groups)
      | None =>
          if inherited key then TypeError
          else Normal (setOwn key [id] groups)
      end
  | None => Normal groups
  end.

(** The [for ... of Object.entries(groups)] loop, up to the first label
    request that fails, with the [catch] block when one does. *)
Fixpoint downloadAll (credsList : list OzonCredentials)
         (entries : list (string * list string)) : list LabelEvent :=
  match entries with
  | [] => []
  | (storeId, storeIds) :: rest =>
      match fetchPackageLabel credsList storeIds (Some storeId) with
      | (Fulfilled blob, events) =>
          (events ++ SaveFile storeId blob :: downloadAll credsList rest)%list
      | (RejectedWith e, events) =>
          (events ++ [DownloadConsoleError e; DownloadAlert])%list
      end
  end.

(** [credsList] is what [getCredentialsList()] reads from local
    storage. *)
Definition handleDownloadLabels (credsList : list OzonCredentials)
           (orders : list OzonPosting) (ids : list string)
  : list LabelEvent :=
  match credsList, ids with
  | [], _ => []
  | _, [] => []
  | _, _ =>
      (SetDownloading true
       :: match forEach (addId credsList orders) ids [] with
          | Normal groups => downloadAll credsList (ownEntries groups)
          | TypeError => [DownloadConsoleError notCallable; DownloadAlert]
          end
       ++ [SetDownloading false])%list
  end.

End Download.

(** *** Notions used in the statements *)

Definition idsOfStore (credsList : list OzonCredentials)
           (orders : list OzonPosting) (ids : list string) (key : string)
  : list string :=
  filter (fun id =>
            match storeOfId credsList orders id with
            | Some k => String.eqb k key
            | None => false
            end) ids.

Definition storeKeys (credsList : list OzonCredentials)
           (orders : list OzonPosting) (ids : list string) : list string :=
  flat_map (fun id =>
              match storeOfId credsList orders id with
              | Some k => [k]
              | None => []
              end) ids.

(** The [groups] table of [handleDownloadLabels] after the ids [ids]. *)
Definition LabelTable (credsList : list OzonCredentials)
           (orders : list OzonPosting) (ids : list string)
           (groups : Obj (list string)) : Prop :=
  map fst groups
  = Dashboard.firstEncountered (storeKeys credsList orders ids)
  /\ Forall (fun kg => snd kg = idsOfStore credsList orders ids (fst kg))
            groups.

Definition labelRequests (events : list LabelEvent)
  : list (OzonCredentials * list string) :=
  flat_map (fun ev =>
              match ev with
              | LabelRequest cred ids => [(cred, ids)]
              | _ => []
              end) events.

Definition savedFiles (events : list LabelEvent) : list (string * string) :=
  flat_map (fun ev =>
              match ev with
              | SaveFile storeId blob => [(storeId, blob)]
              | _ => []
              end) events.

Fixpoint takeWhile {A : Type} (p : A -> bool) (l : list A) : list A :=
  match l with
  | [] => []
  | x :: rest => if p x then x :: takeWhile p rest else []
  end.

Fixpoint dropWhile {A : Type} (p : A -> bool) (l : list A) : list A :=
  match l with
  | [] => []
  | x :: rest => if p x then dropWhile p rest else l
  end.

Definition isFulfilled {A : Type} (a : Await A) : bool :=
  match a with
  | Fulfilled _ => true
  | RejectedWith _ => false
  end.

Definition isFlag (ev : LabelEvent) : bool :=
  match ev with
  | SetDownloading _ => true
  | _ => false
  end.

Definition downloadAlerts (events : list LabelEvent) : nat :=
  List.length (filter (fun ev =>
                         match ev with
                         | DownloadAlert => true
                         | _ => false
                         end) events).

End Labels.

(* ================================================================= *)
(** ** [src/components/Dashboard.tsx], selection, packed marks and the
    dominant currency *)

Module DashboardState.
Import JS Types Dashboard.

(** A [Set] of strings is the list of its elements in insertion order,
    without repetition. *)
Definition Set_add (x : string) (s : list string) : list string :=
  if Set_has s x then s else (s ++ [x])%list.

Definition Set_delete (x : string) (s : list string) : list string :=
  filter (fun y => negb (String.eqb y x)) s.

(** [new Set(array)] *)
Definition Set_from (xs : list string) : list string :=
  fold_left (fun s x => Set_add x s) xs [].

(** The new packed set and the new selection. *)
Definition togglePackedStatus (ids : list string) (status : bool)
           (packedOrderIds selectedOrders : list string)
  : list string * list string :=
  let newPacked :=
    fold_left (fun s id => if status then Set_add id s else Set_delete id s)
              ids packedOrderIds in
  (newPacked,
   if (1 <? List.length ids)%nat then [] else selectedOrders).

Definition toggleSelect (id : string) (selectedOrders : list string)
  : list string :=
  if Set_has selectedOrders id
  then Set_delete id selectedOrders
  else Set_add id selectedOrders.

Definition toggleSelectAll (orders : list OzonPosting)
           (selectedOrders : list string) : list string :=
  if (List.length selectedOrders =? List.length orders)%nat
  then []
  else Set_from (map posting_number orders).

(** The search for the dominant currency: the running pair of
    [dominantCurrency] and [maxRevenue]. *)
Definition dominantStep (st : string * float) (entry : string * Revenue)
  : string * float :=
  if PrimFloat.ltb (snd st) (amount (snd entry))
  then (fst entry, amount (snd entry))
  else st.

Definition dominantSearch (revenueByCurrency : Obj Revenue)
  : string * float :=
  fold_left dominantStep (ownEntries revenueByCurrency)
            ("RUB", (-1)%float).

Definition dominantCurrency (revenueByCurrency : Obj Revenue) : string :=
  fst (dominantSearch revenueByCurrency).

(** *** Notions used in the statements *)

Definition inCurrency (k : string) (o : OzonPosting) : bool :=
  String.eqb (orderCurrency o) k.

(** The currencies that get an entry, one per order. *)
Definition bookedCurrencies (orders : list OzonPosting) : list string :=
  flat_map (fun o =>
              if inherited (orderCurrency o) then []
              else [orderCurrency o]) orders.

(** What [revenueByCurrency] holds under a key once the orders [l] have
    been visited. *)
Definition RevenueOf (parseFloat : string -> float) (l : list OzonPosting)
           (kr : string * Revenue) : Prop :=
  count (snd kr) = Z.of_nat (List.length (filter (inCurrency (fst kr)) l))
  /\ amount (snd kr)
     = fold_left (fun sum o => (sum + orderTotal parseFloat o)%float)
                 (filter (inCurrency (fst kr)) l) 0%float.

Definition RevenueTable (parseFloat : string -> float)
           (l : list OzonPosting) (revenue : Obj Revenue) : Prop :=
  map fst revenue = firstEncountered (bookedCurrencies l)
  /\ Forall (RevenueOf parseFloat l) revenue.

End DashboardState.

(* ================================================================= *)
(** ** The settings form of [src/components/Dashboard.tsx] *)

Module Settings.
Import JS Types.

(** Strings are sequences of UTF-8 bytes; the white space and the line
    terminators that [trim] and the class [\s] take are given by their
    encodings. *)
Definition byte (c : ascii) : N := N_of_ascii c.

(** U+1680; U+2000 to U+200A, U+2028, U+2029 and U+202F; U+205F;
    U+3000; U+FEFF. *)
Definition threeByteSpace (a b c : N) : bool :=
  ((a =? 225) && (b =? 154) && (c =? 128)
   || (a =? 226) && (b =? 128)
      && ((128 <=? c) && (c <=? 138) || (c =? 168) || (c =? 169)
          || (c =? 175))
   || (a =? 226) && (b =? 129) && (c =? 159)
   || (a =? 227) && (b =? 128) && (c =? 128)
   || (a =? 239) && (b =? 187) && (c =? 191))%N.

(** U+0009 to U+000D and U+0020. *)
Definition asciiSpace (c : ascii) : bool :=
  ((9 <=? byte c) && (byte c <=? 13) || (byte c =? 32))%N.

(** The number of bytes of the white space or line terminator at the
    head of [s], 0 when there is none; U+00A0 takes two bytes. *)
Definition spaceLength (s : string) : nat :=
  match s with
  | String a rest =>
      if asciiSpace a then 1
      else match rest with
           | String b rest' =>
               if ((byte a =? 194) && (byte b =? 160))%N then 2
               else match rest' with
                    | String c _ =>
                        if threeByteSpace (byte a) (byte b) (byte c)
                        then 3 else 0
                    | EmptyString => 0
                    end
           | EmptyString => 0
           end
  | EmptyString => 0
  end%nat.

(** The same for a character of the class [[\s,\t]]. *)
Definition sepLength (s : string) : nat :=
  match s with
  | String a _ => if (byte a =? 44)%N then 1 else spaceLength s
  | EmptyString => 0
  end%nat.

(** [String.prototype.trim] *)
Fixpoint trimStart (s : string) : string :=
  match spaceLength s, s with
  | 1, String _ r => trimStart r
  | 2, String _ (String _ r) => trimStart r
  | 3, String _ (String _ (String _ r)) => trimStart r
  | _, _ => s
  end%nat.

Fixpoint allSpace (s : string) : bool :=
  match s with
  | EmptyString => true
  | String _ r1 =>
      match spaceLength s, r1 with
      | 1, _ => allSpace r1
      | 2, String _ r2 => allSpace r2
      | 3, String _ (String _ r3) => allSpace r3
      | _, _ => false
      end%nat
  end.

Fixpoint trimEnd (s : string) : string :=
  match s with
  | EmptyString => EmptyString
  | String c r => if allSpace s then EmptyString else String c (trimEnd r)
  end.

Definition trim (s : string) : string := trimEnd (trimStart s).

(** [s.split('\n')] *)
Fixpoint splitLines (s : string) : list string :=
  match s with
  | EmptyString => [EmptyString]
  | String c r =>
      if Ascii.eqb c newline then EmptyString :: splitLines r
      else match splitLines r with
           | l :: ls => String c l :: ls
           | [] => [String c EmptyString]
           end
  end.

Definition isQuote (c : ascii) : bool := ((byte c =? 39) || (byte c =? 34))%N.

(** Every apostrophe and every quotation mark is removed. *)
Fixpoint removeQuotes (s : string) : string :=
  match s with
  | EmptyString => EmptyString
  | String c r => if isQuote c then removeQuotes r else String c (removeQuotes r)
  end.

(** [s.split(/[\s,\t]+/)]: the parts between the maximal runs of
    separators.  [inSep] tells that the part before has been closed. *)
Definition extend (c : ascii) (parts : list string) : list string :=
  match parts with
  | t :: ts => String c t :: ts
  | [] => [String c EmptyString]
  end.

Definition close (inSep : bool) (parts : list string) : list string :=
  if inSep then parts else EmptyString :: parts.

Fixpoint splitFrom (inSep : bool) (s : string) : list string :=
  match s with
  | EmptyString => [EmptyString]
  | String c r1 =>
      match sepLength s, r1 with
      | 0, _ => extend c (splitFrom false r1)
      | 1, _ => close inSep (splitFrom true r1)
      | 2, String _ r2 => close inSep (splitFrom true r2)
      | 3, String _ (String _ r3) => close inSep (splitFrom true r3)
      | _, _ => []
      end%nat
  end.


(** The body of [lines.forEach] in [handleSubmit]. *)
Definition parseLine (line : string) : option OzonCredentials :=
  let cleanLine := removeQuotes line in
  match splitFrom false (trim cleanLine) with
  | part0 :: part1 :: _ =>
      let clientId := trim part0 in
      let apiKey := trim part1 in
      match clientId, apiKey with
      | String _ _, String _ _ =>
          Some {| clientId := clientId; apiKey := apiKey |}
      | _, _ => None
      end
  | _ => None
  end.

(** What [handleSubmit] ends with: the alert, or [onSave(newCreds)]. *)
Inductive Submit : Type :=
| AlertFormat
| OnSave (newCreds : list OzonCredentials).

Definition parsedLines (bulkInput : string) : list OzonCredentials :=
  flat_map (fun line => match parseLine line with
                        | Some cred => [cred]
                        | None => []
                        end) (splitLines bulkInput).

Definition handleSubmit (bulkInput : string) : Submit :=
  let newCreds := parsedLines bulkInput in
  if (List.length newCreds =? 0)%nat
     && negb (String.eqb (trim bulkInput) EmptyString)
  then AlertFormat
  else OnSave newCreds.

(** [initialCreds.map(c => ...).join('\n')] *)
Definition credentialLine (c : OzonCredentials) : string :=
  clientId c ++ " " ++ apiKey c.

Definition initialText (initialCreds : list OzonCredentials) : string :=
  String.concat (String newline EmptyString) (map credentialLine initialCreds).

(** The count that [handleInputChange] shows. *)
Definition parsedCount (text : string) : nat :=
  List.length (filter (fun line => negb (String.eqb (trim line) EmptyString))
                      (splitLines text)).

(** *** Notions used in the statements *)

Fixpoint allBytes (P : ascii -> bool) (s : string) : bool :=
  match s with
  | EmptyString => true
  | String c r => P c && allBytes P r
  end.

(** A printable ASCII character other than the space, the comma and the
    two quotes. *)
Definition plain (c : ascii) : bool :=
  ((33 <=? byte c) && (byte c <=? 126))%N
  && negb (isQuote c) && negb (byte c =? 44)%N.

Definition plainField (s : string) : bool :=
  negb (String.eqb s EmptyString) && allBytes plain s.

(** No ASCII white space, comma or quote. *)
Definition tidy (c : ascii) : bool :=
  negb (asciiSpace c) && negb (byte c =? 44)%N && negb (isQuote c).

(** A byte of a character outside ASCII. *)
Definition high (c : ascii) : bool := (128 <=? byte c)%N.

Definition space : ascii := "032"%char.

(** What [spaceLength] finds at the head of a string. *)
Inductive SpaceHead (s : string) : Prop :=
| NoSpace : spaceLength s = 0%nat -> SpaceHead s
| OneByte (a : ascii) (r : string) :
    s = String a r -> asciiSpace a = true -> spaceLength s = 1%nat ->
    SpaceHead s
| TwoBytes (a b : ascii) (r : string) :
    s = String a (String b r) ->
    asciiSpace a = false -> high a = true -> high b = true ->
    (forall r', spaceLength (String a (String b r')) = 2%nat) ->
    SpaceHead s
| ThreeBytes (a b c : ascii) (r : string) :
    s = String a (String b (String c r)) ->
    asciiSpace a = false -> high a = true -> high b = true ->
    high c = true ->
    (forall r', spaceLength (String a (String b (String c r'))) = 3%nat) ->
    SpaceHead s.

End Settings.

(* ================================================================= *)
(** ** Sample data *)

Module Samples.
Import JS Types OzonService.

Definition storeA : OzonCredentials := {| clientId := "A"; apiKey := "key-a" |}.
Definition storeB : OzonCredentials := {| clientId := "B"; apiKey := "key-b" |}.
Definition storeX : OzonCredentials := {| clientId := "X"; apiKey := "key-x" |}.
Definition storeY : OzonCredentials := {| clientId := "Y"; apiKey := "key-y" |}.

Definition posting (number date : string) (items : list OzonProduct)
  : OzonPosting :=
  {| posting_number := number;
     order_id := 1;
     status := "awaiting_packaging";
     in_process_at := date;
     products := items;
     financial_data := None;
     posting_clientId := None |}.

Definition jan (day : string) : string :=
  "2024-01-" ++ day ++ "T00:00:00.000Z".

(** [new Date(s).getTime()] on the dates of the samples; [NaN]
    elsewhere. *)
Definition sampleGetTime (s : string) : option Z :=
  if String.eqb s (jan "01") then Some 1704067200000
  else if String.eqb s (jan "02") then Some 1704153600000
  else if String.eqb s (jan "03") then Some 1704240000000
  else if String.eqb s (jan "04") then Some 1704326400000
  else None.

Definition sampleWindow (days : Z) : string * string :=
  ("2024-01-01T00:00:00.000Z", "2024-01-16T00:00:00.000Z").

Definition page (ps : list OzonPosting) (more : bool) : Await Response :=
  Fulfilled (Ok (Fulfilled {| postings := Some ps; has_next := more |})).

(** Store A is unreachable; every other store has one order. *)
Definition transportAFails : Transport :=
  fun cred body =>
    if String.eqb (clientId cred) "A"
    then RejectedWith (ErrorObject "Failed to fetch")
    else page [posting "b-1" (jan "02") []] false.

(** Store A answers with an empty page; every other store has one
    order. *)
Definition transportAEmpty : Transport :=
  fun cred body =>
    if String.eqb (clientId cred) "A"
    then page [] false
    else page [posting "b-1" (jan "02") []] false.

(** Store A delivers a first page and fails on the second one; every
    other store has one order. *)
Definition transportAFailsLate : Transport :=
  fun cred body =>
    if String.eqb (clientId cred) "A"
    then if Types.offset body =? 0
         then page [posting "a-1" (jan "03") []] true
         else Fulfilled (NotOk 500
                           (Fulfilled {| body_message := "internal";
                                         body_error_message := "";
                                         body_stringified := "{}" |})
                           (RejectedWith (ErrorObject "body used")))
    else page [posting "b-1" (jan "02") []] false.

(** Store X has three orders and store Y two; other stores none. *)
Definition transportXY : Transport :=
  fun cred body =>
    if String.eqb (clientId cred) "X"
    then page [posting "x-1" (jan "03") []; posting "x-2" (jan "02") [];
               posting "x-3" (jan "01") []] false
    else if String.eqb (clientId cred) "Y"
    then page [posting "y-1" (jan "04") []; posting "y-2" (jan "02") []]
              false
    else page [] false.

(** Every store delivers three orders, the second with a date that
    does not parse. *)
Definition transportUndated : Transport :=
  fun cred body =>
    page [posting "u-1" (jan "01") []; posting "u-2" "soon" [];
          posting "u-3" (jan "02") []] false.

(** A store that always reports a further page. *)
Definition transportEndless : Transport :=
  fun cred body => page [] true.

(** [parseFloat] on a string of decimal digits that denotes an integer
    below 2^53 (the only strings it is used on); [NaN] on a string that
    does not start with a digit. *)
Definition parseDigits (s : string) : float :=
  match s, digits_value s 0%N with
  | String _ _, Some n => PrimFloat.of_uint63 (Uint63.of_Z (Z.of_N n))
  | _, _ => PrimFloat.nan
  end.

Definition item (offer unitPrice : string) (qty : option Z) : OzonProduct :=
  {| name := "item " ++ offer;
     offer_id := offer;
     price := unitPrice;
     currency_code := "CNY";
     quantity := qty;
     sku := 7 |}.

Definition single (number offer : string) : OzonPosting :=
  posting number (jan "01") [item offer "10" (Some 2)].

(** An order with financial data that lists no product. *)
Definition emptyFinancials : OzonPosting :=
  {| posting_number := "f-1";
     order_id := 1;
     status := "delivered";
     in_process_at := jan "01";
     products := [item "sku-1" "10" (Some 3)];
     financial_data := Some {| fin_products := [] |};
     posting_clientId := Some "A" |}.

(** An order of one line item priced in the currency [code]. *)
Definition priced (number code : string) : OzonPosting :=
  posting number (jan "01")
          [{| name := "item";
              offer_id := "offer";
              price := "10";
              currency_code := code;
              quantity := Some 1;
              sku := 7 |}].

(** An order without line items. *)
Definition noItems : OzonPosting := posting "e-1" (jan "01") [].

(** Two single-item orders whose offer ids are numerals. *)
Definition numericOffers : list OzonPosting :=
  [single "n-1" "2"; single "n-2" "1"].

(** Groups of sizes 1, 5 and 3 (offers a, b, c), and a two-item order. *)
Definition pickList : list OzonPosting :=
  [single "p-1" "a"; single "p-2" "b"; single "p-3" "c";
   posting "p-4" (jan "02") [item "b" "10" None; item "c" "10" None];
   single "p-5" "b"; single "p-6" "c"; single "p-7" "b";
   single "p-8" "b"; single "p-9" "c"; single "p-10" "b"].

(** A group of one order whose line item has quantity 0. *)
Definition zeroQuantityGroup : Dashboard.Group :=
  {| Dashboard.product := item "z" "10" (Some 0);
     Dashboard.orders := [posting "z-1" (jan "01") [item "z" "10" (Some 0)]];
     Dashboard.currency := "CNY" |}.

(** A group whose product name holds quote characters. *)
Definition quotedGroup : Dashboard.Group :=
  {| Dashboard.product :=
       {| name := String dquote ("A" ++ String dquote " size");
          offer_id := "q";
          price := "12.50";
          currency_code := "RUB";
          quantity := None;
          sku := 42 |};
     Dashboard.orders :=
       [posting "q-1" (jan "01") [item "q" "12.50" None];
        posting "q-2" (jan "02") [item "q" "12.50" (Some 3)]];
     Dashboard.currency := "RUB" |}.

End Samples.

Module LabelSamples.
Import JS Types OzonService Labels Samples.

(** Two stores with numeric ids, as Ozon hands them out. *)
Definition store20 : OzonCredentials :=
  {| clientId := "20"; apiKey := "key-20" |}.
Definition store3 : OzonCredentials :=
  {| clientId := "3"; apiKey := "key-3" |}.

(** Orders of both stores, one order of a store that is no longer
    configured and one order without a store tag. *)
Definition labelOrders : list OzonPosting :=
  [tag store20 (single "l-1" "a"); tag store3 (single "l-2" "a");
   tag store20 (single "l-3" "b"); tag storeA (single "l-4" "c");
   single "l-5" "c"].

Definition labelIds : list string := ["l-1"; "l-2"; "l-3"; "l-4"; "l-5"].

(** Every request is answered with a document. *)
Definition labelsOk : LabelTransport :=
  fun cred postingNumbers =>
    Fulfilled (LabelOk (Fulfilled ("labels of " ++ clientId cred))).

(** Store 20 does not know the postings. *)
Definition labelsFailFor20 : LabelTransport :=
  fun cred postingNumbers =>
    if String.eqb (clientId cred) "20"
    then Fulfilled
           (LabelNotOk 404
                       (Fulfilled {| body_message := "POSTING_NOT_FOUND";
                                     body_error_message := "";
                                     body_stringified := "{}" |})
                       "Not Found")
    else Fulfilled (LabelOk (Fulfilled ("labels of " ++ clientId cred))).

Definition readOfUndefined : Thrown :=
  ErrorObject "Cannot read properties of undefined (reading 'clientId')".

Definition pushIsNoFunction : Thrown :=
  ErrorObject "groups[cid].push is not a function".

End LabelSamples.

Module SettingsSamples.
Import JS Types Settings.

(** A line pasted from a spreadsheet, a blank line and a line with one
    field only. *)
Definition pastedText : string :=
  "'123',  key-1" ++ String newline ("   " ++ String newline "lonely").

Definition savedStores : list OzonCredentials :=
  [{| clientId := "123"; apiKey := "key-1" |};
   {| clientId := "456"; apiKey := "key-2" |}].

End SettingsSamples.

(* ================================================================= *)
(** * Properties *)

(** ** The stable sort *)

Module SortFacts.
Import JS.

Section AnyComparator.
Context {A : Type} (cmp : A -> A -> Z).

Lemma insert_perm (x : A) (l : list A) :
  Permutation (insert cmp x l) (x :: l).
Proof.
  induction l as [|y l IH]; simpl.
  - apply Permutation_refl.
  - destruct (cmp x y <=? 0).
    + apply Permutation_refl.
    + eapply perm_trans; [apply perm_skip, IH | apply perm_swap].
Qed.

Lemma Array_sort_perm (l : list A) : Permutation (Array_sort cmp l) l.
Proof.
  induction l as [|x l IH]; simpl.
  - constructor.
  - eapply perm_trans; [apply insert_perm | apply perm_skip, IH].
Qed.

Lemma Array_sort_In (l : list A) (x : A) :
  In x (Array_sort cmp l) <-> In x l.
Proof.
  split; apply Permutation_in;
    [ | apply Permutation_sym ]; apply Array_sort_perm.
Qed.

Lemma insert_ext (cmp' : A -> A -> Z) (x : A) (l : list A) :
  (forall y, In y l -> cmp x y = cmp' x y) ->
  insert cmp x l = insert cmp' x l.
Proof.
  induction l as [|y l IH]; simpl; intros H; [reflexivity|].
  rewrite <- (H y (or_introl eq_refl)).
  destruct (cmp x y <=? 0); [reflexivity|].
  f_equal. apply IH. intros z Hz. apply H. now right.
Qed.

End AnyComparator.

Lemma Array_sort_ext {A : Type} (cmp cmp' : A -> A -> Z) (l : list A) :
  (forall x y, In x l -> In y l -> cmp x y = cmp' x y) ->
  Array_sort cmp l = Array_sort cmp' l.
Proof.
  induction l as [|x l IH]; simpl; intros H; [reflexivity|].
  rewrite <- IH by (intros; apply H; now right).
  apply insert_ext. intros y Hy. apply H; [now left|].
  right. now apply (Array_sort_In cmp l y).
Qed.

Lemma Array_sort_map {A B : Type} (f : A -> B) (cmp : B -> B -> Z)
      (l : list A) :
  Array_sort cmp (map f l)
  = map f (Array_sort (fun a b => cmp (f a) (f b)) l).
Proof.
  induction l as [|x l IH]; simpl; [reflexivity|].
  rewrite IH. clear IH.
  induction (Array_sort (fun a b => cmp (f a) (f b)) l) as [|y s IHs];
    simpl; [reflexivity|].
  destruct (cmp (f x) (f y) <=? 0); simpl; [reflexivity|].
  now rewrite IHs.
Qed.

(** Comparators of the form [(a, b) => key(b) - key(a)]: descending
    by [key]. *)
Section Descending.
Context {A : Type} (key : A -> Z).


Lemma insert_sorted (x : A) (l : list A) :
  Sorted (geKey key) l -> Sorted (geKey key) (insert (desc key) x l).
Proof.
  induction l as [|y l IH]; simpl; intros Hs.
  - repeat constructor.
  - unfold desc at 1. destruct (Z.leb_spec (key y - key x) 0) as [Hle|Hgt].
    + constructor; [assumption|]. constructor. unfold geKey. lia.
    + inversion Hs as [|? ? Hl Hhd]; subst.
      constructor; [now apply IH|].
      destruct l as [|z l]; simpl.
      * constructor. unfold geKey. lia.
      * unfold desc at 1. destruct (Z.leb_spec (key z - key x) 0).
        -- constructor. unfold geKey. lia.
        -- constructor. now inversion Hhd.
Qed.

Lemma Array_sort_sorted (l : list A) : Sorted (geKey key) (Array_sort (desc key) l).
Proof.
  induction l as [|x l IH]; simpl.
  - constructor.
  - now apply insert_sorted.
Qed.

Lemma insert_filter_key (k : Z) (x : A) (l : list A) :
  filter (fun a => key a =? k) (insert (desc key) x l)
  = filter (fun a => key a =? k) (x :: l).
Proof.
  induction l as [|y l IH]; [reflexivity|].
  simpl insert. unfold desc at 1.
  destruct (Z.leb_spec (key y - key x) 0) as [Hle|Hgt]; [reflexivity|].
  simpl in *. rewrite IH.
  destruct (Z.eqb_spec (key x) k), (Z.eqb_spec (key y) k);
    try reflexivity.
  lia.
Qed.

(** Stability: elements with the same key keep their relative order. *)
Lemma Array_sort_stable (k : Z) (l : list A) :
  filter (fun a => key a =? k) (Array_sort (desc key) l)
  = filter (fun a => key a =? k) l.
Proof.
  induction l as [|x l IH]; [reflexivity|].
  simpl Array_sort. rewrite insert_filter_key. simpl. now rewrite IH.
Qed.

(** A list that is already in order is left as it is. *)
Lemma Array_sort_sorted_id (l : list A) :
  Sorted (geKey key) l -> Array_sort (desc key) l = l.
Proof.
  induction l as [|x l IH]; intros Hs; [reflexivity|].
  inversion Hs as [|? ? Hl Hhd]; subst. simpl. rewrite (IH Hl).
  destruct Hhd as [|y l' Hxy]; [reflexivity|].
  simpl. unfold desc, geKey in *.
  destruct (Z.leb_spec (key y - key x) 0); [reflexivity|lia].
Qed.

End Descending.

Lemma Sorted_on {A : Type} (P : A -> Prop) (R R' : A -> A -> Prop)
      (l : list A) :
  (forall a b, P a -> P b -> R a b -> R' a b) ->
  Forall P l -> Sorted R l -> Sorted R' l.
Proof.
  intros Himp HP Hs. induction Hs as [|a l Hs IH Hhd]; [constructor|].
  inversion HP as [|? ? Pa Pl]; subst.
  constructor; [now apply IH|].
  destruct Hhd as [|b l' Hab]; constructor.
  inversion Pl; subst. now apply Himp.
Qed.

End SortFacts.

(** ** The per-store fetch *)

Module LoopFacts.
Import JS Types OzonService.

Section Fetch.
Variable transport : Transport.
Variable dateWindow : Z -> string * string.
Variable credentials : OzonCredentials.
Variable days : Z.

Let loop := whileLoop transport dateWindow credentials days.
Let page := fetchPage transport credentials.
Let body_at := requestBody dateWindow days.

Lemma budget_next (o : Z) :
  (o + limit >? 10000) = false -> budget o = S (budget (o + limit)).
Proof.
  unfold budget, limit. intros Hc.
  rewrite Z.gtb_ltb in Hc. apply Z.ltb_ge in Hc.
  replace ((10000 - (o + 100)) / 100) with ((10000 - o) / 100 - 1)
    by (replace (10000 - (o + 100)) with ((10000 - o) + (-1) * 100) by lia;
        rewrite Z.div_add by lia; lia).
  assert (1 <= (10000 - o) / 100)
    by (apply Z.div_le_lower_bound; lia).
  lia.
Qed.

Ltac step_cases st E Hc :=
  unfold loop; cbn [whileLoop]; fold loop;
  destruct (hasNext st);
  [ unfold iteration; fold page; fold body_at;
    destruct (page (body_at (offset st))) as [data|err] eqn:E;
    [ cbn [OzonService.offset OzonService.allPostings OzonService.hasNext];
      destruct (offset st + limit >? 10000) eqn:Hc | ]
  | ].

Lemma whileLoop_enough (fuel : nat) :
  forall st, (budget (offset st) <= fuel)%nat ->
             exists r, loop fuel st = Some r.
Proof.
  induction fuel as [|fuel IH]; intros st Hb.
  - unfold budget in Hb. lia.
  - step_cases st E Hc; try (eexists; reflexivity).
    destruct (IH {| allPostings :=
                      allPostings st
                      ++ match postings data with
                         | Some ps => ps
                         | None => []
                         end;
                    offset := offset st + limit;
                    hasNext := has_next data |}) as [[exit sent] Hr].
    + cbn. rewrite (budget_next _ Hc) in Hb. lia.
    + fold loop in Hr. rewrite Hr. eexists; reflexivity.
Qed.

Lemma whileLoop_mono (fuel : nat) :
  forall st r fuel', loop fuel st = Some r -> (fuel <= fuel')%nat ->
                     loop fuel' st = Some r.
Proof.
  induction fuel as [|fuel IH]; intros st r fuel' Hr Hle.
  - destruct fuel'; [assumption|].
    revert Hr. unfold loop; simpl.
    destruct (hasNext st); [discriminate|trivial].
  - destruct fuel' as [|fuel']; [lia|].
    revert Hr. step_cases st E Hc; trivial.
    destruct (loop fuel _) as [[exit sent]|] eqn:Hrec; [|discriminate].
    intros Hr. rewrite (IH _ _ fuel' Hrec) by lia. exact Hr.
Qed.

Lemma whileLoop_sent_bound (fuel : nat) :
  forall st exit sent,
    loop fuel st = Some (exit, sent) ->
    (List.length sent <= budget (offset st))%nat.
Proof.
  induction fuel as [|fuel IH]; intros st exit sent.
  - unfold loop; simpl. destruct (hasNext st); [discriminate|].
    intros [= <- <-]. simpl. lia.
  - step_cases st E Hc; intros Hr.
    + injection Hr as <- <-. unfold budget. simpl. lia.
    + destruct (loop fuel _) as [[exit' sent']|] eqn:Hrec; [|discriminate].
      injection Hr as <- <-. apply IH in Hrec. cbn in Hrec.
      simpl. rewrite (budget_next _ Hc). lia.
    + injection Hr as <- <-. unfold budget. simpl. lia.
    + injection Hr as <- <-. simpl. lia.
Qed.

(** The loop is left normally only when the transport reports no
    further page or the offset has passed the safety limit. *)
Lemma whileLoop_completed (fuel : nat) :
  forall st st' sent,
    loop fuel st = Some (Completed st', sent) ->
    hasNext st' = false \/ 10000 < offset st'.
Proof.
  induction fuel as [|fuel IH]; intros st st' sent.
  - unfold loop; simpl. destruct (hasNext st) eqn:Hn; [discriminate|].
    intros [= <- <-]. now left.
  - unfold loop; simpl; fold loop.
    destruct (hasNext st) eqn:Hn; [|intros [= <- <-]; now left].
    unfold iteration. destruct (fetchPage _ _ _) as [data|err].
    + cbn [OzonService.offset].
      destruct (offset st + limit >? 10000) eqn:Hc.
      * intros [= <- <-]. right. cbn. now apply Z.gtb_lt in Hc.
      * destruct (loop fuel _) as [[exit' sent']|] eqn:Hrec;
          [|discriminate].
        intros [= -> <-]. eapply IH, Hrec.
    + discriminate.
Qed.

(** Everything the pages returned is accumulated, in order. *)
Lemma whileLoop_accumulates (fuel : nat) :
  forall st st' sent,
    loop fuel st = Some (Completed st', sent) ->
    allPostings st'
    = (allPostings st
       ++ flat_map (pagePostings transport credentials) sent)%list.
Proof.
  induction fuel as [|fuel IH]; intros st st' sent.
  - unfold loop; simpl. destruct (hasNext st); [discriminate|].
    intros [= <- <-]. simpl. now rewrite app_nil_r.
  - step_cases st E Hc; intros Hr.
    + injection Hr as <- <-. cbn. unfold pagePostings.
      fold page. fold body_at. rewrite E. now rewrite app_nil_r.
    + destruct (loop fuel _) as [[exit' sent']|] eqn:Hrec; [|discriminate].
      injection Hr as -> <-. apply IH in Hrec. rewrite Hrec. cbn.
      unfold pagePostings at 2. fold page. fold body_at. rewrite E.
      now rewrite <- app_assoc.
    + discriminate.
    + injection Hr as <- <-. simpl. now rewrite app_nil_r.
Qed.

(** The loop is left through the [catch] block only by a failing page
    fetch. *)
Lemma whileLoop_threw (fuel : nat) :
  forall st e sent,
    loop fuel st = Some (Threw e, sent) ->
    exists body, In body sent /\ page body = RejectedWith e.
Proof.
  induction fuel as [|fuel IH]; intros st e sent.
  - unfold loop; simpl. destruct (hasNext st); discriminate.
  - step_cases st E Hc; intros Hr; try discriminate.
    + destruct (loop fuel _) as [[exit' sent']|] eqn:Hrec; [|discriminate].
      injection Hr as -> <-. apply IH in Hrec as (body & Hin & Hb).
      exists body. split; [now right|assumption].
    + injection Hr as <- <-. eexists. split; [now left|exact E].
Qed.

(** A failing page fetch ends the run in the [catch] block. *)
Lemma whileLoop_failure_stops (fuel : nat) :
  forall st exit sent body e,
    loop fuel st = Some (exit, sent) ->
    In body sent -> page body = RejectedWith e ->
    exit = Threw e.
Proof.
  induction fuel as [|fuel IH]; intros st exit sent body e.
  - unfold loop; simpl. destruct (hasNext st); [discriminate|].
    intros [= <- <-] [].
  - step_cases st E Hc; intros Hr Hin Hb.
    + injection Hr as <- <-. destruct Hin as [<-|[]]. congruence.
    + destruct (loop fuel _) as [[exit' sent']|] eqn:Hrec; [|discriminate].
      injection Hr as <- <-. destruct Hin as [<-|Hin]; [congruence|].
      eapply IH; eassumption.
    + injection Hr as <- <-. destruct Hin as [<-|[]]. congruence.
    + injection Hr as <- <-. destruct Hin.
Qed.

(** Every request but the last was answered by a page that announced a
    further one. *)
Lemma whileLoop_front (fuel : nat) :
  forall st exit sent front last,
    loop fuel st = Some (exit, sent) ->
    sent = (front ++ [last])%list ->
    Forall (fun body => exists data,
                page body = Fulfilled data /\ has_next data = true)
           front.
Proof.
  induction fuel as [|fuel IH]; intros st exit sent front last.
  - unfold loop; simpl. destruct (hasNext st); [discriminate|].
    intros [= <- <-] Hs. now destruct front.
  - step_cases st E Hc; intros Hr Hs.
    + injection Hr as <- <-.
      destruct front as [|b [|b' front]]; [constructor|discriminate..].
    + destruct (loop fuel _) as [[exit' sent']|] eqn:Hrec; [|discriminate].
      injection Hr as <- <-.
      destruct front as [|b front]; [constructor|].
      injection Hs as <- Hs.
      constructor; [|eapply IH; eassumption].
      exists data. split; [exact E|].
      destruct (has_next data) eqn:Hn; [reflexivity|].
      exfalso. destruct fuel; unfold loop in Hrec; cbn in Hrec;
        injection Hrec as _ <-; now destruct front.
    + injection Hr as <- <-.
      destruct front as [|b [|b' front]]; [constructor|discriminate..].
    + injection Hr as <- <-. now destruct front.
Qed.

(** The requests go out at offsets that grow by the page size. *)
Lemma whileLoop_offsets (fuel : nat) :
  forall st exit sent,
    loop fuel st = Some (exit, sent) ->
    sent = map (fun i => body_at (offset st + limit * Z.of_nat i))
               (seq 0 (List.length sent)).
Proof.
  induction fuel as [|fuel IH]; intros st exit sent.
  - unfold loop; simpl. destruct (hasNext st); [discriminate|].
    now intros [= <- <-].
  - step_cases st E Hc; intros Hr.
    + injection Hr as <- <-. simpl. now rewrite Z.add_0_r.
    + destruct (loop fuel _) as [[exit' sent']|] eqn:Hrec; [|discriminate].
      injection Hr as <- <-. apply IH in Hrec.
      cbn [OzonService.offset] in Hrec.
      cbn [List.length seq map Z.of_nat]. rewrite Z.mul_0_r, Z.add_0_r. f_equal.
      rewrite <- seq_shift, map_map. rewrite Hrec at 1.
      apply map_ext. intros i. f_equal. unfold limit. lia.
    + injection Hr as <- <-. simpl. now rewrite Z.add_0_r.
    + now injection Hr as <- <-.
Qed.

End Fetch.

End LoopFacts.

(** ** The aggregated fetch *)

Module ServiceFacts.
Import JS Types OzonService SortFacts LoopFacts.

Section Fetch.
Variable transport : Transport.
Variable dateWindow : Z -> string * string.
Variable Date_getTime : string -> option Z.

Let store := fetchOrdersForStore transport dateWindow.
Let aggregate := fetchAggregatedOrders transport dateWindow Date_getTime.
Let fails := PageFetchFails transport dateWindow.

(** The run of one store: how the loop is left, and what the store
    returns and emits in each case. *)
Lemma store_run (cred : OzonCredentials) (days : Z) :
  exists exit sent,
    (forall fuel, (101 <= fuel)%nat ->
       whileLoop transport dateWindow cred days fuel initial
       = Some (exit, sent))
    /\ store cred days
       = match exit with
         | Completed st =>
             (map (tag cred)
                  (flat_map (pagePostings transport cred) sent),
              map (Request cred) sent)
         | Threw e =>
             ([], (map (Request cred) sent
                   ++ [ConsoleError (clientId cred) e;
                       Alert (clientId cred) (errorMessage e)])%list)
         end.
Proof.
  destruct (whileLoop_enough transport dateWindow cred days enoughFuel
                             initial) as [[exit sent] Hr].
  { vm_compute. lia. }
  exists exit, sent. split.
  - intros fuel Hf. eapply whileLoop_mono; [exact Hr|exact Hf].
  - unfold store, fetchOrdersForStore. rewrite Hr.
    destruct exit as [st|e]; [|reflexivity].
    apply whileLoop_accumulates in Hr. now rewrite Hr.
Qed.

Lemma In_request_map (cred : OzonCredentials) (body : OzonPostingRequest)
      (sent : list OzonPostingRequest) (tail : list Event) :
  (forall b, ~ In (Request cred b) tail) ->
  In (Request cred body) (map (Request cred) sent ++ tail) <-> In body sent.
Proof.
  intros Ht. rewrite in_app_iff, in_map_iff. split.
  - intros [(b & [= ->] & Hb)|H]; [assumption|now apply Ht in H].
  - intros H. left. now exists body.
Qed.

Lemma fails_iff (cred : OzonCredentials) (days : Z) :
  fails cred days <->
  exists e sent,
    whileLoop transport dateWindow cred days enoughFuel initial
    = Some (Threw e, sent).
Proof.
  destruct (store_run cred days) as (exit & sent & Hfuel & Hstore).
  specialize (Hfuel enoughFuel (le_n _)).
  unfold fails, PageFetchFails. fold store. rewrite Hstore. split.
  - intros (body & e & Hin & Hb). exists e, sent.
    assert (In body sent) as Hs.
    { destruct exit; cbn [snd] in Hin.
      - rewrite <- (app_nil_r (map _ sent)) in Hin.
        apply In_request_map in Hin; [assumption|]. now intros b [].
      - apply In_request_map in Hin; [assumption|].
        intros b [H1|[H1|[]]]; discriminate. }
    now rewrite (whileLoop_failure_stops _ _ _ _ _ _ _ _ _ _ Hfuel Hs Hb)
      in Hfuel.
  - intros (e & sent' & Hr). rewrite Hfuel in Hr.
    injection Hr as -> <-.
    destruct (whileLoop_threw _ _ _ _ _ _ _ _ Hfuel) as (body & Hin & Hb).
    exists body, e. split; [|assumption].
    cbn [snd]. apply in_or_app. left. now apply in_map.
Qed.

(** A store with a failing page fetch returns nothing and raises one
    alert, which names it. *)
Lemma failed_store (cred : OzonCredentials) (days : Z) :
  fails cred days ->
  exists e sent,
    store cred days
    = ([], (map (Request cred) sent
            ++ [ConsoleError (clientId cred) e;
                Alert (clientId cred) (errorMessage e)])%list).
Proof.
  intros Hf. apply fails_iff in Hf as (e & sent & Hr).
  exists e, sent. unfold store, fetchOrdersForStore. now rewrite Hr.
Qed.

(** A store without a failing page fetch returns every posting of
    every page, tagged, and emits nothing but its requests. *)
Lemma successful_store (cred : OzonCredentials) (days : Z) :
  ~ fails cred days ->
  exists sent,
    store cred days
    = (map (tag cred) (flat_map (pagePostings transport cred) sent),
       map (Request cred) sent).
Proof.
  intros Hn.
  destruct (store_run cred days) as (exit & sent & Hfuel & Hstore).
  destruct exit as [st|e].
  - now exists sent.
  - exfalso. apply Hn. apply fails_iff. exists e, sent.
    now apply Hfuel.
Qed.

Lemma store_tagged (cred : OzonCredentials) (days : Z) (o : OzonPosting) :
  In o (fst (store cred days)) ->
  exists body p,
    In (Request cred body) (snd (store cred days))
    /\ In p (pagePostings transport cred body)
    /\ o = tag cred p.
Proof.
  destruct (store_run cred days) as (exit & sent & _ & ->).
  destruct exit as [st|e]; cbn [fst snd]; [|intros []].
  rewrite in_map_iff. intros (p & <- & Hp).
  apply in_flat_map in Hp as (body & Hb & Hp).
  exists body, p. repeat split; [|assumption]. now apply in_map.
Qed.

Lemma aggregate_value (creds : list OzonCredentials) (days : option Z) :
  fst (aggregate creds days)
  = Array_sort (byDateDesc Date_getTime)
               (flat_map (fun c => fst (store c (defaultDays days)))
                         creds).
Proof.
  unfold aggregate, fetchAggregatedOrders.
  destruct creds as [|c creds]; [reflexivity|].
  cbn [fst]. f_equal. rewrite map_map. now rewrite flat_map_concat_map.
Qed.

Lemma aggregate_events (creds : list OzonCredentials) (days : option Z) :
  snd (aggregate creds days)
  = map (fun c => snd (store c (defaultDays days))) creds.
Proof.
  unfold aggregate, fetchAggregatedOrders.
  destruct creds as [|c creds]; [reflexivity|].
  cbn [snd]. now rewrite map_map.
Qed.

(** The merged list holds exactly the orders of the per-store
    results. *)
Lemma aggregate_perm (creds : list OzonCredentials) (days : option Z) :
  Permutation (fst (aggregate creds days))
              (flat_map (fun c => fst (store c (defaultDays days))) creds).
Proof. rewrite aggregate_value. apply Array_sort_perm. Qed.

Lemma aggregate_includes (creds : list OzonCredentials) (days : option Z)
      (c : OzonCredentials) (o : OzonPosting) :
  In c creds -> In o (fst (store c (defaultDays days))) ->
  In o (fst (aggregate creds days)).
Proof.
  intros Hc Ho. rewrite aggregate_value. apply Array_sort_In.
  apply in_flat_map. now exists c.
Qed.

Lemma store_alerts (storeId : string) (cred : OzonCredentials) (days : Z) :
  List.length (filter (isAlertFor storeId) (snd (store cred days)))
  = match whileLoop transport dateWindow cred days enoughFuel initial with
    | Some (Threw _, _) =>
        if String.eqb (clientId cred) storeId then 1%nat else 0%nat
    | _ => 0%nat
    end.
Proof.
  unfold store, fetchOrdersForStore.
  destruct (whileLoop _ _ _ _ _ _) as [[[st|e] sent]|]; cbn [snd];
    [ | rewrite filter_app, length_app | reflexivity ].
  - induction sent; [reflexivity|assumption].
  - replace (List.length (filter _ (map (Request cred) sent))) with 0%nat
      by (induction sent; [reflexivity|assumption]).
    cbn. now destruct (String.eqb (clientId cred) storeId).
Qed.

Lemma alertsNaming_cons (storeId : string) (evs : list Event)
      (rest : list (list Event)) :
  alertsNaming storeId (evs :: rest)
  = (List.length (filter (isAlertFor storeId) evs)
     + alertsNaming storeId rest)%nat.
Proof.
  unfold alertsNaming. cbn [List.concat].
  now rewrite filter_app, length_app.
Qed.

Lemma no_alert_for_absent_store (storeId : string)
      (creds : list OzonCredentials) (days : Z) :
  ~ In storeId (map clientId creds) ->
  alertsNaming storeId (map (fun c => snd (store c days)) creds) = 0%nat.
Proof.
  induction creds as [|c creds IH]; intros Hn; [reflexivity|].
  cbn [map]. rewrite alertsNaming_cons, store_alerts, IH.
  - destruct (String.eqb_spec (clientId c) storeId) as [He|_].
    + exfalso. apply Hn. now left.
    + destruct (whileLoop transport dateWindow c days enoughFuel initial)
        as [[[|] ?]|]; reflexivity.
  - intros H. apply Hn. now right.
Qed.

Lemma one_alert_for_failed_store (creds : list OzonCredentials) (days : Z)
      (A : OzonCredentials) :
  NoDup (map clientId creds) -> In A creds -> fails A days ->
  alertsNaming (clientId A) (map (fun c => snd (store c days)) creds)
  = 1%nat.
Proof.
  intros Hnd HA Hf. apply fails_iff in Hf as (e & sent & Hr).
  induction creds as [|c creds IH]; [destruct HA|].
  cbn [map] in *. inversion Hnd as [|? ? Hnotin Hnd']; subst.
  rewrite alertsNaming_cons, store_alerts.
  destruct HA as [->|HA].
  - rewrite Hr, String.eqb_refl.
    now rewrite no_alert_for_absent_store.
  - rewrite (IH Hnd' HA).
    destruct (String.eqb_spec (clientId c) (clientId A)) as [He|_].
    + exfalso. apply Hnotin. rewrite He. now apply in_map.
    + destruct (whileLoop transport dateWindow c days enoughFuel initial)
        as [[[|] ?]|]; reflexivity.
Qed.

End Fetch.

End ServiceFacts.

(** ** Statements on the service *)

Module ServiceClaims.
Import JS Types OzonService SortFacts LoopFacts ServiceFacts Samples.

Lemma requestsOf_run (cred : OzonCredentials)
      (sent : list OzonPostingRequest) (tail : list Event) :
  requestsOf tail = [] ->
  requestsOf (map (Request cred) sent ++ tail) = sent.
Proof.
  intros Ht. unfold requestsOf in *. rewrite flat_map_app, Ht, app_nil_r.
  induction sent as [|b sent IH]; [reflexivity|]. simpl. now rewrite IH.
Qed.

Section Fetch.
Variable transport : Transport.
Variable dateWindow : Z -> string * string.
Variable Date_getTime : string -> option Z.

Let store := fetchOrdersForStore transport dateWindow.
Let aggregate := fetchAggregatedOrders transport dateWindow Date_getTime.
Let fails := PageFetchFails transport dateWindow.

(** C2, as amended.  The promise of [fetchAggregatedOrders] fulfils
    with the merged orders only; a failing store is reported by an
    alert raised during its own fetch.  When store A has a failing page
    fetch and store B has none, in a credential list without duplicate
    store ids, the returned list contains every order of every page of
    B, tagged, and exactly one alert names A. *)
Theorem failing_store_raises_one_alert
        (creds : list OzonCredentials) (days : option Z)
        (A B : OzonCredentials) :
  NoDup (map clientId creds) ->
  In A creds -> In B creds ->
  fails A (defaultDays days) -> ~ fails B (defaultDays days) ->
  (forall body p,
      In (Request B body) (snd (store B (defaultDays days))) ->
      In p (pagePostings transport B body) ->
      In (tag B p) (fst (aggregate creds days)))
  /\ alertsNaming (clientId A) (snd (aggregate creds days)) = 1%nat
  /\ alertsNaming (clientId B) (snd (aggregate creds days)) = 0%nat.
Proof.
  intros Hnd HA HB HfA HnB. repeat split.
  - intros body p Hreq Hp.
    apply (aggregate_includes _ _ _ creds days B); [assumption|].
    destruct (successful_store _ _ _ _ HnB) as (sent & Hs).
    unfold store in *. rewrite Hs in *. cbn [fst snd] in *.
    apply in_map. apply in_flat_map. exists body. split; [|assumption].
    apply in_map_iff in Hreq as (b & [= ->] & Hb). assumption.
  - unfold aggregate. rewrite aggregate_events.
    now apply one_alert_for_failed_store.
  - unfold aggregate. rewrite aggregate_events.
    clear HA HfA A.
    induction creds as [|c cs IH]; [reflexivity|].
    cbn [map] in *. inversion Hnd as [|? ? Hnotin Hnd']; subst.
    rewrite alertsNaming_cons, store_alerts.
    destruct HB as [->|HB].
    + rewrite no_alert_for_absent_store by assumption.
      destruct (whileLoop transport dateWindow B (defaultDays days)
                          enoughFuel initial)
        as [[[st|e] sent]|] eqn:Hr; try reflexivity.
      exfalso. apply HnB. apply fails_iff. now exists e, sent.
    + rewrite (IH Hnd' HB).
      destruct (String.eqb_spec (clientId c) (clientId B)) as [He|_].
      * exfalso. apply Hnotin. rewrite He. now apply in_map.
      * destruct (whileLoop transport dateWindow c (defaultDays days)
                            enoughFuel initial)
          as [[[|] ?]|]; reflexivity.
Qed.

(** C4.  Every returned order is a posting of a page of some store of
    the credential list, tagged with the [clientId] of that store; and
    when every delivered posting carries a timestamp (its [in_process_at]
    parses to a time), the returned list is in non-increasing order of
    [in_process_at]: each order is at least as recent as the next. *)
Theorem aggregate_sorted_and_tagged
        (creds : list OzonCredentials) (days : option Z) :
  (ValidDates transport Date_getTime ->
   Sorted (createdAt_ge Date_getTime) (fst (aggregate creds days)))
  /\ forall o,
      In o (fst (aggregate creds days)) ->
      exists cred body p,
        In cred creds
        /\ In o (fst (store cred (defaultDays days)))
        /\ In (Request cred body) (snd (store cred (defaultDays days)))
        /\ In p (pagePostings transport cred body)
        /\ o = tag cred p
        /\ posting_clientId o = Some (clientId cred).
Proof.
  assert (Hfrom : forall o,
             In o (flat_map (fun c => fst (store c (defaultDays days)))
                            creds) ->
             exists cred body p,
               In cred creds
               /\ In o (fst (store cred (defaultDays days)))
               /\ In (Request cred body)
                     (snd (store cred (defaultDays days)))
               /\ In p (pagePostings transport cred body)
               /\ o = tag cred p).
  { intros o Ho. apply in_flat_map in Ho as (cred & Hc & Ho).
    destruct (store_tagged _ _ _ _ _ Ho) as (body & p & Hreq & Hp & ->).
    exists cred, body, p. auto. }
  split.
  - intros Hvalid.
    set (key := fun o : OzonPosting =>
                  match Date_getTime (in_process_at o) with
                  | Some t => t
                  | None => 0
                  end).
    set (dated := fun o : OzonPosting =>
                    Date_getTime (in_process_at o) <> None).
    assert (Hdated : forall o,
               In o (flat_map (fun c => fst (store c (defaultDays days)))
                              creds) -> dated o).
    { intros o Ho.
      destruct (Hfrom o Ho) as (cred & body & p & _ & _ & _ & Hp & ->).
      unfold dated. cbn. now apply (Hvalid cred body). }
    unfold aggregate. rewrite aggregate_value. fold store.
    rewrite (Array_sort_ext _ (desc key)).
    + apply (Sorted_on dated (geKey key)).
      * intros a b Ha Hb. unfold dated, geKey, key, createdAt_ge in *.
        destruct (Date_getTime (in_process_at a)); [|congruence].
        destruct (Date_getTime (in_process_at b)); [|congruence].
        trivial.
      * apply Forall_forall. intros o Ho. apply Hdated.
        exact (proj1 (Array_sort_In (desc key) _ _) Ho).
      * apply Array_sort_sorted.
    + intros a b Ha Hb. apply Hdated in Ha, Hb.
      unfold dated, byDateDesc, desc, key in *.
      destruct (Date_getTime (in_process_at a)); [|congruence].
      destruct (Date_getTime (in_process_at b)); [|congruence].
      reflexivity.
  - intros o Ho. unfold aggregate in Ho. rewrite aggregate_value in Ho.
    apply Array_sort_In in Ho.
    destruct (Hfrom o Ho) as (cred & body & p & H1 & H2 & H3 & H4 & ->).
    exists cred, body, p. repeat split; assumption.
Qed.

(** C5.  When a page fetch of store A fails, A's fetch returns
    nothing, whatever its earlier pages delivered, and the aggregated
    result is made of the orders of the stores without a failing page
    fetch: it contains every posting of every page of each such store,
    tagged, and nothing else. *)
Theorem failing_store_is_isolated
        (creds : list OzonCredentials) (days : option Z)
        (A : OzonCredentials) :
  In A creds -> fails A (defaultDays days) ->
  fst (store A (defaultDays days)) = []
  /\ (forall B body p,
         In B creds -> ~ fails B (defaultDays days) ->
         In (Request B body) (snd (store B (defaultDays days))) ->
         In p (pagePostings transport B body) ->
         In (tag B p) (fst (aggregate creds days)))
  /\ (forall o,
         In o (fst (aggregate creds days)) ->
         exists B, In B creds /\ ~ fails B (defaultDays days)
                   /\ In o (fst (store B (defaultDays days))))
  /\ Permutation
       (fst (aggregate creds days))
       (flat_map (fun c => fst (store c (defaultDays days))) creds).
Proof.
  intros HA Hf. repeat split.
  - destruct (failed_store _ _ _ _ Hf) as (e & sent & Hs).
    fold store in Hs. now rewrite Hs.
  - intros B body p HB HnB Hreq Hp.
    apply (aggregate_includes _ _ _ creds days B); [assumption|].
    destruct (successful_store _ _ _ _ HnB) as (sent & Hs).
    unfold store in *. rewrite Hs in *. cbn [fst snd] in *.
    apply in_map. apply in_flat_map. exists body. split; [|assumption].
    now apply in_map_iff in Hreq as (b & [= ->] & Hb).
  - intros o Ho. unfold aggregate in Ho. rewrite aggregate_value in Ho.
    apply Array_sort_In in Ho. apply in_flat_map in Ho as (B & HB & Ho).
    exists B. repeat split; try assumption.
    intros HfB. destruct (failed_store _ _ _ _ HfB) as (e & sent & Hs).
    fold store in Ho. unfold store in Ho. rewrite Hs in Ho. destruct Ho.
  - apply aggregate_perm.
Qed.

(** C6.  The pagination loop of every store ends, whatever the
    transport answers: 101 iterations always reach its end, and no amount
    of fuel gives another outcome.  At most 101 requests are sent, at
    offsets 0, 100, 200 and so on, each but the last answered by a page
    that announced a further one.  The loop is left normally when the
    transport reports no further page or the offset has passed 10000, and
    the store then returns every accumulated posting and raises no alert;
    it is left through the [catch] block only after a failing page
    fetch. *)
Theorem pagination_terminates (cred : OzonCredentials) (days : Z) :
  exists exit sent,
    (forall fuel, (101 <= fuel)%nat ->
       whileLoop transport dateWindow cred days fuel initial
       = Some (exit, sent))
    /\ (forall fuel r,
          whileLoop transport dateWindow cred days fuel initial = Some r ->
          r = (exit, sent))
    /\ (List.length sent <= 101)%nat
    /\ sent = map (fun i => requestBody dateWindow days
                                        (100 * Z.of_nat i))
                  (seq 0 (List.length sent))
    /\ (forall front last,
          sent = (front ++ [last])%list ->
          Forall (fun body => exists data,
                      fetchPage transport cred body = Fulfilled data
                      /\ has_next data = true)
                 front)
    /\ requestsOf (snd (store cred days)) = sent
    /\ match exit with
       | Completed st =>
           (hasNext st = false \/ 10000 < offset st)
           /\ store cred days
              = (map (tag cred) (allPostings st),
                 map (Request cred) sent)
       | Threw e =>
           exists body,
             In body sent
             /\ fetchPage transport cred body = RejectedWith e
       end.
Proof.
  destruct (store_run transport dateWindow cred days)
    as (exit & sent & Hfuel & Hstore).
  pose proof (Hfuel enoughFuel (le_n _)) as Hr.
  exists exit, sent. repeat apply conj.
  - exact Hfuel.
  - intros fuel r Hfuel'.
    pose proof (whileLoop_mono _ _ _ _ _ _ _ (fuel + 101)%nat Hfuel'
                               ltac:(lia)) as H1.
    rewrite (Hfuel (fuel + 101)%nat ltac:(lia)) in H1. congruence.
  - apply whileLoop_sent_bound in Hr. exact Hr.
  - apply whileLoop_offsets in Hr. exact Hr.
  - intros front last. eapply whileLoop_front. exact Hr.
  - fold store in Hstore. rewrite Hstore.
    destruct exit; cbn [snd].
    + rewrite <- (app_nil_r (map _ sent)). now apply requestsOf_run.
    + now apply requestsOf_run.
  - destruct exit as [st|e].
    + split; [eapply whileLoop_completed; exact Hr|].
      unfold store, fetchOrdersForStore. now rewrite Hr.
    + eapply whileLoop_threw; exact Hr.
Qed.

(** C10.  [fetchOrders] is [fetchAggregatedOrders] on the list of its
    one credential, with the same optional window. *)
Theorem fetchOrders_is_aggregate_of_one
        (cred : OzonCredentials) (days : option Z) :
  fetchOrders transport dateWindow Date_getTime cred days
  = aggregate [cred] days.
Proof.
  unfold fetchOrders, aggregate. now destruct days.
Qed.

End Fetch.

(** *** Instances on the sample transports *)

Lemma sample_ids_distinct : NoDup (map clientId [storeA; storeB]).
Proof.
  repeat constructor; simpl; intuition discriminate.
Defined.

Lemma sample_B_never_fails (t : Transport) :
  (exists st sent,
      whileLoop t sampleWindow storeB 15 enoughFuel initial
      = Some (Completed st, sent)) ->
  ~ PageFetchFails t sampleWindow storeB 15.
Proof.
  intros (st & sent & Hr) Hf. apply fails_iff in Hf as (e & sent' & Hr').
  rewrite Hr in Hr'. discriminate.
Defined.

Lemma failing_store_raises_one_alert_witness :
  In (tag storeB (posting "b-1" (jan "02") []))
     (fst (fetchAggregatedOrders transportAFails sampleWindow sampleGetTime
                                 [storeA; storeB] None))
  /\ alertsNaming "A"
       (snd (fetchAggregatedOrders transportAFails sampleWindow
                                   sampleGetTime [storeA; storeB] None))
     = 1%nat.
Proof.
  destruct (failing_store_raises_one_alert
              transportAFails sampleWindow sampleGetTime
              [storeA; storeB] None storeA storeB)
    as (Hin & Hone & _).
  - exact sample_ids_distinct.
  - simpl; auto.
  - simpl; auto.
  - exists (requestBody sampleWindow 15 0), (ErrorObject "Failed to fetch").
    split; [vm_compute; left; reflexivity | reflexivity].
  - apply sample_B_never_fails. eexists; eexists. vm_compute. reflexivity.
  - split; [|exact Hone].
    apply (Hin (requestBody sampleWindow 15 0)).
    + vm_compute. left. reflexivity.
    + vm_compute. left. reflexivity.
Defined.

(** C2, as stated, fails: the value returned to the caller does not
    carry the failures.  With store A unreachable and with store A
    answering an empty page the same list is returned, while A failed in
    the first run only; no reading of the returned value yields the
    failed stores. *)
Lemma returned_value_carries_no_warning :
  ~ exists warningsOf : list OzonPosting -> list string,
      forall transport : Transport,
        warningsOf
          (fst (fetchAggregatedOrders transport sampleWindow sampleGetTime
                                      [storeA; storeB] None))
        = failedStores transport sampleWindow [storeA; storeB] 15.
Proof.
  intros (warningsOf & H).
  pose proof (H transportAFails) as H1.
  pose proof (H transportAEmpty) as H2.
  vm_compute in H1, H2. rewrite H1 in H2. discriminate.
Qed.

Lemma sample_dates_valid : ValidDates transportXY sampleGetTime.
Proof.
  intros cred body p. unfold pagePostings, fetchPage, transportXY.
  destruct (String.eqb (clientId cred) "X");
    [|destruct (String.eqb (clientId cred) "Y")];
    cbn; intuition (subst; vm_compute; discriminate).
Defined.

Lemma aggregate_sorted_and_tagged_witness :
  Sorted (createdAt_ge sampleGetTime)
         (fst (fetchAggregatedOrders transportXY sampleWindow sampleGetTime
                                     [storeX; storeY] None)).
Proof.
  exact (proj1 (aggregate_sorted_and_tagged
                  transportXY sampleWindow sampleGetTime
                  [storeX; storeY] None) sample_dates_valid).
Defined.

(** C4, as stated for every credential list, fails: one order whose
    [in_process_at] does not parse compares as equal to every other
    order, so the page stays as it was delivered.  The order of January
    1st is returned before the order of January 2nd, and no adjacent
    pair with the undated order satisfies the comparison of the
    claim. *)
Lemma undated_order_leaves_result_unsorted :
  map posting_number
      (fst (fetchAggregatedOrders transportUndated sampleWindow
                                  sampleGetTime [storeA] None))
  = ["u-1"; "u-2"; "u-3"]%string
  /\ map (fun o => sampleGetTime (in_process_at o))
         (fst (fetchAggregatedOrders transportUndated sampleWindow
                                     sampleGetTime [storeA] None))
     = [Some 1704067200000; None; Some 1704153600000]
  /\ ~ Sorted (createdAt_ge sampleGetTime)
             (fst (fetchAggregatedOrders transportUndated sampleWindow
                                         sampleGetTime [storeA] None))
  /\ ~ ValidDates transportUndated sampleGetTime.
Proof.
  repeat apply conj.
  - vm_compute. reflexivity.
  - vm_compute. reflexivity.
  - intros Hsorted.
    assert (Hrun : exists a b rest,
               fst (fetchAggregatedOrders transportUndated sampleWindow
                                          sampleGetTime [storeA] None)
               = a :: b :: rest
               /\ sampleGetTime (in_process_at b) = None)
      by (vm_compute; do 3 eexists; split; reflexivity).
    destruct Hrun as (a & b & rest & Hrun & Hb). rewrite Hrun in Hsorted.
    inversion Hsorted as [|? ? _ Hhd]; subst.
    inversion Hhd as [|? ? Hge]; subst.
    unfold createdAt_ge in Hge. rewrite Hb in Hge.
    destruct (sampleGetTime (in_process_at a)); exact Hge.
  - intros Hvalid.
    apply (Hvalid storeA
                  (requestBody sampleWindow 15 0)
                  (posting "u-2" "soon" [])); [|reflexivity].
    vm_compute. right. now left.
Qed.

(** The scenario of two stores with three and two orders: five orders,
    newest first, the tie of January 2nd in the order of the credential
    list, each with the id of its store. *)
Example two_store_scenario :
  map (fun o => (posting_number o, posting_clientId o))
      (fst (fetchAggregatedOrders transportXY sampleWindow sampleGetTime
                                  [storeX; storeY] None))
  = [("y-1", Some "Y"); ("x-1", Some "X"); ("x-2", Some "X");
     ("y-2", Some "Y"); ("x-3", Some "X")].
Proof. vm_compute. reflexivity. Qed.

Lemma failing_store_is_isolated_witness :
  fst (fetchOrdersForStore transportAFailsLate sampleWindow storeA 15) = []
  /\ In (tag storeB (posting "b-1" (jan "02") []))
        (fst (fetchAggregatedOrders transportAFailsLate sampleWindow
                                    sampleGetTime [storeA; storeB] None)).
Proof.
  destruct (failing_store_is_isolated
              transportAFailsLate sampleWindow sampleGetTime
              [storeA; storeB] None storeA)
    as (Hempty & Hin & _).
  - simpl; auto.
  - exists (requestBody sampleWindow 15 100),
           (ErrorObject "API Error 500: internal").
    split; [vm_compute; right; left; reflexivity | reflexivity].
  - split; [exact Hempty|].
    apply (Hin storeB (requestBody sampleWindow 15 0)).
    + simpl; auto.
    + apply sample_B_never_fails. eexists; eexists. vm_compute. reflexivity.
    + vm_compute. left. reflexivity.
    + vm_compute. left. reflexivity.
Defined.

(** The first page of store A in that run did deliver an order. *)
Example discarded_first_page :
  pagePostings transportAFailsLate storeA (requestBody sampleWindow 15 0)
  = [posting "a-1" (jan "03") []].
Proof. reflexivity. Qed.

(** A store that always reports a further page: 101 requests, the last
    one at offset 10000, then normal completion without any alert. *)
Example safety_limit_reached :
  requestsOf (snd (fetchOrdersForStore transportEndless sampleWindow
                                       storeA 15))
  = map (fun i => requestBody sampleWindow 15 (100 * Z.of_nat i))
        (seq 0 101)
  /\ fetchOrdersForStore transportEndless sampleWindow storeA 15
     = ([], map (Request storeA)
                (map (fun i => requestBody sampleWindow 15 (100 * Z.of_nat i))
                     (seq 0 101))).
Proof. vm_compute. split; reflexivity. Qed.

End ServiceClaims.

(** ** Statements on the revenue statistics *)

Module StatsClaims.
Import JS Types Dashboard Samples.

Lemma float_neq_by_eqb (x y : float) :
  PrimFloat.eqb x y = false -> PrimFloat.is_nan x = false -> x <> y.
Proof.
  intros Hne Hnan Heq. subst y. unfold PrimFloat.is_nan in Hnan.
  rewrite Hne in Hnan. discriminate.
Qed.

Lemma getOwn_setOwn {V : Type} (k : string) (v : V) (o : Obj V) :
  getOwn (setOwn k v o) k = Some v.
Proof.
  induction o as [|[k' v'] o IH]; simpl.
  - now rewrite String.eqb_refl.
  - destruct (String.eqb k k') eqn:E; simpl.
    + now rewrite String.eqb_refl.
    + now rewrite E.
Qed.

Section Stats.
Variable parseFloat : string -> float.

(** C1, as amended.  The revenue of an order is the sum of the
    [price] entries of its financial data when it has financial data
    and that sum is neither zero nor [NaN]; otherwise it is the sum of
    the parsed unit prices of its line items.  The quantities of the
    line items do not enter it. *)
Theorem orderTotal_formula (order : OzonPosting) :
  orderTotal parseFloat order
  = match financial_data order with
    | Some fd =>
        let paid :=
          fold_left (fun sum p => (sum + fin_price p)%float)
                    (fin_products fd) 0%float in
        if PrimFloat.is_zero paid || PrimFloat.is_nan paid
        then fold_left (fun sum p => (sum + parseFloat (price p))%float)
                       (products order) 0%float
        else paid
    | None =>
        fold_left (fun sum p => (sum + parseFloat (price p))%float)
                  (products order) 0%float
    end
  /\ forall q, orderTotal parseFloat (withQuantities q order)
               = orderTotal parseFloat order.
Proof.
  split.
  - unfold orderTotal, financialTotal, productsTotal, opt_or_else,
      or_else, truthy.
    destruct (financial_data order) as [fd|]; [|reflexivity].
    cbv zeta. now destruct (_ || _).
  - intros q. unfold orderTotal, financialTotal, productsTotal.
    cbn [withQuantities financial_data products].
    f_equal. generalize 0%float.
    induction (products order) as [|p ps IH]; intros acc; [reflexivity|].
    cbn. apply IH.
Qed.

(** C9.  An order whose financial data sums to zero, an empty product
    list included, gets the sum of the unit prices of its line items
    as its revenue, as an order without financial data does. *)
Theorem zero_financial_total_falls_back
        (order : OzonPosting) (fd : FinancialData) :
  financial_data order = Some fd ->
  PrimFloat.is_zero
    (fold_left (fun sum p => (sum + fin_price p)%float)
               (fin_products fd) 0%float) = true ->
  orderTotal parseFloat order
  = fold_left (fun sum p => (sum + parseFloat (price p))%float)
              (products order) 0%float.
Proof.
  intros Hfd Hzero.
  unfold orderTotal, financialTotal, opt_or_else, or_else, truthy.
  rewrite Hfd, Hzero. reflexivity.
Qed.

Lemma empty_financial_list_falls_back (order : OzonPosting) :
  financial_data order = Some {| fin_products := [] |} ->
  orderTotal parseFloat order = productsTotal parseFloat order.
Proof.
  intros Hfd. now apply (zero_financial_total_falls_back _ _ Hfd).
Qed.

Lemma stats_revenue_app (before after : list OzonPosting) :
  revenueByCurrency (stats parseFloat (before ++ after))
  = fold_left (addRevenue parseFloat) after
              (revenueByCurrency (stats parseFloat before)).
Proof. unfold stats. cbn. apply fold_left_app. Qed.

(** C3, as amended.  An order without line items is counted in
    [totalOrders] and is booked under the default currency RUB: the
    RUB entry is created if need be, its count grows by one and its
    amount by the order's revenue, which is the financial sum when
    that is truthy and 0 otherwise. *)
Theorem order_without_items_is_booked_as_RUB
        (before after : list OzonPosting) (order : OzonPosting) :
  products order = [] ->
  let booked := revenueByCurrency (stats parseFloat before) in
  let entry := match getOwn booked "RUB" with
               | Some r => r
               | None => {| amount := 0; count := 0 |}
               end in
  totalOrders (stats parseFloat (before ++ order :: after))
  = S (totalOrders (stats parseFloat (before ++ after)))
  /\ orderTotal parseFloat order
     = opt_or_else (financialTotal order) 0%float
  /\ revenueByCurrency (stats parseFloat (before ++ [order]))
     = setOwn "RUB"
              {| amount := (amount entry + orderTotal parseFloat order)%float;
                 count := count entry + 1 |}
              booked
  /\ getOwn (revenueByCurrency (stats parseFloat (before ++ [order])))
            "RUB"
     = Some {| amount := (amount entry + orderTotal parseFloat order)%float;
               count := count entry + 1 |}
  /\ revenueByCurrency (stats parseFloat (before ++ order :: after))
     = fold_left (addRevenue parseFloat) after
                 (revenueByCurrency (stats parseFloat (before ++ [order]))).
Proof.
  intros Hempty booked entry.
  assert (Hstep : revenueByCurrency (stats parseFloat (before ++ [order]))
                  = setOwn "RUB"
                      {| amount := (amount entry
                                    + orderTotal parseFloat order)%float;
                         count := count entry + 1 |}
                      booked).
  { rewrite stats_revenue_app. cbn [fold_left]. fold booked.
    unfold addRevenue, orderCurrency. rewrite Hempty.
    unfold entry. destruct (getOwn booked "RUB"); reflexivity. }
  repeat split.
  - cbn. rewrite !length_app. cbn. lia.
  - unfold orderTotal, productsTotal. now rewrite Hempty.
  - exact Hstep.
  - rewrite Hstep. apply getOwn_setOwn.
  - replace (before ++ order :: after)%list
      with ((before ++ [order]) ++ after)%list
      by (now rewrite <- app_assoc).
    apply stats_revenue_app.
Qed.

End Stats.

(** C1, as stated, fails: an order whose financial data lists no
    product has financial data that sums to 0, and its revenue is the
    unit price of its line item. *)
Lemma empty_financials_use_unit_prices :
  claimedRevenue parseDigits emptyFinancials = 0%float
  /\ orderTotal parseDigits emptyFinancials = 10%float
  /\ orderTotal parseDigits emptyFinancials
     <> claimedRevenue parseDigits emptyFinancials.
Proof.
  repeat split. apply float_neq_by_eqb; reflexivity.
Qed.

(** The financial sum is taken over [price], not over [payout]. *)
Example financial_sum_reads_price :
  orderTotal parseDigits
    {| posting_number := "f-2"; order_id := 2; status := "delivered";
       in_process_at := jan "01"; products := [item "sku-1" "10" None];
       financial_data :=
         Some {| fin_products :=
                   [{| fin_commission_amount := 1; fin_payout := 5;
                       fin_product_id := 1; fin_old_price := 9;
                       fin_price := 7 |}] |};
       posting_clientId := None |}
  = 7%float.
Proof. reflexivity. Qed.

Lemma zero_financial_total_falls_back_witness :
  orderTotal parseDigits emptyFinancials = 10%float.
Proof.
  rewrite (zero_financial_total_falls_back
             parseDigits emptyFinancials {| fin_products := [] |}).
  - reflexivity.
  - reflexivity.
  - reflexivity.
Defined.

(** C3, as stated, fails: one order without line items makes a RUB
    entry with an order count of 1. *)
Lemma order_without_items_adds_to_a_bucket :
  products noItems = []
  /\ revenueByCurrency (stats parseDigits [])= []
  /\ revenueByCurrency (stats parseDigits [noItems])
     = [("RUB", {| amount := 0; count := 1 |})]
  /\ revenueByCurrency (stats parseDigits [noItems])
     <> revenueByCurrency (stats parseDigits []).
Proof.
  repeat split. discriminate.
Qed.

Lemma order_without_items_is_booked_as_RUB_witness :
  totalOrders (stats parseDigits [noItems]) = 1%nat
  /\ getOwn (revenueByCurrency (stats parseDigits [noItems])) "RUB"
     = Some {| amount := 0; count := 1 |}.
Proof.
  destruct (order_without_items_is_booked_as_RUB
              parseDigits [] [] noItems eq_refl)
    as (Htotal & _ & _ & Hentry & _).
  split; [exact Htotal | exact Hentry].
Defined.

End StatsClaims.

(** ** The [groups] table *)

Module GroupFacts.
Import JS Types Dashboard SortFacts.

(** *** Own properties *)

Lemma getOwn_Some_In {V : Type} (o : Obj V) (k : string) (v : V) :
  getOwn o k = Some v -> In (k, v) o.
Proof.
  induction o as [|[k' v'] o IH]; simpl; [discriminate|].
  destruct (String.eqb_spec k k') as [->|Hne].
  - intros [= ->]. now left.
  - intros H. right. now apply IH.
Qed.

Lemma getOwn_None_notin {V : Type} (o : Obj V) (k : string) :
  getOwn o k = None -> ~ In k (map fst o).
Proof.
  induction o as [|[k' v'] o IH]; simpl; [tauto|].
  destruct (String.eqb_spec k k') as [->|Hne]; [discriminate|].
  intros H [Heq|Hin]; [congruence|]. now apply IH.
Qed.

Lemma setOwn_absent {V : Type} (k : string) (v : V) (o : Obj V) :
  getOwn o k = None -> setOwn k v o = (o ++ [(k, v)])%list.
Proof.
  induction o as [|[k' v'] o IH]; simpl; [reflexivity|].
  destruct (String.eqb k k'); [discriminate|].
  intros H. now rewrite IH.
Qed.

Lemma setOwn_present_keys {V : Type} (k : string) (v v0 : V) (o : Obj V) :
  getOwn o k = Some v0 -> map fst (setOwn k v o) = map fst o.
Proof.
  induction o as [|[k' v'] o IH]; simpl; [discriminate|].
  destruct (String.eqb_spec k k') as [->|Hne]; [reflexivity|].
  intros H. simpl. now rewrite IH.
Qed.

Lemma Forall_setOwn {V : Type} (P Q : string * V -> Prop)
      (k : string) (v v0 : V) (o : Obj V) :
  NoDup (map fst o) -> getOwn o k = Some v0 ->
  Q (k, v) ->
  (forall kv, In kv o -> fst kv <> k -> P kv -> Q kv) ->
  Forall P o -> Forall Q (setOwn k v o).
Proof.
  intros Hnd Hget Hnew Hother.
  induction o as [|[k' v'] o IH]; simpl in *; [discriminate|].
  intros Hall. inversion Hall as [|? ? Hhd Htl]; subst.
  inversion Hnd as [|? ? Hnotin Hnd']; subst.
  destruct (String.eqb_spec k k') as [->|Hne].
  - constructor; [assumption|].
    apply Forall_forall. intros kv Hin.
    apply Hother; [now right| |].
    + intros Heq. apply Hnotin. rewrite <- Heq. now apply in_map.
    + rewrite Forall_forall in Htl. now apply Htl.
  - constructor.
    + apply Hother; [now left| |assumption]. simpl. congruence.
    + apply IH; try assumption.
      intros kv Hin. apply Hother. now right.
Qed.

Lemma partition_perm {A : Type} (f : A -> bool) (l : list A) :
  Permutation (filter f l ++ filter (fun x => negb (f x)) l) l.
Proof.
  induction l as [|x l IH]; simpl; [constructor|].
  destruct (f x); simpl.
  - now constructor.
  - apply Permutation_sym, Permutation_cons_app, Permutation_sym, IH.
Qed.

Lemma ownEntries_perm {V : Type} (o : Obj V) : Permutation (ownEntries o) o.
Proof.
  unfold ownEntries.
  eapply perm_trans; [|apply (partition_perm isIndexKey)].
  apply Permutation_app_tail, Array_sort_perm.
Qed.

Lemma map_fst_filter {V : Type} (f : string -> bool) (o : Obj V) :
  map fst (filter (fun p => f (fst p)) o) = filter f (map fst o).
Proof.
  induction o as [|[k v] o IH]; simpl; [reflexivity|].
  destruct (f k); simpl; now rewrite IH.
Qed.

(** The keys come out in enumeration order. *)
Lemma Object_keys_order {V : Type} (o : Obj V) :
  Object_keys o = enumerationOrder (map fst o).
Proof.
  unfold Object_keys, ownEntries, enumerationOrder.
  rewrite map_app. f_equal.
  - rewrite <- (map_fst_filter isIndex), Array_sort_map. reflexivity.
  - apply (map_fst_filter (fun k => negb (isIndex k))).
Qed.

(** *** Keys in order of first occurrence *)

Lemma firstEncountered_In (ks : list string) (k : string) :
  In k (firstEncountered ks) <-> In k ks.
Proof.
  unfold firstEncountered.
  now rewrite <- in_rev, nodup_In, <- in_rev.
Qed.

Lemma firstEncountered_NoDup (ks : list string) :
  NoDup (firstEncountered ks).
Proof. apply NoDup_rev, NoDup_nodup. Qed.

Lemma firstEncountered_seen (ks : list string) (k : string) :
  In k ks -> firstEncountered (ks ++ [k]) = firstEncountered ks.
Proof.
  intros Hin. unfold firstEncountered. rewrite rev_app_distr. simpl.
  destruct (in_dec string_dec k (rev ks)) as [_|Hn]; [reflexivity|].
  exfalso. apply Hn. now apply in_rev in Hin.
Qed.

Lemma firstEncountered_new (ks : list string) (k : string) :
  ~ In k ks ->
  firstEncountered (ks ++ [k]) = (firstEncountered ks ++ [k])%list.
Proof.
  intros Hn. unfold firstEncountered. rewrite rev_app_distr. simpl.
  destruct (in_dec string_dec k (rev ks)) as [Hin|_]; [|reflexivity].
  exfalso. apply Hn. now apply in_rev.
Qed.

Lemma keysOf_snoc (l : list OzonPosting) (o : OzonPosting) :
  keysOf (l ++ [o])
  = (keysOf l ++ match singleKey o with
                 | Some k => [k]
                 | None => []
                 end)%list.
Proof.
  unfold keysOf. rewrite flat_map_app. simpl. now rewrite app_nil_r.
Qed.

Lemma hasKey_In_keysOf (l : list OzonPosting) (o : OzonPosting) (k : string) :
  In o l -> hasKey k o = true -> In k (keysOf l).
Proof.
  intros Hin Hk. unfold keysOf. apply in_flat_map. exists o.
  split; [assumption|]. unfold hasKey in Hk.
  destruct (singleKey o) as [k'|]; [|discriminate].
  apply String.eqb_eq in Hk. subst. now left.
Qed.

Lemma filter_hasKey_absent (l : list OzonPosting) (k : string) :
  ~ In k (keysOf l) -> filter (hasKey k) l = [].
Proof.
  intros Hn. induction l as [|o l IH]; [reflexivity|]. simpl.
  destruct (hasKey k o) eqn:Hk.
  - exfalso. apply Hn. apply (hasKey_In_keysOf _ o); [now left|assumption].
  - apply IH. intros Hin. apply Hn. unfold keysOf in *. simpl.
    apply in_or_app. now right.
Qed.

(** *** One step of the [forEach] *)

Lemma GroupOf_unrelated (l : list OzonPosting) (o : OzonPosting)
      (kg : string * Group) :
  hasKey (fst kg) o = false -> GroupOf l kg -> GroupOf (l ++ [o]) kg.
Proof.
  intros Hk (H1 & H2 & H3 & H4). repeat split; try assumption.
  rewrite filter_app. simpl. rewrite Hk. now rewrite app_nil_r.
Qed.

Lemma TableOf_skip (l : list OzonPosting) (o : OzonPosting)
      (groups : Obj Group) :
  singleKey o = None -> TableOf l groups -> TableOf (l ++ [o]) groups.
Proof.
  intros Hs [Hkeys Hall]. split.
  - rewrite keysOf_snoc, Hs, app_nil_r. exact Hkeys.
  - eapply Forall_impl; [|exact Hall].
    intros kg. apply GroupOf_unrelated. unfold hasKey. now rewrite Hs.
Qed.

Lemma addToGroups_step (l : list OzonPosting) (groups : Obj Group)
      (o : OzonPosting) :
  TableOf l groups ->
  (forall k, singleKey o = Some k -> inherited k = false) ->
  exists groups',
    addToGroups groups o = Normal groups' /\ TableOf (l ++ [o]) groups'.
Proof.
  intros Htable Hsafe. unfold addToGroups.
  destruct (products o) as [|p [|p' ps]] eqn:Hp.
  - exists groups. split; [reflexivity|].
    apply TableOf_skip; [|assumption]. unfold singleKey. now rewrite Hp.
  - assert (Hkey : singleKey o = Some (offer_id p))
      by (unfold singleKey; now rewrite Hp).
    assert (Hmine : hasKey (offer_id p) o = true)
      by (unfold hasKey; rewrite Hkey; apply String.eqb_refl).
    assert (Hothers : forall kg : string * Group,
               fst kg <> offer_id p -> hasKey (fst kg) o = false).
    { intros kg Hne. unfold hasKey. rewrite Hkey.
      apply String.eqb_neq. congruence. }
    destruct Htable as [Hkeys Hall]. cbv zeta.
    destruct (getOwn groups (offer_id p)) as [g|] eqn:Hget.
    + eexists. split; [reflexivity|].
      assert (Hin : In (offer_id p, g) groups)
        by now apply getOwn_Some_In.
      assert (Hseen : In (offer_id p) (keysOf l)).
      { apply firstEncountered_In. rewrite <- Hkeys.
        now apply (in_map fst) in Hin. }
      split.
      * rewrite (setOwn_present_keys _ _ g) by assumption.
        rewrite keysOf_snoc, Hkey, firstEncountered_seen; assumption.
      * apply (Forall_setOwn (GroupOf l) _ _ _ g); try assumption.
        -- rewrite Hkeys. apply firstEncountered_NoDup.
        -- rewrite Forall_forall in Hall.
           destruct (Hall _ Hin) as (H1 & H2 & (o0 & rest & H3 & H3') & H4).
           cbn [fst snd] in *.
           repeat split; cbn [fst snd product orders currency];
             try assumption.
           ++ rewrite filter_app. simpl. rewrite Hmine. now rewrite H2.
           ++ exists o0, (rest ++ [o])%list. rewrite H3. now split.
        -- intros kg _ Hne. apply GroupOf_unrelated. now apply Hothers.
    + rewrite (Hsafe _ Hkey). eexists. split; [reflexivity|].
      assert (Hnew : ~ In (offer_id p) (keysOf l)).
      { rewrite <- firstEncountered_In, <- Hkeys.
        now apply getOwn_None_notin. }
      rewrite setOwn_absent by assumption. split.
      * rewrite map_app, Hkeys, keysOf_snoc, Hkey.
        now rewrite firstEncountered_new.
      * apply Forall_app. split.
        -- rewrite Forall_forall in *. intros kg Hin.
           apply GroupOf_unrelated; [|now apply Hall].
           apply Hothers. intros Heq.
           apply (getOwn_None_notin _ _ Hget). rewrite <- Heq.
           now apply in_map.
        -- constructor; [|constructor].
           repeat split; cbn [fst snd product orders currency].
           ++ rewrite filter_app, (filter_hasKey_absent _ _ Hnew).
              simpl. now rewrite Hmine.
           ++ exists o, []. now split.
  - exists groups. split; [reflexivity|].
    apply TableOf_skip; [|assumption]. unfold singleKey. now rewrite Hp.
Qed.

Lemma forEach_addToGroups (l2 : list OzonPosting) :
  forall (l1 : list OzonPosting) (groups : Obj Group),
    TableOf l1 groups ->
    (forall o k, In o l2 -> singleKey o = Some k -> inherited k = false) ->
    exists groups',
      forEach addToGroups l2 groups = Normal groups'
      /\ TableOf (l1 ++ l2) groups'.
Proof.
  induction l2 as [|o l2 IH]; intros l1 groups Htable Hsafe.
  - exists groups. rewrite app_nil_r. now split.
  - destruct (addToGroups_step l1 groups o Htable) as (g1 & Hstep & Ht1).
    { intros k. apply Hsafe. now left. }
    destruct (IH (l1 ++ [o])%list g1 Ht1) as (g2 & Hrest & Ht2).
    { intros o' k Hin. apply Hsafe. now right. }
    exists g2. split.
    + simpl. rewrite Hstep. exact Hrest.
    + now rewrite <- app_assoc in Ht2.
Qed.

Lemma groups_table (orders : list OzonPosting) :
  (forall o k, In o orders -> singleKey o = Some k -> inherited k = false) ->
  exists groups,
    forEach addToGroups orders [] = Normal groups /\ TableOf orders groups.
Proof.
  intros Hsafe.
  apply (forEach_addToGroups orders [] []); [|assumption].
  split; [reflexivity|constructor].
Qed.

(** On entries of the table, the key of a group is its key in the
    table and its size is the number of orders with that key. *)
Lemma map_groupKey_entries (l : list OzonPosting)
      (entries : list (string * Group)) (n : nat) :
  Forall (GroupOf l) entries ->
  map groupKey
      (filter (fun g => Nat.eqb (List.length (Dashboard.orders g)) n)
              (map snd entries))
  = filter (fun k => Nat.eqb (orderCount l k) n) (map fst entries).
Proof.
  induction 1 as [|[k g] entries (H1 & H2 & _) _ IH]; [reflexivity|].
  cbn [map fst snd filter] in *. unfold orderCount at 1.
  rewrite <- H2.
  destruct (Nat.eqb (List.length (Dashboard.orders g)) n); cbn [map].
  - now rewrite IH, H1.
  - exact IH.
Qed.

End GroupFacts.

(** ** Statements on the smart groups and their export *)

Module GroupClaims.
Import JS Types Dashboard SortFacts GroupFacts Samples.

Lemma map_groupKey_all (l : list OzonPosting)
      (entries : list (string * Group)) :
  Forall (GroupOf l) entries ->
  map groupKey (map snd entries) = map fst entries.
Proof.
  induction 1 as [|[k g] entries (H1 & _) _ IH]; [reflexivity|].
  cbn [map fst snd] in *. now rewrite IH, H1.
Qed.

Lemma filter_none {A : Type} (f : A -> bool) (l : list A) :
  (forall x, In x l -> f x = false) -> filter f l = [].
Proof.
  induction l as [|x l IH]; intros H; [reflexivity|]. simpl.
  rewrite (H x (or_introl eq_refl)). apply IH.
  intros y Hy. apply H. now right.
Qed.

Lemma filter_all {A : Type} (f : A -> bool) (l : list A) :
  (forall x, In x l -> f x = true) -> filter f l = l.
Proof.
  induction l as [|x l IH]; intros H; [reflexivity|]. simpl.
  rewrite (H x (or_introl eq_refl)). f_equal. apply IH.
  intros y Hy. apply H. now right.
Qed.

Lemma enumerationOrder_no_index (ks : list string) :
  (forall k, In k ks -> arrayIndex k = None) -> enumerationOrder ks = ks.
Proof.
  intros Hno. unfold enumerationOrder.
  assert (Hidx : forall k, In k ks -> isIndex k = false)
    by (intros k Hk; unfold isIndex; now rewrite (Hno k Hk)).
  rewrite (filter_none isIndex) by assumption.
  rewrite filter_all; [reflexivity|].
  intros k Hk. now rewrite (Hidx k Hk).
Qed.

Lemma size_test (g : Group) (n : nat) :
  Nat.eqb (List.length (orders g)) n
  = (Z.of_nat (List.length (orders g)) =? Z.of_nat n).
Proof.
  destruct (Nat.eqb_spec (List.length (orders g)) n) as [->|Hne];
    symmetry; [apply Z.eqb_refl|apply Z.eqb_neq; lia].
Qed.

(** C7, as amended.  As long as no offer id names a member of
    [Object.prototype], [smartGroups] returns one group per offer id of
    the single-item orders: the group holds exactly the orders with one
    line item and that offer id, in their order, and shows the line item
    of the first of them.  The groups come in non-increasing number of
    orders; groups of equal size keep the order in which the table
    enumerates its keys (offer ids that are array indices first, in
    ascending numeric order, then the other offer ids as first
    encountered), which is the order of first encounter when no offer
    id is an array index. *)
Theorem smartGroups_groups_by_offer (orders : list OzonPosting) :
  (forall o k, In o orders -> singleKey o = Some k -> inherited k = false) ->
  exists groups,
    smartGroups orders = Normal groups
    /\ (forall g, In g groups ->
          Dashboard.orders g = filter (hasKey (groupKey g)) orders
          /\ exists o rest,
              Dashboard.orders g = o :: rest
              /\ products o = [product g])
    /\ (forall o, In o orders -> List.length (products o) = 1%nat ->
          exists g, In g groups /\ In o (Dashboard.orders g))
    /\ NoDup (map groupKey groups)
    /\ Sorted (fun a b => (List.length (Dashboard.orders b)
                           <= List.length (Dashboard.orders a))%nat)
              groups
    /\ TiesFollow (enumerationOrder (firstEncountered (keysOf orders)))
                  orders groups
    /\ ((forall k, In k (keysOf orders) -> arrayIndex k = None) ->
        TiesFollow (firstEncountered (keysOf orders)) orders groups).
Proof.
  intros Hsafe.
  destruct (groups_table orders Hsafe) as (tbl & Hrun & Hkeys & Hall).
  set (size := fun g : Group => Z.of_nat (List.length (Dashboard.orders g))).
  exists (Array_sort (desc size) (Object_values tbl)).
  assert (Hent : Forall (GroupOf orders) (ownEntries tbl)).
  { eapply Permutation_Forall; [|exact Hall].
    apply Permutation_sym, ownEntries_perm. }
  assert (Hmem : forall g,
             In g (Array_sort (desc size) (Object_values tbl)) <->
             exists k, In (k, g) tbl).
  { intros g. rewrite Array_sort_In. unfold Object_values.
    rewrite in_map_iff. split.
    - intros ([k g'] & <- & Hin). exists k.
      eapply Permutation_in; [apply ownEntries_perm|exact Hin].
    - intros (k & Hin). exists (k, g). split; [reflexivity|].
      eapply Permutation_in; [apply Permutation_sym, ownEntries_perm|].
      exact Hin. }
  assert (Hties : TiesFollow
                    (enumerationOrder (firstEncountered (keysOf orders)))
                    orders
                    (Array_sort (desc size) (Object_values tbl))).
  { intros n.
    rewrite (filter_ext _ _ (fun g => size_test g n)).
    rewrite (Array_sort_stable size).
    rewrite <- (filter_ext _ _ (fun g => size_test g n)).
    unfold Object_values. rewrite (map_groupKey_entries orders) by assumption.
    fold (Object_keys tbl). now rewrite Object_keys_order, Hkeys. }
  rewrite Forall_forall in Hall.
  split; [unfold smartGroups; now rewrite Hrun|].
  repeat apply conj.
  - intros g Hg. apply Hmem in Hg as (k & Hin).
    destruct (Hall _ Hin) as (H1 & H2 & H3 & _). cbn [fst snd] in *.
    rewrite H1. now split.
  - intros o Hin Hone.
    destruct (products o) as [|p [|p' ps]] eqn:Hp; try discriminate.
    assert (Hk : hasKey (offer_id p) o = true)
      by (unfold hasKey, singleKey; rewrite Hp; apply String.eqb_refl).
    assert (Hseen : In (offer_id p) (map fst tbl)).
    { rewrite Hkeys. apply firstEncountered_In.
      now apply (hasKey_In_keysOf _ o). }
    apply in_map_iff in Hseen as ([k g] & Hfst & Hentry).
    cbn [fst] in Hfst. subst k. exists g. split.
    + apply Hmem. now exists (offer_id p).
    + destruct (Hall _ Hentry) as (_ & H2 & _). cbn [fst snd] in H2.
      rewrite H2. apply filter_In. now split.
  - eapply Permutation_NoDup.
    + apply Permutation_map, Permutation_sym, Array_sort_perm.
    + unfold Object_values. rewrite (map_groupKey_all orders) by assumption.
      eapply Permutation_NoDup.
      * apply Permutation_map, Permutation_sym, ownEntries_perm.
      * rewrite Hkeys. apply firstEncountered_NoDup.
  - apply (Sorted_on (fun _ => True) (geKey size)).
    + intros a b _ _. unfold geKey, size. lia.
    + apply Forall_forall. trivial.
    + apply Array_sort_sorted.
  - exact Hties.
  - intros Hno. rewrite <- (enumerationOrder_no_index
                             (firstEncountered (keysOf orders))).
    + exact Hties.
    + intros k Hk. apply Hno. now apply firstEncountered_In.
Qed.

Lemma pickList_offers_safe :
  forall o k, In o pickList -> singleKey o = Some k -> inherited k = false.
Proof.
  intros o k Hin. simpl in Hin.
  repeat (destruct Hin as [<-|Hin]; [intros [= <-] || discriminate;
                                     reflexivity|]).
  destruct Hin.
Defined.

Lemma smartGroups_groups_by_offer_witness :
  exists groups,
    smartGroups pickList = Normal groups
    /\ NoDup (map groupKey groups)
    /\ TiesFollow (firstEncountered (keysOf pickList)) pickList groups.
Proof.
  destruct (smartGroups_groups_by_offer pickList pickList_offers_safe)
    as (groups & Hrun & _ & _ & Hnd & _ & _ & Hties).
  exists groups. repeat split; [exact Hrun|exact Hnd|].
  apply Hties. intros k Hk. simpl in Hk.
  repeat (destruct Hk as [<-|Hk]; [reflexivity|]). destruct Hk.
Defined.

(** Groups of sizes 1, 5 and 3 come out as 5, 3, 1; the two-item order
    is in none of them. *)
Example pickList_groups :
  match smartGroups pickList with
  | Normal groups =>
      map (fun g => (groupKey g, map posting_number (orders g))) groups
  | TypeError => []
  end
  = [("b", ["p-2"; "p-5"; "p-7"; "p-8"; "p-10"]);
     ("c", ["p-3"; "p-6"; "p-9"]);
     ("a", ["p-1"])].
Proof. vm_compute. reflexivity. Qed.

(** An offer id that names a member of [Object.prototype] stops the
    computation. *)
Example inherited_offer_id_throws :
  smartGroups [single "t-1" "toString"] = TypeError.
Proof. reflexivity. Qed.

(** C7, as stated, fails: with the offer ids 2 and 1, first encountered
    in this order and with one order each, the group of offer 1 comes
    first. *)
Lemma numeric_offer_ids_are_enumerated_first :
  exists groups,
    smartGroups numericOffers = Normal groups
    /\ map groupKey groups = ["1"; "2"]
    /\ map (fun g => List.length (orders g)) groups = [1%nat; 1%nat]
    /\ firstEncountered (keysOf numericOffers) = ["2"; "1"]
    /\ ~ TiesFollow (firstEncountered (keysOf numericOffers))
                    numericOffers groups.
Proof.
  eexists. split; [vm_compute; reflexivity|].
  repeat split.
  intros Hties. specialize (Hties 1%nat). vm_compute in Hties.
  discriminate.
Qed.

End GroupClaims.

(** ** Statements on the export *)

Module ExportClaims.
Import JS Types Dashboard Samples.

Lemma append_assoc (a b c : string) : ((a ++ b) ++ c = a ++ (b ++ c))%string.
Proof. induction a as [|ch a IH]; simpl; [reflexivity|now rewrite IH]. Qed.

Lemma append_nil_r (a : string) : (a ++ "")%string = a.
Proof. induction a as [|ch a IH]; simpl; [reflexivity|now rewrite IH]. Qed.

Lemma totalQty_sum (os : list OzonPosting) :
  forall acc : Z,
    (forall o, In o os -> products o <> []) ->
    forEach (fun sum o =>
               match products o with
               | p :: _ => Normal (sum + quantityOrOne p)
               | [] => TypeError
               end) os acc
    = Normal (fold_left Z.add (map lineQuantity os) acc).
Proof.
  induction os as [|o os IH]; intros acc Hsafe; [reflexivity|].
  cbn [forEach map fold_left].
  destruct (products o) as [|p ps] eqn:Hp.
  - exfalso. apply (Hsafe o); [now left|assumption].
  - assert (Hq : lineQuantity o = quantityOrOne p)
      by (unfold lineQuantity; now rewrite Hp).
    rewrite Hq. cbn [bind]. apply IH. intros o' Ho'. apply Hsafe. now right.
Qed.

Lemma forEach_rows (packedOrderIds : list string) (l : list Group) :
  forall acc : string,
    (forall g o, In g l -> In o (orders g) -> products o <> []) ->
    forEach
      (fun csvContent group =>
         bind (totalQty group)
              (fun qty =>
                 Normal (csvContent ++ csvRow packedOrderIds group qty)))
      l acc
    = Normal
        (acc
         ++ fold_right
              String.append EmptyString
              (map (fun g =>
                      csvRow packedOrderIds g
                             (fold_left Z.add
                                        (map lineQuantity (orders g)) 0))
                   l)).
Proof.
  induction l as [|g l IH]; intros acc Hsafe.
  - simpl. now rewrite append_nil_r.
  - cbn [forEach map fold_right]. unfold totalQty at 1.
    rewrite totalQty_sum
      by (intros o Ho; apply (Hsafe g); [now left|assumption]).
    cbn [bind]. rewrite IH by (intros g' o Hg'; apply Hsafe; now right).
    now rewrite append_assoc.
Qed.

Lemma collapse_replace (s : string) :
  collapse_quotes (replace_quotes s) = s.
Proof.
  induction s as [|c s IH]; [reflexivity|].
  cbn [replace_quotes]. destruct (Ascii.eqb_spec c dquote) as [->|Hne].
  - cbn [collapse_quotes]. rewrite Ascii.eqb_refl. cbn [andb].
    now rewrite IH.
  - cbn [collapse_quotes]. rewrite <- IH at 2.
    destruct (replace_quotes s) as [|c' s'] eqn:Hs.
    + destruct s as [|c'' s'']; [reflexivity|].
      cbn [replace_quotes] in Hs.
      destruct (Ascii.eqb c'' dquote); discriminate.
    + replace (Ascii.eqb c dquote) with false
        by (symmetry; now apply Ascii.eqb_neq).
      reflexivity.
Qed.

(** C8, as amended.  For a non-empty list of groups whose member orders
    have a line item, the exported text is the byte-order mark, the
    header line and one row per group, in order.  A row holds the
    product name between quote characters with every quote character
    of the name doubled, so that collapsing doubled quotes gives the
    name back, and as total quantity the sum over the member orders of
    the quantity of their line item, 1 standing for a quantity that is
    absent or zero. *)
Theorem export_has_one_row_per_group
        (groups : list Group) (packedOrderIds : list string) :
  groups <> [] ->
  (forall g o, In g groups -> In o (orders g) -> products o <> []) ->
  handleExportSmartGroups groups packedOrderIds
  = Normal
      (Some
         (BOM ++ header
          ++ fold_right
               String.append EmptyString
               (map (fun g =>
                       csvRow packedOrderIds g
                              (fold_left Z.add
                                         (map lineQuantity (orders g)) 0))
                    groups)))
  /\ (forall g qty,
         csvRow packedOrderIds g qty
         = offer_id (product g) ++ ","
           ++ Number_toString (sku (product g)) ++ ","
           ++ String dquote
                (replace_quotes (name (product g))
                 ++ String dquote
                      ("," ++ price (product g) ++ ","
                       ++ currency g ++ ","
                       ++ Number_toString qty ++ ","
                       ++ Number_toString (unpackedCount packedOrderIds g)
                       ++ ","
                       ++ Number_toString (packedCount packedOrderIds g)
                       ++ String newline EmptyString)))
  /\ (forall g, collapse_quotes (replace_quotes (name (product g)))
                = name (product g))
  /\ (forall o p rest,
         products o = p :: rest ->
         lineQuantity o = match quantity p with
                          | Some 0 => 1
                          | Some q => q
                          | None => 1
                          end).
Proof.
  intros Hne Hsafe. repeat apply conj.
  - unfold handleExportSmartGroups.
    destruct groups as [|g0 gs]; [congruence|].
    rewrite forEach_rows by assumption. cbn [bind].
    now rewrite append_assoc.
  - intros g qty. reflexivity.
  - intros g. apply collapse_replace.
  - intros o p rest Hp. unfold lineQuantity. rewrite Hp.
    destruct (quantity p) as [[| |]|]; reflexivity.
Qed.

Lemma export_has_one_row_per_group_witness :
  handleExportSmartGroups [quotedGroup] ["q-1"]
  = Normal
      (Some
         (BOM ++ header
          ++ "q,42," ++ quote ++ quote ++ quote ++ "A" ++ quote ++ quote
          ++ " size" ++ quote ++ ",12.50,RUB,4,1,1"
          ++ String newline EmptyString)).
Proof.
  rewrite (proj1 (export_has_one_row_per_group [quotedGroup] ["q-1"]
                                               ltac:(discriminate)
                                               ltac:(simpl; intuition (subst; simpl in *; intuition (subst; discriminate))))).
  reflexivity.
Defined.

(** C8, as stated, fails: a line item with quantity 0 is exported with
    total quantity 1, not 0. *)
Lemma zero_quantity_is_exported_as_one :
  handleExportSmartGroups [zeroQuantityGroup] []
  = Normal (Some (BOM ++ header ++ csvRow [] zeroQuantityGroup 1))
  /\ claimedTotalQty zeroQuantityGroup = 0
  /\ handleExportSmartGroups [zeroQuantityGroup] []
     <> Normal
          (Some (BOM ++ header
                 ++ csvRow [] zeroQuantityGroup
                           (claimedTotalQty zeroQuantityGroup))).
Proof.
  repeat split. vm_compute. discriminate.
Qed.

(** Without groups the handler returns before building any text. *)
Example nothing_to_export (packedOrderIds : list string) :
  handleExportSmartGroups [] packedOrderIds = Normal None.
Proof. reflexivity. Qed.

End ExportClaims.

(* ================================================================= *)
(** * Further properties *)

(** ** The aggregated fetch *)

Module ServiceExtras.
Import JS Types OzonService SortFacts LoopFacts ServiceFacts Samples.

Lemma flat_map_ext_in {A B : Type} (f g : A -> list B) (l : list A) :
  (forall a, In a l -> f a = g a) -> flat_map f l = flat_map g l.
Proof.
  induction l as [|a l IH]; intros H; [reflexivity|]. simpl.
  rewrite (H a (or_introl eq_refl)). f_equal. apply IH.
  intros b Hb. apply H. now right.
Qed.

Lemma requestsOf_requests (cred : OzonCredentials)
      (sent : list OzonPostingRequest) :
  requestsOf (map (Request cred) sent) = sent.
Proof.
  unfold requestsOf. induction sent as [|b sent IH]; [reflexivity|].
  simpl. now rewrite IH.
Qed.

Lemma length_flat_map {A B : Type} (f : A -> list B) (l : list A) :
  List.length (flat_map f l)
  = list_sum (map (fun a => List.length (f a)) l).
Proof.
  induction l as [|a l IH]; [reflexivity|].
  simpl. now rewrite length_app, IH.
Qed.

Section Fetch.
Variable transport : Transport.
Variable dateWindow : Z -> string * string.
Variable Date_getTime : string -> option Z.

Let store := fetchOrdersForStore transport dateWindow.
Let aggregate := fetchAggregatedOrders transport dateWindow Date_getTime.
Let fails := PageFetchFails transport dateWindow.

(** X1.  Merging drops and repeats nothing: the returned list has as many
    orders as the per-store results together, whatever the stores do;
    and when no store has a failing page fetch it is a rearrangement of
    all postings of all requested pages, each tagged with its store. *)
Theorem aggregate_keeps_every_order
        (creds : list OzonCredentials) (days : option Z) :
  List.length (fst (aggregate creds days))
  = list_sum (map (fun c => List.length (fst (store c (defaultDays days))))
                  creds)
  /\ ((forall c, In c creds -> ~ fails c (defaultDays days)) ->
      Permutation
        (fst (aggregate creds days))
        (flat_map
           (fun c =>
              map (tag c)
                  (flat_map (pagePostings transport c)
                            (requestsOf (snd (store c (defaultDays days))))))
           creds)).
Proof.
  split.
  - rewrite <- length_flat_map. apply Permutation_length.
    apply aggregate_perm.
  - intros Hok. eapply perm_trans; [apply aggregate_perm|].
    fold store. erewrite flat_map_ext_in; [apply Permutation_refl|].
    intros c Hc. cbv beta.
    destruct (successful_store _ _ _ _ (Hok c Hc)) as (sent & Hs).
    fold store in Hs. rewrite Hs. cbn [fst snd].
    now rewrite requestsOf_requests.
Qed.

(** X2.  The merge is stable: orders with the same timestamp keep the
    order of the credential list and, within a store, the order of
    delivery. *)
Theorem aggregate_ties_keep_store_order
        (creds : list OzonCredentials) (days : option Z) (t : Z) :
  ValidDates transport Date_getTime ->
  let at_t := fun o : OzonPosting =>
                match Date_getTime (in_process_at o) with
                | Some t' => t' =? t
                | None => false
                end in
  filter at_t (fst (aggregate creds days))
  = filter at_t (flat_map (fun c => fst (store c (defaultDays days))) creds).
Proof.
  intros Hvalid at_t.
  set (key := fun o : OzonPosting =>
                match Date_getTime (in_process_at o) with
                | Some t' => t'
                | None => 0
                end).
  set (merged := flat_map (fun c => fst (store c (defaultDays days))) creds).
  assert (Hdated : forall o, In o merged ->
                             Date_getTime (in_process_at o) <> None).
  { intros o Ho. apply in_flat_map in Ho as (cred & Hc & Ho).
    destruct (store_tagged _ _ _ _ _ Ho) as (body & p & _ & Hp & ->).
    cbn. now apply (Hvalid cred body). }
  assert (Hkey : forall l, (forall o, In o l -> In o merged) ->
                           filter at_t l = filter (fun o => key o =? t) l).
  { intros l Hl. apply filter_ext_in. intros o Ho.
    specialize (Hdated o (Hl o Ho)). unfold at_t, key.
    now destruct (Date_getTime (in_process_at o)). }
  unfold aggregate. rewrite aggregate_value. fold store. fold merged.
  rewrite (Array_sort_ext _ (desc key)).
  - rewrite Hkey
      by (intros o Ho; exact (proj1 (Array_sort_In (desc key) _ _) Ho)).
    rewrite (Array_sort_stable key). symmetry. now apply Hkey.
  - intros a b Ha Hb. apply Hdated in Ha, Hb.
    unfold byDateDesc, desc, key.
    destruct (Date_getTime (in_process_at a)); [|congruence].
    destruct (Date_getTime (in_process_at b)); [|congruence].
    reflexivity.
Qed.

(** X3.  The alerts of an aggregation are those of its failing stores:
    a store id is named by as many alerts as there are credentials with
    that id whose fetch ends in the [catch] block. *)
Theorem alerts_count_failing_stores
        (creds : list OzonCredentials) (days : option Z) (storeId : string) :
  alertsNaming storeId (snd (aggregate creds days))
  = count_occ string_dec
              (failedStores transport dateWindow creds (defaultDays days))
              storeId.
Proof.
  unfold aggregate. rewrite aggregate_events.
  induction creds as [|c creds IH]; [reflexivity|].
  cbn [map]. rewrite alertsNaming_cons, store_alerts, IH.
  unfold failedStores. cbn [flat_map]. rewrite count_occ_app.
  f_equal.
  destruct (whileLoop transport dateWindow c (defaultDays days)
                      enoughFuel initial) as [[[st|e] sent]|];
    try reflexivity.
  cbn [count_occ].
  destruct (String.eqb_spec (clientId c) storeId) as [->|Hne];
    destruct (string_dec _ _); congruence.
Qed.

(** X4.  When a fetch fails, the message of its alert is the message of
    the error of the failing request: for a non-2xx answer with a
    readable body it is the invalid-credentials text for status 401 or
    403 and the API error text with the status otherwise, around the
    first non-empty of [message], [error.message] and the stringified
    body; for a thrown value that is no [Error] it is the fixed
    connection-failure text. *)
Theorem failing_store_alert_message (cred : OzonCredentials) (days : Z) :
  fails cred days ->
  exists body e,
    In (Request cred body) (snd (store cred days))
    /\ fetchPage transport cred body = RejectedWith e
    /\ In (ConsoleError (clientId cred) e) (snd (store cred days))
    /\ In (Alert (clientId cred) (errorMessage e)) (snd (store cred days))
    /\ (forall status errorBody text,
           transport cred body
           = Fulfilled (NotOk status (Fulfilled errorBody) text) ->
           let detail :=
             str_or_else (body_message errorBody)
                         (str_or_else (body_error_message errorBody)
                                      (body_stringified errorBody)) in
           errorMessage e
           = if (status =? 401) || (status =? 403)
             then ("Client ID 或 API Key 无效 (" ++ detail ++ ")")%string
             else ("API Error " ++ Number_toString status ++ ": "
                   ++ detail)%string)
    /\ (transport cred body = RejectedWith OtherValue ->
        errorMessage e = "连接失败"%string).
Proof.
  intros Hf. apply fails_iff in Hf as (e & sent & Hr).
  destruct (whileLoop_threw _ _ _ _ _ _ _ _ Hr) as (body & Hin & Hb).
  exists body, e.
  unfold store, fetchOrdersForStore. rewrite Hr. cbn [snd].
  repeat apply conj.
  - apply in_or_app. left. now apply in_map.
  - exact Hb.
  - apply in_or_app. right. now left.
  - apply in_or_app. right. right. now left.
  - intros status errorBody text Ht. cbv zeta. unfold fetchPage in Hb.
    rewrite Ht in Hb. cbn [errorDetail] in Hb.
    destruct ((status =? 401) || (status =? 403));
      injection Hb as <-; reflexivity.
  - intros Ht. unfold fetchPage in Hb. rewrite Ht in Hb.
    injection Hb as <-. reflexivity.
Qed.

End Fetch.

Lemma sample_XY_never_fail (c : OzonCredentials) :
  In c [storeX; storeY] -> ~ PageFetchFails transportXY sampleWindow c 15.
Proof.
  intros Hc Hf. apply fails_iff in Hf as (e & sent & Hr).
  destruct Hc as [<-|[<-|[]]]; vm_compute in Hr; discriminate.
Defined.

Lemma aggregate_keeps_every_order_witness :
  Permutation
    (map posting_number
         (fst (fetchAggregatedOrders transportXY sampleWindow
                                     sampleGetTime [storeX; storeY]
                                     None)))
    ["x-1"; "x-2"; "x-3"; "y-1"; "y-2"]%string.
Proof.
  apply (Permutation_map posting_number
           (proj2 (aggregate_keeps_every_order
                     transportXY sampleWindow sampleGetTime
                     [storeX; storeY] None) sample_XY_never_fail)).
Defined.

Lemma sample_XY_dates_valid : ValidDates transportXY sampleGetTime.
Proof.
  intros cred body p. unfold pagePostings, fetchPage, transportXY.
  destruct (String.eqb (clientId cred) "X");
    [|destruct (String.eqb (clientId cred) "Y")];
    cbn; intuition (subst; vm_compute; discriminate).
Defined.

Lemma aggregate_ties_keep_store_order_witness :
  map posting_number
      (filter (fun o => match sampleGetTime (in_process_at o) with
                        | Some t' => t' =? 1704153600000
                        | None => false
                        end)
              (fst (fetchAggregatedOrders transportXY sampleWindow
                                          sampleGetTime [storeX; storeY]
                                          None)))
  = ["x-2"; "y-2"]%string.
Proof.
  rewrite (aggregate_ties_keep_store_order
             transportXY sampleWindow sampleGetTime [storeX; storeY] None
             1704153600000 sample_XY_dates_valid).
  reflexivity.
Defined.

Lemma failing_store_alert_message_witness :
  In (Alert "A" "API Error 500: internal")
     (snd (fetchOrdersForStore transportAFailsLate sampleWindow storeA 15)).
Proof.
  destruct (failing_store_alert_message
              transportAFailsLate sampleWindow storeA 15)
    as (body & e & Hreq & Hpage & _ & Halert & _).
  - exists (requestBody sampleWindow 15 100),
           (ErrorObject "API Error 500: internal").
    split; [vm_compute; right; left; reflexivity | reflexivity].
  - vm_compute in Hreq.
    repeat (destruct Hreq as [Hq|Hreq];
            [ try discriminate Hq; injection Hq as <-; vm_compute in Hpage;
              first [ discriminate Hpage
                    | injection Hpage as <-; exact Halert ]
            | ]).
    destruct Hreq.
Defined.

End ServiceExtras.

(** ** Comparison of numbers *)

Module FloatFacts.

Lemma SFcompare_lt_le_trans (x y z : SpecFloat.spec_float) :
  SpecFloat.SFcompare x y = Some Lt ->
  SpecFloat.SFcompare y z = Some Lt \/ SpecFloat.SFcompare y z = Some Eq ->
  SpecFloat.SFcompare x z = Some Lt.
Proof.
  destruct x as [sx|sx| |sx mx ex], y as [sy|sy| |sy my ey],
           z as [sz|sz| |sz mz ez];
    cbn; try (intros; discriminate); try (intros _ [H|H]; discriminate H);
    try (destruct sx, sy, sz; intros H1 [H2|H2];
         (discriminate H1 || discriminate H2 || reflexivity)).
  all: destruct sx, sy, sz; cbn;
    try (intros H1 [H2|H2];
         (discriminate H1 || discriminate H2 || reflexivity)).
  all: intros H1 H2; injection H1 as H1; f_equal;
    assert (H2' : forall c, Some c = Some Lt \/ Some c = Some Eq ->
                            c = Lt \/ c = Eq)
      by (intros c [[= ->]|[= ->]]; auto);
    apply H2' in H2; clear H2';
    rewrite ?Pos.compare_cont_spec in *; cbn [Pos.switch_Eq] in *;
    destruct (Z.compare_spec ex ey), (Z.compare_spec ey ez),
             (Z.compare_spec ex ez);
    subst; try lia; try discriminate; try (destruct H2; discriminate);
    try reflexivity;
    destruct (Pos.compare_spec mx my), (Pos.compare_spec my mz),
             (Pos.compare_spec mx mz);
    subst; cbn in *; try lia; try discriminate;
    try (destruct H2; discriminate); try reflexivity.
Qed.

Lemma SFcompare_lt_gt (x y : SpecFloat.spec_float) :
  SpecFloat.SFcompare x y = Some Lt -> SpecFloat.SFcompare y x = Some Gt.
Proof.
  destruct x as [sx|sx| |sx mx ex], y as [sy|sy| |sy my ey];
    cbn; try (intros; discriminate);
    try (destruct sx; intros; (discriminate || reflexivity));
    try (destruct sy; intros; (discriminate || reflexivity));
    try (destruct sx, sy; intros; (discriminate || reflexivity)).
  destruct sx, sy; cbn; try (intros; (discriminate || reflexivity));
    intros H; injection H as H; f_equal;
    rewrite ?Pos.compare_cont_spec in *; cbn [Pos.switch_Eq] in *;
    rewrite (Z.compare_antisym ex ey), (Pos.compare_antisym mx my);
    destruct (ex ?= ey)%Z, (mx ?= my)%positive; cbn in *;
    try discriminate; reflexivity.
Qed.

Lemma ltb_compare (x y : float) :
  PrimFloat.ltb x y = true <->
  SpecFloat.SFcompare (Prim2SF x) (Prim2SF y) = Some Lt.
Proof.
  rewrite ltb_spec. unfold SpecFloat.SFltb.
  destruct (SpecFloat.SFcompare _ _) as [[]|]; split; congruence.
Qed.

Lemma leb_compare (x y : float) :
  PrimFloat.leb x y = true <->
  SpecFloat.SFcompare (Prim2SF x) (Prim2SF y) = Some Lt
  \/ SpecFloat.SFcompare (Prim2SF x) (Prim2SF y) = Some Eq.
Proof.
  rewrite leb_spec. unfold SpecFloat.SFleb.
  destruct (SpecFloat.SFcompare _ _) as [[]|]; split;
    intuition congruence.
Qed.

(** [x < y] and [y <= z] give [x < z]. *)
Lemma ltb_leb_trans (x y z : float) :
  PrimFloat.ltb x y = true -> PrimFloat.leb y z = true ->
  PrimFloat.ltb x z = true.
Proof.
  rewrite !ltb_compare, leb_compare. apply SFcompare_lt_le_trans.
Qed.

Lemma ltb_trans (x y z : float) :
  PrimFloat.ltb x y = true -> PrimFloat.ltb y z = true ->
  PrimFloat.ltb x z = true.
Proof.
  rewrite !ltb_compare. intros H1 H2.
  apply (SFcompare_lt_le_trans _ _ _ H1). now left.
Qed.

(** [x < y] excludes [y <= x]. *)
Lemma ltb_not_leb (x y : float) :
  PrimFloat.ltb x y = true -> PrimFloat.leb y x = false.
Proof.
  rewrite ltb_compare. intros H. apply SFcompare_lt_gt in H.
  rewrite leb_spec. unfold SpecFloat.SFleb. now rewrite H.
Qed.

End FloatFacts.

(** ** Tables filled key by key *)

Module TableFacts.
Import JS.

Lemma filter_disjoint_perm {A : Type} (p q : A -> bool) (l : list A) :
  (forall x, In x l -> p x = true -> q x = false) ->
  Permutation (filter p l ++ filter q l) (filter (fun x => p x || q x) l).
Proof.
  induction l as [|x l IH]; intros Hd; [constructor|].
  assert (IH' := IH (fun y Hy => Hd y (or_intror Hy))).
  simpl. destruct (p x) eqn:Hp; simpl.
  - rewrite (Hd x (or_introl eq_refl) Hp). now constructor.
  - destruct (q x); [|exact IH'].
    apply Permutation_sym, Permutation_cons_app, Permutation_sym, IH'.
Qed.

(** The groups of a key-wise partition, taken over distinct keys, make up
    the elements that have one of the keys. *)
Lemma partition_by_keys {A : Type} (has : string -> A -> bool)
      (ks : list string) (l : list A) :
  (forall x k k', has k x = true -> has k' x = true -> k = k') ->
  NoDup ks ->
  Permutation (flat_map (fun k => filter (has k) l) ks)
              (filter (fun x => existsb (fun k => has k x) ks) l).
Proof.
  intros Hfun Hnd. induction Hnd as [|k ks Hnotin Hnd IH].
  - simpl. induction l as [|x l IHl]; [constructor|exact IHl].
  - cbn [flat_map existsb].
    eapply perm_trans; [apply Permutation_app_head, IH|].
    apply filter_disjoint_perm.
    intros x _ Hk. apply not_true_is_false. intros Hex.
    apply existsb_exists in Hex as (k' & Hin & Hk').
    apply Hnotin. now rewrite (Hfun x k k' Hk Hk').
Qed.

Lemma filter_false {A : Type} (f : A -> bool) (l : list A) :
  (forall x, In x l -> f x = false) -> filter f l = [].
Proof.
  induction l as [|x l IH]; intros H; [reflexivity|]. simpl.
  rewrite (H x (or_introl eq_refl)). apply IH.
  intros y Hy. apply H. now right.
Qed.

Lemma sum_lengths {A B : Type} (f : A -> list B) (l : list A) :
  Z.of_nat (List.length (flat_map f l))
  = fold_right Z.add 0 (map (fun a => Z.of_nat (List.length (f a))) l).
Proof.
  induction l as [|a l IH]; [reflexivity|].
  cbn [flat_map map fold_right]. rewrite length_app. lia.
Qed.

Lemma getOwn_absent {V : Type} (o : Obj V) (k : string) :
  ~ In k (map fst o) -> getOwn o k = None.
Proof.
  induction o as [|[k' v] o IH]; intros Hn; [reflexivity|]. simpl.
  destruct (String.eqb_spec k k') as [->|_].
  - exfalso. apply Hn. now left.
  - apply IH. intros H. apply Hn. now right.
Qed.

Lemma forEach_app {S A : Type} (step : S -> A -> Completion S)
      (l1 l2 : list A) (s : S) :
  forEach step (l1 ++ l2) s = bind (forEach step l1 s) (forEach step l2).
Proof.
  revert s. induction l1 as [|x l1 IH]; intros s; [reflexivity|].
  simpl. destruct (step s x) as [s'|]; [apply IH|reflexivity].
Qed.

Lemma first_match {A : Type} (p : A -> bool) (l : list A) :
  existsb p l = true ->
  exists before x after,
    l = (before ++ x :: after)%list /\ p x = true
    /\ forall y, In y before -> p y = false.
Proof.
  induction l as [|a l IH]; [discriminate|]. simpl.
  destruct (p a) eqn:Hp.
  - intros _. exists [], a, l. repeat split; [assumption|intros y []].
  - intros H. destruct (IH H) as (before & x & after & -> & Hx & Hb).
    exists (a :: before), x, after. repeat split; [assumption|].
    intros y [<-|Hy]; [assumption|now apply Hb].
Qed.

Lemma filter_drops_all {A : Type} (f : A -> bool) (l : list A) :
  (forall x, In x l -> f x = false) -> filter f l = [].
Proof.
  induction l as [|x l IH]; intros H; [reflexivity|]. cbn [filter].
  rewrite (H x (or_introl eq_refl)). apply IH.
  intros y Hy. apply H. now right.
Qed.

Lemma filter_keeps_all {A : Type} (f : A -> bool) (l : list A) :
  (forall x, In x l -> f x = true) -> filter f l = l.
Proof.
  induction l as [|x l IH]; intros H; [reflexivity|]. cbn [filter].
  rewrite (H x (or_introl eq_refl)). f_equal. apply IH.
  intros y Hy. apply H. now right.
Qed.

End TableFacts.

(** ** Revenue per currency and the dominant currency *)

Module StatsExtras.
Import JS Types Dashboard DashboardState GroupFacts TableFacts FloatFacts
       Samples.

Lemma bookedCurrencies_snoc (l : list OzonPosting) (o : OzonPosting) :
  bookedCurrencies (l ++ [o])
  = (bookedCurrencies l
     ++ if inherited (orderCurrency o) then [] else [orderCurrency o])%list.
Proof.
  unfold bookedCurrencies. rewrite flat_map_app. simpl.
  now rewrite app_nil_r.
Qed.

Lemma booked_iff (l : list OzonPosting) (k : string) :
  In k (bookedCurrencies l) <->
  inherited k = false /\ exists o, In o l /\ orderCurrency o = k.
Proof.
  unfold bookedCurrencies. rewrite in_flat_map. split.
  - intros (o & Ho & Hk).
    destruct (inherited (orderCurrency o)) eqn:Hi; [destruct Hk|].
    destruct Hk as [<-|[]]. split; [assumption|now exists o].
  - intros (Hi & o & Ho & <-). exists o. split; [assumption|].
    rewrite Hi. now left.
Qed.

Lemma filter_inCurrency_absent (l : list OzonPosting) (k : string) :
  inherited k = false -> ~ In k (bookedCurrencies l) ->
  filter (inCurrency k) l = [].
Proof.
  intros Hi Hn. apply filter_false. intros o Ho.
  apply not_true_is_false. intros Hk. apply Hn. apply booked_iff.
  split; [assumption|]. exists o. split; [assumption|].
  now apply String.eqb_eq.
Qed.

Section Stats.
Variable parseFloat : string -> float.

Lemma RevenueOf_unrelated (l : list OzonPosting) (o : OzonPosting)
      (kr : string * Revenue) :
  inCurrency (fst kr) o = false ->
  RevenueOf parseFloat l kr -> RevenueOf parseFloat (l ++ [o]) kr.
Proof.
  intros Hk [Hc Ha]. unfold RevenueOf.
  rewrite filter_app. simpl. rewrite Hk, app_nil_r. now split.
Qed.

Lemma addRevenue_step (l : list OzonPosting) (revenue : Obj Revenue)
      (o : OzonPosting) :
  RevenueTable parseFloat l revenue ->
  RevenueTable parseFloat (l ++ [o]) (addRevenue parseFloat revenue o).
Proof.
  intros [Hkeys Hall]. unfold addRevenue. cbv zeta.
  set (c := orderCurrency o).
  assert (Hmine : inCurrency c o = true) by apply String.eqb_refl.
  assert (Hothers : forall kr : string * Revenue,
             fst kr <> c -> inCurrency (fst kr) o = false).
  { intros kr Hne. unfold inCurrency. fold c.
    apply String.eqb_neq. congruence. }
  destruct (getOwn revenue c) as [r|] eqn:Hget.
  - assert (Hin : In (c, r) revenue) by now apply getOwn_Some_In.
    assert (Hseen : In c (bookedCurrencies l)).
    { apply firstEncountered_In. rewrite <- Hkeys.
      now apply (in_map fst) in Hin. }
    assert (Hi : inherited c = false) by now apply booked_iff in Hseen.
    split.
    + rewrite (setOwn_present_keys _ _ r) by assumption.
      rewrite bookedCurrencies_snoc. fold c. rewrite Hi.
      now rewrite firstEncountered_seen.
    + apply (Forall_setOwn (RevenueOf parseFloat l) _ _ _ r);
        try assumption.
      * rewrite Hkeys. apply firstEncountered_NoDup.
      * rewrite Forall_forall in Hall. destruct (Hall _ Hin) as [Hc Ha].
        cbn [fst snd] in *. unfold RevenueOf. cbn [fst snd amount count].
        rewrite filter_app. simpl. rewrite Hmine.
        rewrite length_app, fold_left_app. cbn. rewrite Hc, Ha.
        split; [lia|reflexivity].
      * intros kr _ Hne. apply RevenueOf_unrelated. now apply Hothers.
  - assert (Habsent : ~ In c (map fst revenue))
      by now apply getOwn_None_notin.
    assert (Hold : Forall (RevenueOf parseFloat (l ++ [o])) revenue).
    { rewrite Forall_forall in *. intros kr Hin.
      apply RevenueOf_unrelated; [|now apply Hall].
      apply Hothers. intros Heq. apply Habsent. rewrite <- Heq.
      now apply in_map. }
    destruct (inherited c) eqn:Hi.
    + split; [|exact Hold].
      rewrite bookedCurrencies_snoc. fold c. rewrite Hi, app_nil_r.
      exact Hkeys.
    + assert (Hnew : ~ In c (bookedCurrencies l))
        by (rewrite <- firstEncountered_In, <- Hkeys; exact Habsent).
      rewrite setOwn_absent by assumption. split.
      * rewrite map_app, Hkeys, bookedCurrencies_snoc. fold c.
        rewrite Hi. now rewrite firstEncountered_new.
      * apply Forall_app. split; [exact Hold|].
        constructor; [|constructor].
        unfold RevenueOf. cbn [fst snd amount count].
        rewrite filter_app, (filter_inCurrency_absent _ _ Hi Hnew).
        simpl. rewrite Hmine. split; reflexivity.
Qed.

Lemma revenue_table (orders : list OzonPosting) :
  RevenueTable parseFloat orders
               (revenueByCurrency (stats parseFloat orders)).
Proof.
  cbn [stats revenueByCurrency].
  assert (H : forall l2 l1 revenue,
             RevenueTable parseFloat l1 revenue ->
             RevenueTable parseFloat (l1 ++ l2)
                          (fold_left (addRevenue parseFloat) l2 revenue)).
  { induction l2 as [|o l2 IH]; intros l1 revenue Ht.
    - now rewrite app_nil_r.
    - cbn [fold_left].
      replace (l1 ++ o :: l2)%list with ((l1 ++ [o]) ++ l2)%list
        by now rewrite <- app_assoc.
      apply IH. now apply addRevenue_step. }
  apply (H orders [] []). split; [reflexivity|constructor].
Qed.

(** The entries in the order of their creation. *)
Lemma revenue_created (orders : list OzonPosting) :
  let revenue := revenueByCurrency (stats parseFloat orders) in
  map fst revenue = firstEncountered (bookedCurrencies orders)
  /\ NoDup (map fst revenue)
  /\ (forall o, In o orders -> inherited (orderCurrency o) = false ->
                In (orderCurrency o) (map fst revenue))
  /\ (forall k r,
         In (k, r) revenue ->
         inherited k = false
         /\ 1 <= count r
         /\ count r
            = Z.of_nat (List.length (filter (inCurrency k) orders))
         /\ amount r
            = fold_left (fun sum o => (sum + orderTotal parseFloat o)%float)
                        (filter (inCurrency k) orders) 0%float)
  /\ fold_right Z.add 0 (map (fun kr => count (snd kr)) revenue)
     = Z.of_nat
         (List.length
            (filter (fun o => negb (inherited (orderCurrency o))) orders)).
Proof.
  intros revenue.
  destruct (revenue_table orders) as [Hkeys Hall]. fold revenue in Hkeys, Hall.
  assert (Hnd : NoDup (map fst revenue))
    by (rewrite Hkeys; apply firstEncountered_NoDup).
  repeat apply conj.
  - exact Hkeys.
  - exact Hnd.
  - intros o Ho Hi. rewrite Hkeys. apply firstEncountered_In.
    apply booked_iff. split; [assumption|now exists o].
  - intros k r Hin. rewrite Forall_forall in Hall.
    destruct (Hall _ Hin) as [Hc Ha]. cbn [fst snd] in *.
    assert (Hk : In k (bookedCurrencies orders)).
    { apply firstEncountered_In. rewrite <- Hkeys.
      now apply (in_map fst) in Hin. }
    apply booked_iff in Hk as (Hi & o & Ho & Hcur).
    repeat apply conj; try assumption.
    rewrite Hc.
    assert (In o (filter (inCurrency k) orders)) as Hmem.
    { apply filter_In. split; [assumption|]. now apply String.eqb_eq. }
    destruct (filter (inCurrency k) orders); [destruct Hmem|]. cbn. lia.
  - transitivity
      (fold_right Z.add 0
         (map (fun k => Z.of_nat (List.length (filter (inCurrency k) orders)))
              (map fst revenue))).
    { rewrite map_map. f_equal. apply map_ext_in. intros kr Hin.
      rewrite Forall_forall in Hall. now destruct (Hall _ Hin). }
    rewrite <- (sum_lengths (fun k => filter (inCurrency k) orders)).
    f_equal. apply Permutation_length.
    eapply perm_trans.
    + apply (partition_by_keys inCurrency); [|exact Hnd].
      intros x k k' Hk Hk'. apply String.eqb_eq in Hk, Hk'. congruence.
    + erewrite filter_ext_in; [apply Permutation_refl|].
      intros o Ho. cbv beta.
      destruct (inherited (orderCurrency o)) eqn:Hi; cbn [negb].
      * apply not_true_is_false. intros Hex.
        apply existsb_exists in Hex as (k & Hk & Hcur).
        apply String.eqb_eq in Hcur. subst k.
        rewrite Hkeys in Hk.
        apply (proj1 (firstEncountered_In _ _)) in Hk.
        apply (proj1 (booked_iff _ _)) in Hk. destruct Hk. congruence.
      * apply existsb_exists. exists (orderCurrency o).
        split; [|apply String.eqb_refl].
        rewrite Hkeys. apply firstEncountered_In. apply booked_iff.
        split; [assumption|now exists o].
Qed.

Lemma sum_perm (l l' : list Z) :
  Permutation l l' -> fold_right Z.add 0 l = fold_right Z.add 0 l'.
Proof.
  induction 1 as [|x l l' _ IH|x y l|l l' l'' _ IH1 _ IH2]; cbn; lia.
Qed.

(** X5.  [revenueByCurrency] has one entry per currency of the orders
    (currencies that name a member of [Object.prototype] apart).
    [Object.keys] and [Object.entries] list them in the enumeration
    order of the object: the currencies that are array indices first,
    in ascending numeric order, then the others in order of first
    occurrence.  The count of an entry is the number of orders in its
    currency, at least 1, and its amount is the running sum of their
    revenues in order of arrival; the counts add up to the number of
    orders whose currency got an entry. *)
Theorem revenue_has_one_entry_per_currency (orders : list OzonPosting) :
  let revenue := revenueByCurrency (stats parseFloat orders) in
  Object_keys revenue
  = enumerationOrder (firstEncountered (bookedCurrencies orders))
  /\ NoDup (Object_keys revenue)
  /\ (forall o, In o orders -> inherited (orderCurrency o) = false ->
                In (orderCurrency o) (Object_keys revenue))
  /\ (forall k r,
         In (k, r) (ownEntries revenue) ->
         inherited k = false
         /\ 1 <= count r
         /\ count r
            = Z.of_nat (List.length (filter (inCurrency k) orders))
         /\ amount r
            = fold_left (fun sum o => (sum + orderTotal parseFloat o)%float)
                        (filter (inCurrency k) orders) 0%float)
  /\ fold_right Z.add 0
                (map (fun kr => count (snd kr)) (ownEntries revenue))
     = Z.of_nat
         (List.length
            (filter (fun o => negb (inherited (orderCurrency o))) orders)).
Proof.
  intros revenue.
  destruct (revenue_created orders) as (Hkeys & Hnd & Hin & Hentry & Hsum).
  fold revenue in Hkeys, Hnd, Hin, Hentry, Hsum.
  assert (Hperm : Permutation (Object_keys revenue) (map fst revenue))
    by (apply Permutation_map, ownEntries_perm).
  repeat apply conj.
  - now rewrite Object_keys_order, Hkeys.
  - apply (Permutation_NoDup (Permutation_sym Hperm) Hnd).
  - intros o Ho Hi.
    apply (Permutation_in _ (Permutation_sym Hperm)). now apply Hin.
  - intros k r Hkr. apply Hentry.
    exact (Permutation_in _ (ownEntries_perm revenue) Hkr).
  - rewrite <- Hsum. apply sum_perm, Permutation_map, ownEntries_perm.
Qed.

End Stats.

Lemma dominant_fold (entries : list (string * Revenue)) :
  forall d0 m0,
    let result := fold_left dominantStep entries (d0, m0) in
    (forall e, In e entries ->
               PrimFloat.ltb (snd result) (amount (snd e)) = false)
    /\ ((result = (d0, m0)
         /\ forall e, In e entries ->
                      PrimFloat.ltb m0 (amount (snd e)) = false)
        \/ exists r before after,
            entries = (before ++ (fst result, r) :: after)%list
            /\ amount r = snd result
            /\ PrimFloat.ltb m0 (snd result) = true
            /\ forall e, In e before ->
                         PrimFloat.leb (snd result) (amount (snd e)) = false).
Proof.
  induction entries as [|[k r] entries IH]; intros d0 m0.
  - cbn. split; [intros e []|]. left. split; [reflexivity|intros e []].
  - cbv zeta. cbn [fold_left].
    assert (Hstep : dominantStep (d0, m0) (k, r)
                    = if PrimFloat.ltb m0 (amount r)
                      then (k, amount r) else (d0, m0)) by reflexivity.
    rewrite Hstep. clear Hstep.
    destruct (PrimFloat.ltb m0 (amount r)) eqn:Hlt.
    + specialize (IH k (amount r)). cbv zeta in *.
      set (result := fold_left dominantStep entries (k, amount r)) in *.
      clearbody result.
      destruct IH as [Hmax Hcase]. split.
      * intros e [<-|He]; [|now apply Hmax]. cbn [snd].
        destruct Hcase as [[Heq _]|(r' & before & after & _ & _ & Hgt & _)].
        -- rewrite Heq. cbn [snd]. rewrite ltb_spec. unfold SpecFloat.SFltb.
           apply ltb_compare in Hlt.
           destruct (SpecFloat.SFcompare (Prim2SF (amount r))
                                         (Prim2SF (amount r)))
             as [[]|] eqn:Hc; try reflexivity.
           apply SFcompare_lt_gt in Hc as Hc'. congruence.
        -- apply not_true_is_false. intros Hback.
           apply ltb_not_leb in Hgt. apply ltb_compare in Hback.
           rewrite leb_spec in Hgt. unfold SpecFloat.SFleb in Hgt.
           rewrite Hback in Hgt. discriminate.
      * right.
        destruct Hcase as [[Heq Hnone]|(r' & before & after & He & Ha & Hgt & Hb)].
        -- exists r, [], entries. rewrite Heq. cbn. repeat split; trivial.
           intros e [].
        -- exists r', ((k, r) :: before)%list, after. rewrite He at 1.
           repeat split; try assumption.
           ++ now apply (ltb_trans _ (amount r)).
           ++ intros e [<-|Hin]; [|now apply Hb]. cbn [snd].
              now apply ltb_not_leb.
    + specialize (IH d0 m0). cbv zeta in *.
      set (result := fold_left dominantStep entries (d0, m0)) in *.
      clearbody result.
      destruct IH as [Hmax Hcase]. split.
      * intros e [<-|He]; [|now apply Hmax]. cbn [snd].
        destruct Hcase as [[Heq _]|(r' & before & after & _ & _ & Hgt & _)];
          [rewrite Heq; exact Hlt|].
        apply not_true_is_false. intros Hback.
        assert (PrimFloat.ltb m0 (amount r) = true); [|congruence].
        apply (ltb_trans _ (snd result)); assumption.
      * destruct Hcase as [[Heq Hnone]|(r' & before & after & He & Ha & Hgt & Hb)].
        -- left. split; [assumption|]. intros e [<-|Hin]; [exact Hlt|].
           now apply Hnone.
        -- right. exists r', ((k, r) :: before)%list, after. rewrite He at 1.
           repeat split; try assumption.
           intros e [<-|Hin]; [|now apply Hb]. cbn [snd].
           apply not_true_is_false. intros Hle.
           assert (PrimFloat.ltb m0 (amount r) = true); [|congruence].
           apply (ltb_leb_trans _ (snd result)); assumption.
Qed.

(** X6.  No entry of [revenueByCurrency] has an amount above that of the
    dominant currency.  The dominant currency is RUB, with nothing to
    show for it, when no amount is above -1; otherwise it is the first
    entry, in the enumeration order of the table, that attains the
    highest amount: no entry before it reaches its amount. *)
Theorem dominant_currency_has_highest_revenue (revenue : Obj Revenue) :
  let found := dominantSearch revenue in
  (forall k r, In (k, r) revenue ->
               PrimFloat.ltb (snd found) (amount r) = false)
  /\ ((dominantCurrency revenue = "RUB"%string
       /\ snd found = (-1)%float
       /\ forall k r, In (k, r) revenue ->
                      PrimFloat.ltb (-1)%float (amount r) = false)
      \/ exists r before after,
          ownEntries revenue
          = (before ++ (dominantCurrency revenue, r) :: after)%list
          /\ In (dominantCurrency revenue, r) revenue
          /\ amount r = snd found
          /\ PrimFloat.ltb (-1)%float (amount r) = true
          /\ forall e, In e before ->
                       PrimFloat.leb (amount r) (amount (snd e)) = false).
Proof.
  intros found.
  destruct (dominant_fold (ownEntries revenue) "RUB"%string (-1)%float)
    as [Hmax Hcase].
  fold (dominantSearch revenue) in Hmax, Hcase. fold found in Hmax, Hcase.
  assert (Hin : forall e, In e revenue -> In e (ownEntries revenue)).
  { intros e He.
    eapply Permutation_in; [apply Permutation_sym, ownEntries_perm|exact He]. }
  split.
  - intros k r Hk. exact (Hmax (k, r) (Hin _ Hk)).
  - destruct Hcase as [[Heq Hnone]|(r & before & after & He & Ha & Hgt & Hb)].
    + left. unfold dominantCurrency. fold found. rewrite Heq.
      repeat split. intros k r Hk. exact (Hnone (k, r) (Hin _ Hk)).
    + right. exists r, before, after. unfold dominantCurrency. fold found.
      repeat apply conj.
      * exact He.
      * eapply Permutation_in; [apply ownEntries_perm|].
        rewrite He. apply in_or_app. right. now left.
      * exact Ha.
      * now rewrite Ha.
      * intros e Hin'. rewrite Ha. now apply Hb.
Qed.

(** Two currencies with the same amount: the first one booked wins. *)
Example dominant_tie :
  dominantCurrency
    [("USD"%string, {| amount := 30; count := 2 |});
     ("CNY"%string, {| amount := 30; count := 1 |});
     ("RUB"%string, {| amount := 12; count := 4 |})]
  = "USD"%string.
Proof. reflexivity. Qed.

(** Currencies 2, 1, 2: the entry of 1 is listed before that of 2. *)
Lemma revenue_has_one_entry_per_currency_witness :
  Object_keys
    (revenueByCurrency
       (stats Samples.parseDigits
              [priced "c-1" "2"; priced "c-2" "1"; priced "c-3" "2"]))
  = ["1"; "2"]%string.
Proof.
  rewrite (proj1 (revenue_has_one_entry_per_currency
                    Samples.parseDigits
                    [priced "c-1" "2"; priced "c-2" "1"; priced "c-3" "2"])).
  reflexivity.
Defined.

Lemma dominant_currency_has_highest_revenue_witness :
  PrimFloat.ltb
    (snd (dominantSearch
            [("USD"%string, {| amount := 30; count := 2 |});
             ("CNY"%string, {| amount := 30; count := 1 |})]))
    30
  = false.
Proof.
  apply (proj1 (dominant_currency_has_highest_revenue
                  [("USD"%string, {| amount := 30; count := 2 |});
                   ("CNY"%string, {| amount := 30; count := 1 |})])
               "CNY"%string {| amount := 30; count := 1 |}).
  right. now left.
Defined.

End StatsExtras.

(** ** Smart groups and their export *)

Module GroupExtras.
Import JS Types Dashboard DashboardState GroupFacts TableFacts Samples.

Lemma unsafe_order_throws (orders : list OzonPosting) :
  existsb (fun o => match singleKey o with
                    | Some k => inherited k
                    | None => false
                    end) orders = true ->
  smartGroups orders = TypeError.
Proof.
  intros Hex.
  destruct (first_match _ _ Hex) as (before & o & after & -> & Ho & Hb).
  destruct (singleKey o) as [k|] eqn:Hk; [|discriminate].
  destruct (groups_table before) as (tbl & Hrun & Hkeys & _).
  { intros o' k' Hin Hk'. specialize (Hb o' Hin). now rewrite Hk' in Hb. }
  unfold smartGroups. rewrite forEach_app, Hrun. cbn [bind forEach].
  assert (Hstep : addToGroups tbl o = TypeError).
  { unfold addToGroups. unfold singleKey in Hk.
    destruct (products o) as [|p [|p' ps]]; try discriminate.
    injection Hk as <-. cbv zeta.
    rewrite getOwn_absent, Ho; [reflexivity|].
    rewrite Hkeys. intros Hin.
    apply (proj1 (firstEncountered_In _ _)) in Hin.
    unfold keysOf in Hin.
    apply (proj1 (in_flat_map _ _ _)) in Hin as (o' & Ho' & Hk').
    specialize (Hb o' Ho').
    destruct (singleKey o') as [k'|]; [|destruct Hk'].
    destruct Hk' as [->|[]]. congruence. }
  now rewrite Hstep.
Qed.

Lemma normal_is_safe (orders : list OzonPosting) (groups : list Group) :
  smartGroups orders = Normal groups ->
  forall o k, In o orders -> singleKey o = Some k -> inherited k = false.
Proof.
  intros Hrun o k Hin Hk.
  destruct (existsb (fun o => match singleKey o with
                              | Some k => inherited k
                              | None => false
                              end) orders) eqn:Hex.
  - rewrite (unsafe_order_throws _ Hex) in Hrun. discriminate.
  - apply not_true_is_false. intros Hi.
    assert (existsb (fun o => match singleKey o with
                              | Some k => inherited k
                              | None => false
                              end) orders = true); [|congruence].
    apply existsb_exists. exists o. split; [assumption|]. now rewrite Hk.
Qed.

(** X7.  [smartGroups] throws exactly when some order with a single line
    item has an offer id that names a member of [Object.prototype];
    otherwise it returns its groups. *)
Theorem smartGroups_throws_iff (orders : list OzonPosting) :
  smartGroups orders = TypeError <->
  exists o k,
    In o orders /\ singleKey o = Some k /\ inherited k = true.
Proof.
  split.
  - intros Hthrow.
    destruct (existsb (fun o => match singleKey o with
                                | Some k => inherited k
                                | None => false
                                end) orders) eqn:Hex.
    + apply existsb_exists in Hex as (o & Hin & Ho).
      destruct (singleKey o) as [k|] eqn:Hk; [|discriminate].
      now exists o, k.
    + destruct (groups_table orders) as (tbl & Hrun & _).
      { intros o k Hin Hk. apply not_true_is_false. intros Hi.
        assert (existsb (fun o => match singleKey o with
                                  | Some k => inherited k
                                  | None => false
                                  end) orders = true); [|congruence].
        apply existsb_exists. exists o. split; [assumption|].
        now rewrite Hk. }
      unfold smartGroups in Hthrow. rewrite Hrun in Hthrow. discriminate.
  - intros (o & k & Hin & Hk & Hi). apply unsafe_order_throws.
    apply existsb_exists. exists o. split; [assumption|]. now rewrite Hk.
Qed.

Lemma groups_of_table (orders : list OzonPosting) (groups : list Group) :
  smartGroups orders = Normal groups ->
  exists tbl,
    TableOf orders tbl /\ Permutation groups (map snd tbl).
Proof.
  intros Hrun.
  destruct (groups_table orders (normal_is_safe _ _ Hrun))
    as (tbl & Htbl & Htable).
  exists tbl. split; [assumption|].
  unfold smartGroups in Hrun. rewrite Htbl in Hrun. cbn [bind] in Hrun.
  injection Hrun as <-.
  eapply perm_trans; [apply SortFacts.Array_sort_perm|].
  unfold Object_values. apply Permutation_map, ownEntries_perm.
Qed.

Lemma hasKey_functional (o : OzonPosting) (k k' : string) :
  hasKey k o = true -> hasKey k' o = true -> k = k'.
Proof.
  unfold hasKey. destruct (singleKey o); [|discriminate].
  intros H1 H2. apply String.eqb_eq in H1, H2. congruence.
Qed.

(** X8.  The groups partition the orders with a single line item: taken
    together they hold each such order once and no other order, so the
    group sizes add up to the number of single-item orders. *)
Theorem smartGroups_partition_single_item_orders
        (orders : list OzonPosting) (groups : list Group) :
  smartGroups orders = Normal groups ->
  Permutation (flat_map Dashboard.orders groups)
              (filter (fun o => match products o with
                                | [_] => true
                                | _ => false
                                end) orders)
  /\ list_sum (map (fun g => List.length (Dashboard.orders g)) groups)
     = List.length (filter (fun o => match products o with
                                     | [_] => true
                                     | _ => false
                                     end) orders).
Proof.
  intros Hrun.
  assert (Hperm : Permutation
                    (flat_map Dashboard.orders groups)
                    (filter (fun o => match products o with
                                      | [_] => true
                                      | _ => false
                                      end) orders)).
  { destruct (groups_of_table _ _ Hrun) as (tbl & [Hkeys Hall] & Hp).
    rewrite Hp.
    assert (Hmembers : flat_map Dashboard.orders (map snd tbl)
                       = flat_map (fun k => filter (hasKey k) orders)
                                  (map fst tbl)).
    { clear Hkeys Hp. induction Hall as [|[k g] tbl (_ & H2 & _) _ IH];
        [reflexivity|].
      cbn [map flat_map fst snd] in *. now rewrite IH, H2. }
    rewrite Hmembers.
    eapply perm_trans.
    - apply (partition_by_keys hasKey).
      + intros x k k'. apply hasKey_functional.
      + rewrite Hkeys. apply firstEncountered_NoDup.
    - erewrite filter_ext_in; [apply Permutation_refl|].
      intros o Ho. cbv beta.
      destruct (singleKey o) as [k|] eqn:Hk.
      + assert (Hone : match products o with [_] => true | _ => false end
                       = true)
          by (unfold singleKey in Hk;
              destruct (products o) as [|p [|p' ps]]; congruence).
        rewrite Hone. apply existsb_exists. exists k. split.
        * rewrite Hkeys. apply firstEncountered_In.
          apply (hasKey_In_keysOf _ o); [assumption|].
          unfold hasKey. rewrite Hk. apply String.eqb_refl.
        * unfold hasKey. rewrite Hk. apply String.eqb_refl.
      + assert (Hnot : match products o with [_] => true | _ => false end
                       = false)
          by (unfold singleKey in Hk;
              destruct (products o) as [|p [|p' ps]]; congruence).
        rewrite Hnot. apply not_true_is_false. intros Hex.
        apply existsb_exists in Hex as (k & _ & Hk').
        unfold hasKey in Hk'. rewrite Hk in Hk'. discriminate. }
  split; [exact Hperm|].
  rewrite <- ServiceExtras.length_flat_map. now apply Permutation_length.
Qed.

(** X9.  Exporting the smart groups never throws.  Without single-item
    orders nothing is exported; otherwise the text has one row per group,
    and the total quantity of a row is summed over exactly the
    single-item orders with the offer id of the group. *)
Theorem export_of_smartGroups
        (orders : list OzonPosting) (groups : list Group)
        (packedOrderIds : list string) :
  smartGroups orders = Normal groups ->
  handleExportSmartGroups groups packedOrderIds
  = Normal
      match groups with
      | [] => None
      | _ =>
          Some (BOM ++ header
                ++ fold_right
                     String.append EmptyString
                     (map (fun g =>
                             csvRow packedOrderIds g
                                    (fold_left
                                       Z.add
                                       (map lineQuantity
                                            (filter (hasKey (groupKey g))
                                                    orders))
                                       0))
                          groups))%string
      end.
Proof.
  intros Hrun.
  destruct (groups_of_table _ _ Hrun) as (tbl & [_ Hall] & Hp).
  assert (Hgroup : forall g, In g groups ->
                             Dashboard.orders g
                             = filter (hasKey (groupKey g)) orders).
  { intros g Hg. apply (Permutation_in _ Hp) in Hg.
    apply in_map_iff in Hg as ([k g'] & <- & Hin).
    rewrite Forall_forall in Hall.
    destruct (Hall _ Hin) as (H1 & H2 & _). cbn [fst snd] in *.
    now rewrite H1. }
  destruct groups as [|g0 gs]; [reflexivity|].
  unfold handleExportSmartGroups.
  rewrite ExportClaims.forEach_rows.
  - cbn [bind]. rewrite ExportClaims.append_assoc.
    rewrite (map_ext_in
               (fun g => csvRow packedOrderIds g
                                (fold_left
                                   Z.add
                                   (map lineQuantity (Dashboard.orders g)) 0))
               (fun g => csvRow packedOrderIds g
                                (fold_left
                                   Z.add
                                   (map lineQuantity
                                        (filter (hasKey (groupKey g)) orders))
                                   0))); [reflexivity|].
    intros g Hg. now rewrite (Hgroup g Hg).
  - intros g o Hg Ho Hempty. rewrite (Hgroup g Hg) in Ho.
    apply filter_In in Ho as [_ Hk]. unfold hasKey, singleKey in Hk.
    rewrite Hempty in Hk. discriminate.
Qed.

Lemma smartGroups_throws_iff_witness :
  smartGroups [single "t-0" "a"; single "t-1" "valueOf"] = TypeError.
Proof.
  apply (proj2 (smartGroups_throws_iff _)).
  exists (single "t-1" "valueOf"), "valueOf"%string.
  repeat split. right. now left.
Defined.

Lemma smartGroups_partition_single_item_orders_witness :
  exists groups,
    smartGroups pickList = Normal groups
    /\ list_sum (map (fun g => List.length (Dashboard.orders g)) groups)
       = 9%nat.
Proof.
  assert (Hrun : exists groups, smartGroups pickList = Normal groups)
    by (vm_compute; eexists; reflexivity).
  destruct Hrun as [groups Hrun]. exists groups. split; [exact Hrun|].
  rewrite (proj2 (smartGroups_partition_single_item_orders
                    pickList groups Hrun)).
  reflexivity.
Defined.

Lemma export_of_smartGroups_witness :
  exists groups text,
    smartGroups pickList = Normal groups
    /\ handleExportSmartGroups groups ["p-2"; "p-3"]%string
       = Normal (Some text).
Proof.
  assert (Hrun : exists g gs, smartGroups pickList = Normal (g :: gs))
    by (vm_compute; do 2 eexists; reflexivity).
  destruct Hrun as (g & gs & Hrun). exists (g :: gs). eexists.
  split; [exact Hrun|].
  rewrite (export_of_smartGroups pickList (g :: gs) ["p-2"; "p-3"]%string
                                 Hrun).
  reflexivity.
Defined.

End GroupExtras.

(** ** Selection and packed marks *)

Module StateExtras.
Import JS Types Dashboard DashboardState GroupFacts TableFacts Samples.

Lemma Set_has_In (s : list string) (x : string) :
  Set_has s x = true <-> In x s.
Proof.
  unfold Set_has. rewrite existsb_exists. split.
  - intros (y & Hy & Heq). apply String.eqb_eq in Heq. now subst.
  - intros Hin. exists x. split; [assumption|apply String.eqb_refl].
Qed.

Lemma Set_has_app (s t : list string) (y : string) :
  Set_has (s ++ t) y = Set_has s y || Set_has t y.
Proof. unfold Set_has. apply existsb_app. Qed.

Lemma Set_has_add (x : string) (s : list string) (y : string) :
  Set_has (Set_add x s) y = Set_has s y || String.eqb y x.
Proof.
  unfold Set_add. destruct (Set_has s x) eqn:Hx.
  - destruct (String.eqb_spec y x) as [->|_].
    + rewrite Hx. reflexivity.
    + now rewrite orb_false_r.
  - rewrite Set_has_app. cbn. now rewrite orb_false_r.
Qed.

Lemma Set_has_delete (x : string) (s : list string) (y : string) :
  Set_has (Set_delete x s) y = Set_has s y && negb (String.eqb y x).
Proof.
  unfold Set_delete, Set_has. induction s as [|z s IH]; [reflexivity|].
  cbn [filter existsb]. destruct (String.eqb_spec z x) as [->|Hzx].
  - cbn [negb]. rewrite IH. destruct (String.eqb_spec y x); cbn.
    + now rewrite andb_false_r.
    + reflexivity.
  - cbn [negb existsb]. rewrite IH.
    destruct (String.eqb_spec y z) as [->|Hyz]; cbn; [|reflexivity].
    destruct (String.eqb_spec z x); [contradiction|reflexivity].
Qed.

Lemma Set_add_NoDup (x : string) (s : list string) :
  NoDup s -> NoDup (Set_add x s).
Proof.
  intros Hnd. unfold Set_add. destruct (Set_has s x) eqn:Hx; [assumption|].
  apply NoDup_app; [assumption|repeat constructor; intros []|].
  intros a Ha [<-|[]]. apply Set_has_In in Ha. congruence.
Qed.

Lemma Set_delete_NoDup (x : string) (s : list string) :
  NoDup s -> NoDup (Set_delete x s).
Proof. apply NoDup_filter. Qed.

Lemma marked_members (ids : list string) (status : bool) :
  forall (s : list string) (y : string),
    Set_has
      (fold_left (fun s id => if status then Set_add id s
                              else Set_delete id s) ids s) y
    = if status then Set_has s y || Set_has ids y
      else Set_has s y && negb (Set_has ids y).
Proof.
  induction ids as [|id ids IH]; intros s y.
  - destruct status; unfold Set_has; cbn [fold_left existsb negb];
      [now rewrite orb_false_r|now rewrite andb_true_r].
  - cbn [fold_left]. rewrite IH. destruct status.
    + rewrite Set_has_add. cbn [Set_has existsb].
      now rewrite orb_assoc.
    + rewrite Set_has_delete. cbn [Set_has existsb].
      rewrite negb_orb. now rewrite andb_assoc.
Qed.

Lemma marked_NoDup (ids : list string) (status : bool) :
  forall s : list string,
    NoDup s ->
    NoDup (fold_left (fun s id => if status then Set_add id s
                                  else Set_delete id s) ids s).
Proof.
  induction ids as [|id ids IH]; intros s Hnd; [assumption|].
  cbn [fold_left]. apply IH.
  destruct status; [now apply Set_add_NoDup|now apply Set_delete_NoDup].
Qed.

Lemma toggled_members (ids : list string) (status : bool)
      (packedOrderIds selectedOrders : list string) (y : string) :
  Set_has (fst (togglePackedStatus ids status packedOrderIds
                                   selectedOrders)) y
  = if status then Set_has packedOrderIds y || Set_has ids y
    else Set_has packedOrderIds y && negb (Set_has ids y).
Proof. apply marked_members. Qed.

(** X10.  [togglePackedStatus] with status true leaves packed exactly the
    orders that were packed or are among the ids, with status false the
    orders that were packed and are not among the ids; the packed set
    stays free of repetitions, and the selection is cleared only when
    more than one id is given. *)
Theorem togglePackedStatus_members
        (ids : list string) (status : bool)
        (packedOrderIds selectedOrders : list string) :
  (forall y : string,
      Set_has (fst (togglePackedStatus ids status packedOrderIds
                                       selectedOrders)) y
      = if status then Set_has packedOrderIds y || Set_has ids y
        else Set_has packedOrderIds y && negb (Set_has ids y))
  /\ (NoDup packedOrderIds ->
      NoDup (fst (togglePackedStatus ids status packedOrderIds
                                     selectedOrders)))
  /\ snd (togglePackedStatus ids status packedOrderIds selectedOrders)
     = match ids with
       | _ :: _ :: _ => []
       | _ => selectedOrders
       end.
Proof.
  unfold togglePackedStatus. cbn [fst snd]. repeat split.
  - intros y. apply marked_members.
  - apply marked_NoDup.
  - destruct ids as [|a [|b ids]]; reflexivity.
Qed.

Lemma added_extends (ids : list string) :
  forall s : list string,
  exists extra,
    fold_left (fun s id => Set_add id s) ids s = (s ++ extra)%list
    /\ forall x, In x extra -> In x ids.
Proof.
  induction ids as [|id ids IH]; intros s.
  - exists []. split; [now rewrite app_nil_r|intros x []].
  - cbn [fold_left]. destruct (IH (Set_add id s)) as (extra & Heq & Hin).
    destruct (Set_has s id) eqn:Hs.
    + assert (Hadd : Set_add id s = s)
        by (unfold Set_add; now rewrite Hs).
      rewrite Hadd in Heq |- *.
      exists extra. split; [assumption|]. intros x Hx. right. now apply Hin.
    + assert (Hadd : Set_add id s = (s ++ [id])%list)
        by (unfold Set_add; now rewrite Hs).
      rewrite Hadd in Heq |- *.
      exists (id :: extra). rewrite Heq, <- app_assoc. split; [reflexivity|].
      intros x [<-|Hx]; [now left|right; now apply Hin].
Qed.

Lemma deleted_filter (ids : list string) :
  forall s : list string,
    fold_left (fun s id => Set_delete id s) ids s
    = filter (fun y => negb (Set_has ids y)) s.
Proof.
  induction ids as [|id ids IH]; intros s.
  - cbn. symmetry. apply filter_keeps_all. reflexivity.
  - cbn [fold_left]. rewrite IH. unfold Set_delete.
    induction s as [|z s IHs]; [reflexivity|].
    cbn [filter Set_has existsb].
    destruct (String.eqb_spec z id) as [->|Hz]; cbn [negb orb].
    + exact IHs.
    + cbn [filter]. fold (Set_has ids z).
      destruct (Set_has ids z); cbn [negb]; [exact IHs|now rewrite IHs].
Qed.

(** X11.  Marking orders as packed and then unmarking the same orders
    leaves the packed set as it was, element for element and in the same
    order, when none of them was packed before. *)
Theorem mark_then_unmark_restores
        (ids packedOrderIds selectedOrders selectedOrders' : list string) :
  (forall id, In id ids -> ~ In id packedOrderIds) ->
  fst (togglePackedStatus
         ids false
         (fst (togglePackedStatus ids true packedOrderIds selectedOrders))
         selectedOrders')
  = packedOrderIds.
Proof.
  intros Hfresh. unfold togglePackedStatus. cbn [fst].
  destruct (added_extends ids packedOrderIds) as (extra & Heq & Hin).
  change (fun (s : list string) (id : string) => Set_add id s)
    with (fun (s : list string) (id : string) =>
            if true then Set_add id s else Set_delete id s) in Heq.
  rewrite Heq.
  change (fun (s : list string) (id : string) =>
            if false then Set_add id s else Set_delete id s)
    with (fun (s : list string) (id : string) => Set_delete id s).
  rewrite deleted_filter, filter_app.
  rewrite (filter_drops_all _ extra).
  - rewrite app_nil_r. apply filter_keeps_all.
    intros y Hy. destruct (Set_has ids y) eqn:Hh; [|reflexivity].
    apply Set_has_In in Hh. exfalso. exact (Hfresh y Hh Hy).
  - intros y Hy. apply Hin, Set_has_In in Hy. now rewrite Hy.
Qed.

Lemma mark_then_unmark_restores_witness :
  fst (togglePackedStatus
         ["p-2"; "p-5"; "p-2"] false
         (fst (togglePackedStatus ["p-2"; "p-5"; "p-2"] true
                                  ["p-9"; "p-1"] ["p-2"]))
         [])
  = ["p-9"; "p-1"]%string.
Proof.
  apply (mark_then_unmark_restores ["p-2"; "p-5"; "p-2"]%string).
  intros id Hid Hin. simpl in Hid, Hin.
  repeat (destruct Hid as [<-|Hid];
          [repeat (destruct Hin as [Hin|Hin]; [discriminate|]);
           destruct Hin|]).
  destruct Hid.
Defined.

Lemma togglePackedStatus_members_witness :
  NoDup (fst (togglePackedStatus ["p-2"; "p-2"] true ["p-9"] ["p-2"])).
Proof.
  apply (proj1 (proj2 (togglePackedStatus_members
                         ["p-2"; "p-2"]%string true ["p-9"]%string
                         ["p-2"]%string))).
  repeat constructor. intros [].
Defined.

Lemma filter_length_all {A : Type} (f : A -> bool) (l : list A) :
  (forall x, In x l -> f x = true) ->
  List.length (filter f l) = List.length l.
Proof. intros H. now rewrite filter_keeps_all. Qed.

(** X12.  After all orders of a group are marked as packed the group
    counts no unpacked order, and after they are unmarked it counts no
    packed one, whatever was packed before. *)
Theorem group_counts_after_marking
        (group : Group) (packedOrderIds selectedOrders : list string) :
  let ids := map posting_number (orders group) in
  let allPacked :=
    fst (togglePackedStatus ids true packedOrderIds selectedOrders) in
  let nonePacked :=
    fst (togglePackedStatus ids false packedOrderIds selectedOrders) in
  unpackedCount allPacked group = 0
  /\ packedCount allPacked group = Z.of_nat (List.length (orders group))
  /\ packedCount nonePacked group = 0
  /\ unpackedCount nonePacked group = Z.of_nat (List.length (orders group)).
Proof.
  cbv zeta.
  assert (Hin : forall o, In o (orders group) ->
                          Set_has (map posting_number (orders group))
                                  (posting_number o) = true)
    by (intros o Ho; apply Set_has_In; now apply in_map).
  assert (Hall : packedCount
                   (fst (togglePackedStatus
                           (map posting_number (orders group)) true
                           packedOrderIds selectedOrders)) group
                 = Z.of_nat (List.length (orders group))).
  { unfold packedCount. f_equal. apply filter_length_all. intros o Ho.
    rewrite toggled_members, (Hin o Ho). apply orb_true_r. }
  assert (Hnone : packedCount
                    (fst (togglePackedStatus
                            (map posting_number (orders group)) false
                            packedOrderIds selectedOrders)) group
                  = 0).
  { unfold packedCount. rewrite filter_drops_all; [reflexivity|].
    intros o Ho. rewrite toggled_members, (Hin o Ho). apply andb_false_r. }
  unfold unpackedCount. rewrite Hall, Hnone. repeat split; lia.
Qed.

(** X13.  [toggleSelect] flips the selection of the one order and of no
    other, and a selection without repetitions stays without. *)
Theorem toggleSelect_flips_one (id : string) (selectedOrders : list string) :
  (forall y : string,
      Set_has (toggleSelect id selectedOrders) y
      = xorb (Set_has selectedOrders y) (String.eqb y id))
  /\ (NoDup selectedOrders -> NoDup (toggleSelect id selectedOrders)).
Proof.
  unfold toggleSelect. split.
  - intros y. destruct (Set_has selectedOrders id) eqn:Hid.
    + rewrite Set_has_delete. destruct (String.eqb_spec y id) as [->|_].
      * rewrite Hid. reflexivity.
      * cbn. now rewrite andb_true_r, xorb_false_r.
    + rewrite Set_has_add. destruct (String.eqb_spec y id) as [->|_].
      * rewrite Hid. reflexivity.
      * now rewrite orb_false_r, xorb_false_r.
  - intros Hnd. destruct (Set_has selectedOrders id).
    + now apply Set_delete_NoDup.
    + now apply Set_add_NoDup.
Qed.

Lemma toggleSelect_flips_one_witness :
  NoDup (toggleSelect "p-2" ["p-1"; "p-2"; "p-3"]).
Proof.
  apply (proj2 (toggleSelect_flips_one "p-2" ["p-1"; "p-2"; "p-3"]%string)).
  repeat constructor; simpl; intuition discriminate.
Defined.

Lemma Set_from_firstEncountered (xs : list string) :
  Set_from xs = firstEncountered xs.
Proof.
  unfold Set_from. induction xs as [|x xs IH] using rev_ind; [reflexivity|].
  rewrite fold_left_app. cbn [fold_left]. rewrite IH. unfold Set_add.
  destruct (Set_has (firstEncountered xs) x) eqn:Hx.
  - apply Set_has_In in Hx. apply (proj1 (firstEncountered_In _ _)) in Hx.
    now rewrite firstEncountered_seen.
  - rewrite firstEncountered_new; [reflexivity|]. intros Hin.
    apply (proj2 (firstEncountered_In _ _)) in Hin.
    apply Set_has_In in Hin. congruence.
Qed.

Lemma nodup_length_le (l : list string) :
  (List.length (nodup string_dec l) <= List.length l)%nat.
Proof.
  induction l as [|a l IH]; [apply Nat.le_refl|]. cbn [nodup].
  destruct (in_dec string_dec a l); cbn [List.length]; lia.
Qed.

Lemma nodup_length_NoDup (l : list string) :
  List.length (nodup string_dec l) = List.length l <-> NoDup l.
Proof.
  split.
  - induction l as [|a l IH]; [constructor|]. cbn [nodup].
    destruct (in_dec string_dec a l) as [Hin|Hn]; cbn [List.length].
    + intros Hlen. pose proof (nodup_length_le l). lia.
    + intros Hlen. constructor; [assumption|]. apply IH. lia.
  - intros Hnd. now rewrite nodup_fixed_point.
Qed.

Lemma Set_from_length (xs : list string) :
  List.length (Set_from xs) = List.length xs <-> NoDup xs.
Proof.
  rewrite Set_from_firstEncountered. unfold firstEncountered.
  rewrite length_rev. rewrite <- (length_rev xs).
  rewrite nodup_length_NoDup. split; intros H.
  - rewrite <- (rev_involutive xs). now apply NoDup_rev.
  - now apply NoDup_rev.
Qed.

(** X14.  Select all, starting from an empty selection, selects the
    posting number of every order, each once and in the order of the
    list; a second select all clears the selection exactly when no two
    orders share a posting number, and otherwise leaves every order
    selected. *)
Theorem toggleSelectAll_twice (orders : list OzonPosting) :
  let all := toggleSelectAll orders [] in
  (forall y, Set_has all y = Set_has (map posting_number orders) y)
  /\ NoDup all
  /\ (toggleSelectAll orders all = [] <-> NoDup (map posting_number orders))
  /\ (~ NoDup (map posting_number orders) -> toggleSelectAll orders all = all).
Proof.
  cbv zeta.
  assert (Hall : toggleSelectAll orders []
                 = Set_from (map posting_number orders)).
  { unfold toggleSelectAll. destruct orders as [|o os]; reflexivity. }
  rewrite Hall. repeat split.
  - intros y. rewrite Set_from_firstEncountered.
    destruct (Set_has (map posting_number orders) y) eqn:Hy.
    + apply Set_has_In. apply firstEncountered_In. now apply Set_has_In.
    + apply not_true_is_false. intros Hin. apply Set_has_In in Hin.
      apply (proj1 (firstEncountered_In _ _)) in Hin.
      apply Set_has_In in Hin. congruence.
  - rewrite Set_from_firstEncountered. apply firstEncountered_NoDup.
  - unfold toggleSelectAll.
    destruct (Nat.eqb_spec
                (List.length (Set_from (map posting_number orders)))
                (List.length orders)) as [Hlen|Hlen].
    + intros _. apply Set_from_length. now rewrite length_map.
    + intros Hnil. destruct orders as [|o os]; [constructor|].
      exfalso. rewrite Set_from_firstEncountered in Hnil.
      assert (Hin : In (posting_number o)
                       (firstEncountered (map posting_number (o :: os))))
        by (apply firstEncountered_In; now left).
      rewrite Hnil in Hin. destruct Hin.
  - intros Hnd. unfold toggleSelectAll.
    destruct (Nat.eqb_spec
                (List.length (Set_from (map posting_number orders)))
                (List.length orders)) as [Hlen|Hlen]; [reflexivity|].
    exfalso. apply Hlen. apply (proj2 (Set_from_length _)) in Hnd.
    now rewrite length_map in Hnd.
  - intros Hdup. unfold toggleSelectAll.
    destruct (Nat.eqb_spec
                (List.length (Set_from (map posting_number orders)))
                (List.length orders)) as [Hlen|Hlen]; [|reflexivity].
    exfalso. apply Hdup. apply Set_from_length. now rewrite length_map.
Qed.

Lemma toggleSelectAll_twice_witness :
  toggleSelectAll [single "p-1" "a"; single "p-1" "b"]
                  (toggleSelectAll [single "p-1" "a"; single "p-1" "b"] [])
  = toggleSelectAll [single "p-1" "a"; single "p-1" "b"] [].
Proof.
  apply (proj2 (proj2 (proj2 (toggleSelectAll_twice
                                [single "p-1" "a"; single "p-1" "b"])))).
  intros Hnd. inversion Hnd as [|x l Hn _]. apply Hn. now left.
Defined.

End StateExtras.

(** ** Label downloads *)

Module LabelExtras.
Import JS Types OzonService Dashboard Labels GroupFacts TableFacts Samples
       LabelSamples.

Lemma labelRequests_app (a b : list LabelEvent) :
  labelRequests (a ++ b) = (labelRequests a ++ labelRequests b)%list.
Proof. apply flat_map_app. Qed.

Lemma savedFiles_app (a b : list LabelEvent) :
  savedFiles (a ++ b) = (savedFiles a ++ savedFiles b)%list.
Proof. apply flat_map_app. Qed.

Lemma downloadAlerts_app (a b : list LabelEvent) :
  downloadAlerts (a ++ b) = (downloadAlerts a + downloadAlerts b)%nat.
Proof. unfold downloadAlerts. now rewrite filter_app, length_app. Qed.

Lemma takeWhile_all {A : Type} (p : A -> bool) (l : list A) :
  (forall x, In x l -> p x = true) ->
  takeWhile p l = l /\ dropWhile p l = [] /\ forallb p l = true.
Proof.
  induction l as [|x l IH]; intros H; [now repeat split|].
  cbn [takeWhile dropWhile forallb]. rewrite (H x (or_introl eq_refl)).
  destruct IH as (H1 & H2 & H3); [intros y Hy; apply H; now right|].
  rewrite H1, H2, H3. now repeat split.
Qed.

Section Download.
Variable transport : LabelTransport.
Variable undefinedRead : Thrown.
Variable notCallable : Thrown.
Variable credsList : list OzonCredentials.
Variable orders : list OzonPosting.

(** *** The [groups] table *)

Lemma storeKeys_snoc (ids : list string) (id : string) :
  storeKeys credsList orders (ids ++ [id])
  = (storeKeys credsList orders ids
     ++ match storeOfId credsList orders id with
        | Some k => [k]
        | None => []
        end)%list.
Proof.
  unfold storeKeys. rewrite flat_map_app. cbn [flat_map].
  now rewrite app_nil_r.
Qed.

Lemma idsOfStore_snoc (ids : list string) (id k : string) :
  idsOfStore credsList orders (ids ++ [id]) k
  = (idsOfStore credsList orders ids k
     ++ match storeOfId credsList orders id with
        | Some k' => if String.eqb k' k then [id] else []
        | None => []
        end)%list.
Proof.
  unfold idsOfStore. rewrite filter_app. cbn [filter].
  destruct (storeOfId credsList orders id) as [k'|]; [|reflexivity].
  now destruct (String.eqb k' k).
Qed.

Lemma idsOfStore_absent (ids : list string) (k : string) :
  ~ In k (storeKeys credsList orders ids) ->
  idsOfStore credsList orders ids k = [].
Proof.
  intros Hn. induction ids as [|id ids IH]; [reflexivity|].
  unfold idsOfStore, storeKeys in *. cbn [filter flat_map] in *.
  destruct (storeOfId credsList orders id) as [k'|].
  - destruct (String.eqb_spec k' k) as [->|_].
    + exfalso. apply Hn. now left.
    + apply IH. intros Hin. apply Hn. now right.
  - apply IH. exact Hn.
Qed.

Lemma addId_step (ids : list string) (groups : Obj (list string))
      (id : string) :
  LabelTable credsList orders ids groups ->
  (forall k, storeOfId credsList orders id = Some k -> inherited k = false) ->
  exists groups',
    addId credsList orders groups id = Normal groups'
    /\ LabelTable credsList orders (ids ++ [id]) groups'.
Proof.
  intros [Hkeys Hall] Hsafe. unfold addId.
  destruct (storeOfId credsList orders id) as [k|] eqn:Hk.
  - destruct (getOwn groups k) as [storeIds|] eqn:Hget.
    + eexists. split; [reflexivity|].
      assert (Hin : In (k, storeIds) groups) by now apply getOwn_Some_In.
      assert (Hseen : In k (storeKeys credsList orders ids)).
      { apply firstEncountered_In. rewrite <- Hkeys.
        now apply (in_map fst) in Hin. }
      split.
      * rewrite (setOwn_present_keys _ _ storeIds) by assumption.
        rewrite storeKeys_snoc, Hk, firstEncountered_seen; assumption.
      * apply (Forall_setOwn
                 (fun kg => snd kg = idsOfStore credsList orders ids (fst kg))
                 _ _ _ storeIds); try assumption.
        -- rewrite Hkeys. apply firstEncountered_NoDup.
        -- cbn [fst snd]. rewrite idsOfStore_snoc, Hk, String.eqb_refl.
           rewrite Forall_forall in Hall. pose proof (Hall _ Hin) as Hs.
           cbn [fst snd] in Hs. now rewrite <- Hs.
        -- intros kg _ Hne Hkg. rewrite idsOfStore_snoc, Hk.
           destruct (String.eqb_spec k (fst kg)) as [Heq|_];
             [congruence|]. now rewrite app_nil_r.
    + rewrite (Hsafe k eq_refl). eexists. split; [reflexivity|].
      assert (Hnew : ~ In k (storeKeys credsList orders ids)).
      { rewrite <- firstEncountered_In, <- Hkeys.
        now apply getOwn_None_notin. }
      rewrite setOwn_absent by assumption. split.
      * rewrite map_app, Hkeys, storeKeys_snoc, Hk.
        now rewrite firstEncountered_new.
      * apply Forall_app. split.
        -- rewrite Forall_forall in *. intros kg Hin.
           rewrite idsOfStore_snoc, Hk.
           destruct (String.eqb_spec k (fst kg)) as [Heq|_].
           ++ exfalso. apply (getOwn_None_notin _ _ Hget). rewrite Heq.
              now apply in_map.
           ++ rewrite app_nil_r. now apply Hall.
        -- constructor; [|constructor]. cbn [fst snd].
           rewrite idsOfStore_snoc, Hk, String.eqb_refl.
           now rewrite (idsOfStore_absent _ _ Hnew).
  - exists groups. split; [reflexivity|]. split.
    + now rewrite storeKeys_snoc, Hk, app_nil_r.
    + eapply Forall_impl; [|exact Hall]. intros kg Hkg. cbv beta in *.
      now rewrite idsOfStore_snoc, Hk, app_nil_r.
Qed.

Lemma forEach_addId (ids2 : list string) :
  forall (ids1 : list string) (groups : Obj (list string)),
    LabelTable credsList orders ids1 groups ->
    (forall id k, In id ids2 -> storeOfId credsList orders id = Some k ->
                  inherited k = false) ->
    exists groups',
      forEach (addId credsList orders) ids2 groups = Normal groups'
      /\ LabelTable credsList orders (ids1 ++ ids2) groups'.
Proof.
  induction ids2 as [|id ids2 IH]; intros ids1 groups Htable Hsafe.
  - exists groups. rewrite app_nil_r. now split.
  - destruct (addId_step ids1 groups id Htable) as (g1 & Hstep & Ht1).
    { intros k. apply Hsafe. now left. }
    destruct (IH (ids1 ++ [id])%list g1 Ht1) as (g2 & Hrest & Ht2).
    { intros id' k Hin. apply Hsafe. now right. }
    exists g2. split.
    + cbn [forEach]. rewrite Hstep. exact Hrest.
    + now rewrite <- app_assoc in Ht2.
Qed.

Lemma label_table (ids : list string) :
  (forall id k, In id ids -> storeOfId credsList orders id = Some k ->
                inherited k = false) ->
  exists groups,
    forEach (addId credsList orders) ids [] = Normal groups
    /\ LabelTable credsList orders ids groups.
Proof.
  intros Hsafe. apply (forEach_addId ids [] []); [|assumption].
  split; [reflexivity|constructor].
Qed.

Lemma unsafe_id_throws (ids : list string) :
  existsb (fun id => match storeOfId credsList orders id with
                     | Some k => inherited k
                     | None => false
                     end) ids = true ->
  forEach (addId credsList orders) ids [] = TypeError.
Proof.
  intros Hex.
  destruct (first_match _ _ Hex) as (before & id & after & -> & Hid & Hb).
  destruct (storeOfId credsList orders id) as [k|] eqn:Hk; [|discriminate].
  destruct (label_table before) as (tbl & Hrun & Hkeys & _).
  { intros id' k' Hin Hk'. specialize (Hb id' Hin). now rewrite Hk' in Hb. }
  rewrite forEach_app, Hrun. cbn [bind forEach].
  assert (Hstep : addId credsList orders tbl id = TypeError).
  { unfold addId. rewrite Hk, getOwn_absent, Hid; [reflexivity|].
    rewrite Hkeys. intros Hin.
    apply (proj1 (firstEncountered_In _ _)) in Hin.
    unfold storeKeys in Hin.
    apply (proj1 (in_flat_map _ _ _)) in Hin as (id' & Hin' & Hk').
    specialize (Hb id' Hin').
    destruct (storeOfId credsList orders id') as [k'|]; [|destruct Hk'].
    destruct Hk' as [->|[]]. congruence. }
  now rewrite Hstep.
Qed.

(** The entries of the table in the order of the download loop. *)
Lemma table_entries (ids : list string) (groups : Obj (list string)) :
  LabelTable credsList orders ids groups ->
  ownEntries groups
  = map (fun k => (k, idsOfStore credsList orders ids k))
        (enumerationOrder
           (firstEncountered (storeKeys credsList orders ids))).
Proof.
  intros [Hkeys Hall]. rewrite <- Hkeys, <- Object_keys_order.
  unfold Object_keys. rewrite map_map.
  assert (Hentries : Forall (fun kg => snd kg
                                       = idsOfStore credsList orders ids
                                                    (fst kg))
                            (ownEntries groups)).
  { rewrite Forall_forall in *. intros kg Hin. apply Hall.
    exact (Permutation_in _ (ownEntries_perm groups) Hin). }
  induction Hentries as [|[k v] l Hkv _ IH]; [reflexivity|].
  cbn [map fst snd] in *. now rewrite <- Hkv, <- IH.
Qed.

(** *** One label request *)

Lemma pick_some (target : option string) :
  credsList <> [] ->
  exists cred,
    pickCredential credsList target = Some cred /\ In cred credsList.
Proof.
  intros Hne. unfold pickCredential.
  destruct (match target with
            | Some t => find (fun c => String.eqb (clientId c) t) credsList
            | None => None
            end) as [cred|] eqn:Hfind.
  - exists cred. split; [reflexivity|].
    destruct target as [t|]; [|discriminate].
    now apply find_some in Hfind.
  - destruct credsList as [|first rest]; [congruence|].
    exists first. split; [reflexivity|now left].
Qed.

Lemma fetch_events (storeIds : list string) (target : option string) :
  credsList <> [] ->
  let result :=
    fetchPackageLabel transport undefinedRead credsList storeIds target in
  exists cred,
    pickCredential credsList target = Some cred
    /\ labelRequests (snd result) = [(cred, storeIds)]
    /\ savedFiles (snd result) = []
    /\ downloadAlerts (snd result) = 0%nat
    /\ filter isFlag (snd result) = []
    /\ (forall e, fst result = RejectedWith e ->
                  In (LabelConsoleError e) (snd result)).
Proof.
  intros Hne. cbv zeta.
  destruct (pick_some target Hne) as (cred & Hpick & _).
  exists cred. split; [exact Hpick|].
  unfold fetchPackageLabel. rewrite Hpick.
  destruct (transport cred storeIds) as [[status json text|[blob|e]]|e];
    cbn [fst snd]; repeat split; try reflexivity;
    intros e' [= <-]; right; now left.
Qed.

(** *** The download loop *)

Lemma downloadAll_stores (idsOf : string -> list string)
      (stores : list string) :
  credsList <> [] ->
  let delivered := fun k =>
    isFulfilled
      (fst (fetchPackageLabel transport undefinedRead credsList
                              (idsOf k) (Some k))) in
  let attempted :=
    (takeWhile delivered stores
     ++ firstn 1 (dropWhile delivered stores))%list in
  let events :=
    downloadAll transport undefinedRead credsList
                (map (fun k => (k, idsOf k)) stores) in
  map fst (savedFiles events) = takeWhile delivered stores
  /\ map snd (labelRequests events) = map idsOf attempted
  /\ map (fun req => Some (fst req)) (labelRequests events)
     = map (fun k => pickCredential credsList (Some k)) attempted
  /\ downloadAlerts events = (if forallb delivered stores then 0 else 1)%nat
  /\ filter isFlag events = [].
Proof.
  intros Hne. cbv zeta.
  induction stores as [|k stores IH]; [now repeat split|].
  cbn [map downloadAll takeWhile dropWhile forallb].
  destruct (fetch_events (idsOf k) (Some k) Hne)
    as (cred & Hpick & Hreq & Hsaved & Halerts & Hflags & _).
  destruct (fetchPackageLabel transport undefinedRead credsList
                              (idsOf k) (Some k)) as [[blob|e] events].
  - cbn [fst snd isFulfilled andb] in *.
    destruct IH as (IH1 & IH2 & IH3 & IH4 & IH5).
    rewrite savedFiles_app, labelRequests_app, downloadAlerts_app,
      filter_app, Hreq, Hsaved, Halerts, Hflags.
    cbn [savedFiles labelRequests flat_map downloadAlerts filter isFlag
         app map fst snd List.length] in *.
    fold (savedFiles
            (downloadAll transport undefinedRead credsList
                         (map (fun k => (k, idsOf k)) stores))).
    fold (labelRequests
            (downloadAll transport undefinedRead credsList
                         (map (fun k => (k, idsOf k)) stores))).
    rewrite IH1, IH2, IH3, IH5, Hpick.
    repeat split. exact IH4.
  - cbn [fst snd isFulfilled andb firstn app] in *.
    rewrite savedFiles_app, labelRequests_app, downloadAlerts_app,
      filter_app, Hreq, Hsaved, Halerts, Hflags.
    cbn -[pickCredential]. rewrite Hpick. repeat split.
Qed.

Lemma downloadAll_bounds (entries : list (string * list string)) :
  credsList <> [] ->
  filter isFlag (downloadAll transport undefinedRead credsList entries) = []
  /\ (downloadAlerts (downloadAll transport undefinedRead credsList entries)
      <= 1)%nat.
Proof.
  intros Hne. induction entries as [|[k storeIds] entries [IH1 IH2]];
    [split; [reflexivity|apply Nat.le_0_1]|].
  cbn [downloadAll].
  destruct (fetch_events storeIds (Some k) Hne)
    as (cred & _ & _ & _ & Halerts & Hflags & _).
  destruct (fetchPackageLabel transport undefinedRead credsList
                              storeIds (Some k)) as [[blob|e] events];
    cbn [fst snd] in *; rewrite filter_app, downloadAlerts_app,
                          Hflags, Halerts.
  - split; [exact IH1|exact IH2].
  - split; [reflexivity|apply Nat.le_refl].
Qed.

(** The events of a download whose table could be built. *)
Lemma handle_events (ids : list string) :
  credsList <> [] ->
  ids <> [] ->
  (forall id k, In id ids -> storeOfId credsList orders id = Some k ->
                inherited k = false) ->
  let events :=
    handleDownloadLabels transport undefinedRead notCallable
                         credsList orders ids in
  let loop :=
    downloadAll transport undefinedRead credsList
                (map (fun k => (k, idsOfStore credsList orders ids k))
                     (enumerationOrder
                        (firstEncountered
                           (storeKeys credsList orders ids)))) in
  events = (SetDownloading true :: loop ++ [SetDownloading false])%list
  /\ labelRequests events = labelRequests loop
  /\ savedFiles events = savedFiles loop
  /\ downloadAlerts events = downloadAlerts loop.
Proof.
  intros Hcreds Hids Hsafe events loop.
  destruct (label_table ids Hsafe) as (groups & Hrun & Ht).
  pose proof (table_entries _ _ Ht) as Hentries.
  assert (Hevents : events
                    = (SetDownloading true
                       :: loop ++ [SetDownloading false])%list).
  { unfold events, loop, handleDownloadLabels.
    destruct credsList as [|c cs]; [congruence|].
    destruct ids as [|i rest]; [congruence|].
    now rewrite Hrun, Hentries. }
  split; [exact Hevents|]. rewrite Hevents.
  change (SetDownloading true :: loop ++ [SetDownloading false])%list
    with ([SetDownloading true] ++ loop ++ [SetDownloading false])%list.
  rewrite !labelRequests_app, !savedFiles_app, !downloadAlerts_app.
  cbn [labelRequests savedFiles downloadAlerts flat_map filter app
       List.length].
  rewrite !app_nil_r. repeat split. lia.
Qed.

End Download.



Section Properties.
Variable transport : LabelTransport.
Variable undefinedRead : Thrown.
Variable notCallable : Thrown.

(** X15.  With credentials, ids whose stores do not name a member of
    [Object.prototype], and label requests that all succeed, every id is
    requested exactly once: one request per store, for the ids of that
    store in the order given, signed with the credential chosen for the
    store; the stores come in the enumeration order of the table
    (numeric store ids first, ascending) and one file is saved per
    store; no alert is raised. *)
Theorem labels_cover_every_id_once
        (credsList : list OzonCredentials) (orders : list OzonPosting)
        (ids : list string) :
  let stores :=
    enumerationOrder (firstEncountered (storeKeys credsList orders ids)) in
  let events :=
    handleDownloadLabels transport undefinedRead notCallable
                         credsList orders ids in
  credsList <> [] ->
  ids <> [] ->
  (forall id k, In id ids -> storeOfId credsList orders id = Some k ->
                inherited k = false) ->
  (forall k, In k stores ->
             isFulfilled
               (fst (fetchPackageLabel
                       transport undefinedRead credsList
                       (idsOfStore credsList orders ids k) (Some k)))
             = true) ->
  map snd (labelRequests events)
  = map (idsOfStore credsList orders ids) stores
  /\ map (fun req => Some (fst req)) (labelRequests events)
     = map (fun k => pickCredential credsList (Some k)) stores
  /\ map fst (savedFiles events) = stores
  /\ downloadAlerts events = 0%nat
  /\ Permutation (flat_map snd (labelRequests events)) ids.
Proof.
  intros stores events Hcreds Hids Hsafe Hok.
  destruct (handle_events transport undefinedRead notCallable
                          credsList orders ids Hcreds Hids Hsafe)
    as (_ & Hreqs & Hfiles & Halerts).
  fold events stores in Hreqs, Hfiles, Halerts.
  destruct (downloadAll_stores transport undefinedRead credsList
                               (idsOfStore credsList orders ids) stores
                               Hcreds)
    as (H1 & H2 & H3 & H4 & _).
  destruct (takeWhile_all _ _ Hok) as (Htake & Hdrop & Hall).
  rewrite Htake in H1, H2, H3. rewrite Hdrop in H2, H3. rewrite Hall in H4.
  cbn [firstn] in H2, H3. rewrite app_nil_r in H2, H3.
  rewrite Hreqs, Hfiles, Halerts. repeat split; try assumption.
  assert (Hflat : flat_map snd
                    (labelRequests
                       (downloadAll
                          transport undefinedRead credsList
                          (map (fun k => (k, idsOfStore credsList orders ids k))
                               stores)))
                  = flat_map (idsOfStore credsList orders ids) stores).
  { rewrite !flat_map_concat_map. now rewrite H2. }
  rewrite Hflat.
  eapply perm_trans.
  - apply (partition_by_keys
             (fun k id => match storeOfId credsList orders id with
                          | Some k' => String.eqb k' k
                          | None => false
                          end)).
    + intros id k k' Hk Hk'.
      destruct (storeOfId credsList orders id) as [k0|]; [|discriminate].
      apply String.eqb_eq in Hk, Hk'. congruence.
    + unfold stores, enumerationOrder.
      eapply Permutation_NoDup; [|apply firstEncountered_NoDup].
      apply Permutation_sym.
      eapply perm_trans;
        [|apply (partition_perm isIndex)].
      apply Permutation_app_tail, SortFacts.Array_sort_perm.
  - rewrite filter_keeps_all; [apply Permutation_refl|].
    intros id Hid.
    destruct credsList as [|c cs]; [congruence|].
    assert (Hsome : exists k, storeOfId (c :: cs) orders id = Some k).
    { unfold storeOfId.
      destruct (match orderById orders id with
                | Some order =>
                    match posting_clientId order with
                    | Some EmptyString => None
                    | other => other
                    end
                | None => None
                end); eexists; reflexivity. }
    destruct Hsome as [k Hk]. apply existsb_exists. exists k. split.
    + unfold stores, enumerationOrder. apply in_or_app.
      assert (Hin : In k (firstEncountered
                            (storeKeys (c :: cs) orders ids))).
      { apply firstEncountered_In. unfold storeKeys. apply in_flat_map.
        exists id. split; [assumption|]. rewrite Hk. now left. }
      destruct (isIndex k) eqn:Hidx.
      * left. apply SortFacts.Array_sort_In. apply filter_In. now split.
      * right. apply filter_In. split; [assumption|]. now rewrite Hidx.
    + rewrite Hk. apply String.eqb_refl.
Qed.

(** X16.  The download loop stops at the first store whose label request
    fails: files are saved for the stores before it and for no other,
    requests are sent for those stores and the failing one and for none
    after it, and one alert is raised; without a failing store no alert
    is raised. *)
Theorem download_stops_at_first_failure
        (credsList : list OzonCredentials) (orders : list OzonPosting)
        (ids : list string) :
  let stores :=
    enumerationOrder (firstEncountered (storeKeys credsList orders ids)) in
  let delivered := fun k =>
    isFulfilled
      (fst (fetchPackageLabel transport undefinedRead credsList
                              (idsOfStore credsList orders ids k)
                              (Some k))) in
  let events :=
    handleDownloadLabels transport undefinedRead notCallable
                         credsList orders ids in
  credsList <> [] ->
  ids <> [] ->
  (forall id k, In id ids -> storeOfId credsList orders id = Some k ->
                inherited k = false) ->
  map fst (savedFiles events) = takeWhile delivered stores
  /\ map snd (labelRequests events)
     = map (idsOfStore credsList orders ids)
           (takeWhile delivered stores
            ++ firstn 1 (dropWhile delivered stores))
  /\ downloadAlerts events
     = (if forallb delivered stores then 0 else 1)%nat.
Proof.
  intros stores delivered events Hcreds Hids Hsafe.
  destruct (handle_events transport undefinedRead notCallable
                          credsList orders ids Hcreds Hids Hsafe)
    as (_ & Hreqs & Hfiles & Halerts).
  fold events stores in Hreqs, Hfiles, Halerts.
  destruct (downloadAll_stores transport undefinedRead credsList
                               (idsOfStore credsList orders ids) stores
                               Hcreds)
    as (H1 & H2 & _ & H4 & _).
  rewrite Hreqs, Hfiles, Halerts. repeat split; assumption.
Qed.

(** X17.  A download does nothing at all without credentials or without
    ids.  Otherwise it sets the downloading flag first and resets it
    last, whatever happens in between, and raises at most one alert.
    When the store of some id names a member of [Object.prototype] no
    label is requested: the failure of the grouping is logged and
    alerted. *)
Theorem downloading_flag_is_reset
        (credsList : list OzonCredentials) (orders : list OzonPosting)
        (ids : list string) :
  let events :=
    handleDownloadLabels transport undefinedRead notCallable
                         credsList orders ids in
  (events = [] <-> credsList = [] \/ ids = [])
  /\ (credsList <> [] -> ids <> [] ->
      exists body,
        events = (SetDownloading true :: body ++ [SetDownloading false])%list
        /\ filter isFlag body = [])
  /\ (downloadAlerts events <= 1)%nat
  /\ (credsList <> [] ->
      (exists id k, In id ids /\ storeOfId credsList orders id = Some k
                    /\ inherited k = true) ->
      events = [SetDownloading true; DownloadConsoleError notCallable;
                DownloadAlert; SetDownloading false]).
Proof.
  cbv zeta. split; [|split; [|split]].
  - unfold handleDownloadLabels.
    destruct credsList as [|c cs]; [split; [now left|reflexivity]|].
    destruct ids as [|i rest]; [split; [now right|reflexivity]|].
    split; [discriminate|]. intros [H|H]; discriminate.
  - intros Hc Hi. unfold handleDownloadLabels.
    destruct credsList as [|c cs]; [congruence|].
    destruct ids as [|i rest]; [congruence|].
    destruct (forEach (addId (c :: cs) orders) (i :: rest) [])
      as [groups|].
    + eexists. split; [reflexivity|].
      apply (downloadAll_bounds transport undefinedRead (c :: cs)).
      discriminate.
    + eexists. split; reflexivity.
  - unfold handleDownloadLabels.
    destruct credsList as [|c cs]; [apply Nat.le_0_1|].
    destruct ids as [|i rest]; [apply Nat.le_0_1|].
    change (SetDownloading true :: ?l)
      with ([SetDownloading true] ++ l)%list.
    destruct (forEach (addId (c :: cs) orders) (i :: rest) [])
      as [groups|].
    + rewrite !downloadAlerts_app.
      assert (Hb : (downloadAlerts
                      (downloadAll transport undefinedRead (c :: cs)
                                   (ownEntries groups)) <= 1)%nat)
        by (apply downloadAll_bounds; discriminate).
      cbn [downloadAlerts filter List.length] in *. lia.
    + apply Nat.le_refl.
  - intros Hc (id & k & Hin & Hk & Hinh). unfold handleDownloadLabels.
    destruct credsList as [|c cs]; [congruence|].
    destruct ids as [|i rest]; [destruct Hin|].
    rewrite (unsafe_id_throws (c :: cs) orders (i :: rest));
      [reflexivity|].
    apply existsb_exists. exists id. split; [assumption|]. now rewrite Hk.
Qed.


End Properties.

Lemma sample_stores_safe (id k : string) :
  In id labelIds ->
  storeOfId [store20; store3] labelOrders id = Some k ->
  inherited k = false.
Proof.
  intros Hin Hk. simpl in Hin.
  repeat (destruct Hin as [<-|Hin];
          [vm_compute in Hk; injection Hk as <-; reflexivity|]).
  destruct Hin.
Qed.

(** Store 3 is served before store 20; the orders of the store that is
    not configured and the order without a tag are requested from the
    first credential, as orders of the store the tag names. *)
Lemma labels_cover_every_id_once_witness :
  map snd
      (labelRequests
         (handleDownloadLabels labelsOk readOfUndefined pushIsNoFunction
                               [store20; store3] labelOrders labelIds))
  = [["l-2"]; ["l-1"; "l-3"; "l-5"]; ["l-4"]]%string.
Proof.
  rewrite (proj1 (labels_cover_every_id_once
                    labelsOk readOfUndefined pushIsNoFunction
                    [store20; store3] labelOrders labelIds
                    ltac:(discriminate) ltac:(discriminate)
                    sample_stores_safe
                    ltac:(intros k Hk; vm_compute in Hk;
                          repeat (destruct Hk as [<-|Hk];
                                  [reflexivity|]);
                          destruct Hk))).
  reflexivity.
Defined.

Lemma download_stops_at_first_failure_witness :
  map fst
      (savedFiles
         (handleDownloadLabels labelsFailFor20 readOfUndefined
                               pushIsNoFunction
                               [store20; store3] labelOrders labelIds))
  = ["3"]%string
  /\ downloadAlerts
       (handleDownloadLabels labelsFailFor20 readOfUndefined
                             pushIsNoFunction
                             [store20; store3] labelOrders labelIds)
     = 1%nat.
Proof.
  destruct (download_stops_at_first_failure
              labelsFailFor20 readOfUndefined pushIsNoFunction
              [store20; store3] labelOrders labelIds
              ltac:(discriminate) ltac:(discriminate) sample_stores_safe)
    as (Hfiles & _ & Halerts).
  split; [rewrite Hfiles|rewrite Halerts]; reflexivity.
Defined.

Lemma downloading_flag_is_reset_witness :
  handleDownloadLabels
    labelsOk readOfUndefined pushIsNoFunction
    [{| clientId := "valueOf"; apiKey := "key" |}] [] ["l-1"]
  = [SetDownloading true; DownloadConsoleError pushIsNoFunction;
     DownloadAlert; SetDownloading false].
Proof.
  apply (proj2 (proj2 (proj2 (downloading_flag_is_reset
                                labelsOk readOfUndefined pushIsNoFunction
                                [{| clientId := "valueOf"; apiKey := "key" |}]
                                [] ["l-1"]%string)))).
  - discriminate.
  - exists "l-1"%string, "valueOf"%string. repeat split. now left.
Defined.

(** Two credentials of one store: the first one signs. *)
Example first_of_two_credentials_signs :
  labelRequests
    (snd (fetchPackageLabel labelsOk readOfUndefined
                            [store3; store20;
                             {| clientId := "20"; apiKey := "second" |}]
                            ["l-1"] (Some "20")))
  = [(store20, ["l-1"]%string)].
Proof. reflexivity. Qed.


End LabelExtras.

(** ** The settings form *)

Module SettingsExtras.
Import JS Types Settings SettingsSamples.



Lemma threeByteSpace_high (a b c : ascii) :
  threeByteSpace (byte a) (byte b) (byte c) = true ->
  high a = true /\ high b = true /\ high c = true.
Proof.
  unfold threeByteSpace, high.
  rewrite !orb_true_iff, !andb_true_iff, !orb_true_iff, !andb_true_iff,
    !N.eqb_eq, !N.leb_le.
  intros H. repeat split; lia.
Qed.


Lemma spaceLength_head (s : string) : SpaceHead s.
Proof.
  destruct s as [|a r]; [now apply NoSpace|].
  destruct (asciiSpace a) eqn:Ha.
  { apply (OneByte _ a r); [reflexivity|assumption|].
    cbn [spaceLength]. now rewrite Ha. }
  destruct r as [|b r]; [apply NoSpace; cbn; now rewrite Ha|].
  destruct ((byte a =? 194) && (byte b =? 160))%N eqn:H2.
  - pose proof H2 as H2'.
    apply andb_true_iff in H2' as [H2a H2b].
    apply N.eqb_eq in H2a, H2b.
    apply (TwoBytes _ a b r); try assumption; try reflexivity.
    + unfold high. apply N.leb_le. lia.
    + unfold high. apply N.leb_le. lia.
    + intros r'. cbn [spaceLength]. now rewrite Ha, H2.
  - destruct r as [|c r]; [apply NoSpace; cbn [spaceLength]; now rewrite Ha, H2|].
    destruct (threeByteSpace (byte a) (byte b) (byte c)) eqn:H3.
    + destruct (threeByteSpace_high _ _ _ H3) as (Ha' & Hb' & Hc').
      apply (ThreeBytes _ a b c r); try assumption; try reflexivity.
      intros r'. cbn [spaceLength]. now rewrite Ha, H2, H3.
    + apply NoSpace. cbn [spaceLength]. now rewrite Ha, H2, H3.
Qed.

Lemma string_strong_ind (P : string -> Prop) :
  (forall s, (forall t, (String.length t < String.length s)%nat -> P t) -> P s) ->
  forall s, P s.
Proof.
  intros H s.
  assert (Hn : forall n t, (String.length t < n)%nat -> P t).
  { induction n as [|n IH]; intros t Ht; [lia|].
    apply H. intros u Hu. apply IH. lia. }
  apply (Hn (S (String.length s))). lia.
Qed.

Lemma trimStart_eq (s : string) :
  trimStart s
  = match spaceLength s, s with
    | 1, String _ r => trimStart r
    | 2, String _ (String _ r) => trimStart r
    | 3, String _ (String _ (String _ r)) => trimStart r
    | _, _ => s
    end%nat.
Proof. destruct s; reflexivity. Qed.

Lemma allSpace_eq (s : string) :
  allSpace s
  = match s with
    | EmptyString => true
    | String _ r1 =>
        match spaceLength s, r1 with
        | 1, _ => allSpace r1
        | 2, String _ r2 => allSpace r2
        | 3, String _ (String _ r3) => allSpace r3
        | _, _ => false
        end%nat
    end.
Proof. destruct s; reflexivity. Qed.

Lemma splitFrom_eq (inSep : bool) (s : string) :
  splitFrom inSep s
  = match s with
    | EmptyString => [EmptyString]
    | String c r1 =>
        match sepLength s, r1 with
        | 0, _ => extend c (splitFrom false r1)
        | 1, _ => close inSep (splitFrom true r1)
        | 2, String _ r2 => close inSep (splitFrom true r2)
        | 3, String _ (String _ r3) => close inSep (splitFrom true r3)
        | _, _ => []
        end%nat
    end.
Proof. destruct s; reflexivity. Qed.

(** *** Bytes kept *)

Lemma allBytes_trimStart (P : ascii -> bool) (s : string) :
  allBytes P s = true -> allBytes P (trimStart s) = true.
Proof.
  induction s as [s IH] using string_strong_ind. intros Hs.
  rewrite trimStart_eq.
  destruct (spaceLength_head s)
    as [H0|a r -> Ha H1|a b r -> Ha _ _ H2|a b c r -> Ha _ _ _ H3].
  - rewrite H0. assumption.
  - rewrite H1. apply IH; [cbn; lia|].
    cbn in Hs. now apply andb_true_iff in Hs as [_ Hs].
  - rewrite H2. apply IH; [cbn; lia|].
    cbn in Hs. rewrite !andb_true_iff in Hs. tauto.
  - rewrite H3. apply IH; [cbn; lia|].
    cbn in Hs. rewrite !andb_true_iff in Hs. tauto.
Qed.

Lemma allBytes_trimEnd (P : ascii -> bool) (s : string) :
  allBytes P s = true -> allBytes P (trimEnd s) = true.
Proof.
  induction s as [|c r IH]; [reflexivity|]. intros Hs.
  cbn [trimEnd]. destruct (allSpace (String c r)); [reflexivity|].
  cbn in *. apply andb_true_iff in Hs as [Hc Hr].
  now rewrite Hc, IH.
Qed.

Lemma allBytes_trim (P : ascii -> bool) (s : string) :
  allBytes P s = true -> allBytes P (trim s) = true.
Proof. intros H. now apply allBytes_trimEnd, allBytes_trimStart. Qed.

Lemma allBytes_removeQuotes (P : ascii -> bool) (s : string) :
  allBytes (fun c => P c || isQuote c) s = true ->
  allBytes (fun c => P c && negb (isQuote c)) (removeQuotes s) = true.
Proof.
  induction s as [|c r IH]; [reflexivity|]. cbn [allBytes removeQuotes].
  intros H. apply andb_true_iff in H as [Hc Hr].
  destruct (isQuote c) eqn:Hq; [now apply IH|].
  cbn [allBytes]. rewrite Hq, IH by assumption.
  rewrite orb_false_r in Hc. now rewrite Hc.
Qed.

Lemma sepLength_zero (c : ascii) (r : string) :
  sepLength (String c r) = 0%nat ->
  asciiSpace c = false /\ (byte c =? 44)%N = false.
Proof.
  cbn [sepLength spaceLength].
  destruct (byte c =? 44)%N; [discriminate|].
  destruct (asciiSpace c); [discriminate|]. now split.
Qed.

Lemma Forall_extend (Q : string -> Prop) (c : ascii) (parts : list string) :
  (forall t, Q t -> Q (String c t)) -> Q (String c EmptyString) ->
  Forall Q parts -> Forall Q (extend c parts).
Proof.
  intros Hc H1 Hall. destruct Hall as [|t ts Ht Hts]; cbn.
  - now constructor.
  - constructor; [now apply Hc|assumption].
Qed.

Lemma Forall_close (Q : string -> Prop) (inSep : bool) (parts : list string) :
  Q EmptyString -> Forall Q parts -> Forall Q (close inSep parts).
Proof. intros H0 Hall. destruct inSep; cbn; [assumption|now constructor]. Qed.

Lemma splitFrom_parts (P : ascii -> bool) (s : string) :
  forall inSep : bool,
    allBytes P s = true ->
    Forall (fun t => allBytes (fun c => P c && negb (asciiSpace c)
                                        && negb (byte c =? 44)%N) t = true)
           (splitFrom inSep s).
Proof.
  induction s as [s IH] using string_strong_ind. intros inSep Hs.
  rewrite splitFrom_eq. destruct s as [|c r1]; [now repeat constructor|].
  cbn [allBytes] in Hs. apply andb_true_iff in Hs as [Hc Hr1].
  destruct (sepLength (String c r1)) as [|[|[|[|n]]]] eqn:Hsep.
  - destruct (sepLength_zero _ _ Hsep) as [Hsp Hcomma].
    apply Forall_extend.
    + intros t Ht. cbn [allBytes]. now rewrite Hc, Hsp, Hcomma, Ht.
    + cbn [allBytes]. now rewrite Hc, Hsp, Hcomma.
    + apply IH; [cbn; lia|assumption].
  - apply Forall_close; [reflexivity|]. apply IH; [cbn; lia|assumption].
  - destruct r1 as [|b r2]; [constructor|].
    apply Forall_close; [reflexivity|]. apply IH; [cbn; lia|].
    cbn [allBytes] in Hr1. now apply andb_true_iff in Hr1 as [_ Hr].
  - destruct r1 as [|b [|c' r3]]; try constructor.
    apply Forall_close; [reflexivity|]. apply IH; [cbn; lia|].
    cbn [allBytes] in Hr1. rewrite !andb_true_iff in Hr1. tauto.
  - constructor.
Qed.

Lemma allBytes_impl (P Q : ascii -> bool) (s : string) :
  (forall c, P c = true -> Q c = true) ->
  allBytes P s = true -> allBytes Q s = true.
Proof.
  intros H. induction s as [|c r IH]; [reflexivity|]. cbn.
  intros Hs. apply andb_true_iff in Hs as [Hc Hr].
  now rewrite (H c Hc), IH.
Qed.

Lemma parseLine_tidy (line : string) (cred : OzonCredentials) :
  parseLine line = Some cred ->
  clientId cred <> EmptyString /\ apiKey cred <> EmptyString
  /\ allBytes tidy (clientId cred) = true
  /\ allBytes tidy (apiKey cred) = true.
Proof.
  unfold parseLine. cbv zeta.
  assert (Hclean : allBytes (fun c => true && negb (isQuote c))
                            (trim (removeQuotes line)) = true).
  { apply allBytes_trim, allBytes_removeQuotes.
    clear. induction line as [|c r IH]; [reflexivity|]. exact IH. }
  pose proof (splitFrom_parts _ _ false Hclean) as Hparts.
  destruct (splitFrom false (trim (removeQuotes line)))
    as [|part0 [|part1 parts]]; try discriminate.
  inversion Hparts as [|? ? H0 Hrest]; subst.
  inversion Hrest as [|? ? H1 _]; subst.
  assert (Htidy : forall t,
             allBytes (fun c => true && negb (isQuote c)
                                && negb (asciiSpace c)
                                && negb (byte c =? 44)%N) t = true ->
             allBytes tidy (trim t) = true).
  { intros t Ht. apply allBytes_trim. revert Ht. apply allBytes_impl.
    intros c. unfold tidy.
    destruct (isQuote c), (asciiSpace c), (byte c =? 44)%N;
      try discriminate; reflexivity. }
  pose proof (Htidy _ H0) as T0. pose proof (Htidy _ H1) as T1.
  destruct (trim part0) as [|a0 r0] eqn:E0; [discriminate|].
  destruct (trim part1) as [|a1 r1] eqn:E1; [discriminate|].
  intros [= <-]. cbn [clientId apiKey]. repeat split; try discriminate;
    assumption.
Qed.

(** *** Blank text *)

Lemma trimEnd_empty (s : string) :
  trimEnd s = EmptyString <-> allSpace s = true.
Proof.
  destruct s as [|c r]; [now split|]. cbn [trimEnd].
  destruct (allSpace (String c r)); split; congruence.
Qed.

Lemma allSpace_trimStart (s : string) :
  allSpace (trimStart s) = allSpace s.
Proof.
  induction s as [s IH] using string_strong_ind.
  rewrite trimStart_eq, (allSpace_eq s).
  destruct (spaceLength_head s)
    as [H0|a r -> Ha H1|a b r -> Ha _ _ H2|a b c r -> Ha _ _ _ H3].
  - rewrite H0. destruct s; [reflexivity|].
    rewrite allSpace_eq, H0. reflexivity.
  - rewrite H1. apply IH. cbn. lia.
  - rewrite H2. apply IH. cbn. lia.
  - rewrite H3. apply IH. cbn. lia.
Qed.

Lemma trim_empty (s : string) :
  trim s = EmptyString <-> allSpace s = true.
Proof. unfold trim. now rewrite trimEnd_empty, allSpace_trimStart. Qed.

Lemma high_not_quote (c : ascii) : high c = true -> isQuote c = false.
Proof.
  unfold high, isQuote. intros H. apply N.leb_le in H.
  apply orb_false_iff. split; apply N.eqb_neq; lia.
Qed.

Lemma high_not_newline (c : ascii) :
  high c = true -> Ascii.eqb c newline = false.
Proof.
  intros H. apply Ascii.eqb_neq. intros ->. discriminate H.
Qed.

Lemma asciiSpace_not_quote (c : ascii) :
  asciiSpace c = true -> isQuote c = false.
Proof.
  unfold asciiSpace, isQuote.
  rewrite orb_true_iff, andb_true_iff, N.eqb_eq, !N.leb_le.
  intros H. apply orb_false_iff. split; apply N.eqb_neq; lia.
Qed.

Lemma allSpace_removeQuotes (s : string) :
  allSpace s = true -> removeQuotes s = s.
Proof.
  induction s as [s IH] using string_strong_ind. rewrite allSpace_eq.
  destruct (spaceLength_head s)
    as [H0|a r -> Ha H1|a b r -> Ha Ha' Hb H2|a b c r -> Ha Ha' Hb Hc H3].
  - destruct s; [reflexivity|]. now rewrite H0.
  - rewrite H1. intros Hr. cbn [removeQuotes].
    rewrite (asciiSpace_not_quote _ Ha), IH; [reflexivity|cbn; lia|assumption].
  - rewrite H2. intros Hr. cbn [removeQuotes].
    rewrite (high_not_quote _ Ha'), (high_not_quote _ Hb), IH;
      [reflexivity|cbn; lia|assumption].
  - rewrite H3. intros Hr. cbn [removeQuotes].
    rewrite (high_not_quote _ Ha'), (high_not_quote _ Hb),
      (high_not_quote _ Hc), IH; [reflexivity|cbn; lia|assumption].
Qed.

Lemma parseLine_blank (line : string) :
  allSpace line = true -> parseLine line = None.
Proof.
  intros H. unfold parseLine. cbv zeta.
  rewrite (allSpace_removeQuotes _ H).
  now rewrite (proj2 (trim_empty line) H).
Qed.

Lemma allSpace_cons (a : ascii) (l : string) :
  asciiSpace a = true -> allSpace (String a l) = allSpace l.
Proof.
  intros Ha. rewrite allSpace_eq. cbn [spaceLength]. now rewrite Ha.
Qed.

Lemma allSpace_lines (s : string) :
  allSpace s = true ->
  Forall (fun line => allSpace line = true) (splitLines s).
Proof.
  induction s as [s IH] using string_strong_ind. rewrite allSpace_eq.
  destruct (spaceLength_head s)
    as [H0|a r -> Ha H1|a b r -> Ha Ha' Hb H2|a b c r -> Ha Ha' Hb Hc H3].
  - destruct s; [now repeat constructor|]. now rewrite H0.
  - rewrite H1. intros Hr.
    assert (Hlines := IH r ltac:(cbn; lia) Hr).
    cbn [splitLines]. destruct (Ascii.eqb a newline).
    + now constructor.
    + destruct Hlines as [|l ls Hl Hls].
      * constructor; [|constructor]. now rewrite allSpace_cons.
      * constructor; [|assumption]. now rewrite allSpace_cons.
  - rewrite H2. intros Hr.
    assert (Hlines := IH r ltac:(cbn; lia) Hr).
    cbn [splitLines].
    rewrite (high_not_newline _ Ha'), (high_not_newline _ Hb).
    destruct Hlines as [|l ls Hl Hls]; cbn.
    + constructor; [|constructor].
      rewrite allSpace_eq, H2. reflexivity.
    + constructor; [|assumption]. now rewrite allSpace_eq, H2.
  - rewrite H3. intros Hr.
    assert (Hlines := IH r ltac:(cbn; lia) Hr).
    cbn [splitLines].
    rewrite (high_not_newline _ Ha'), (high_not_newline _ Hb),
      (high_not_newline _ Hc).
    destruct Hlines as [|l ls Hl Hls]; cbn.
    + constructor; [|constructor].
      rewrite allSpace_eq, H3. reflexivity.
    + constructor; [|assumption]. now rewrite allSpace_eq, H3.
Qed.

Lemma blank_parses_nothing (text : string) :
  allSpace text = true -> parsedLines text = [] /\ parsedCount text = 0%nat.
Proof.
  intros H. pose proof (allSpace_lines _ H) as Hlines.
  unfold parsedLines, parsedCount.
  induction Hlines as [|l ls Hl _ [IH1 IH2]]; [now split|].
  cbn [flat_map filter]. rewrite (parseLine_blank _ Hl), IH1.
  rewrite (proj2 (trim_empty l) Hl). cbn. now split.
Qed.

Lemma parsed_le_counted (lines : list string) :
  (List.length
     (flat_map (fun line => match parseLine line with
                            | Some cred => [cred]
                            | None => []
                            end) lines)
   <= List.length
        (filter (fun line => negb (String.eqb (trim line) EmptyString))
                lines))%nat.
Proof.
  induction lines as [|l ls IH]; [apply Nat.le_refl|].
  cbn [flat_map filter]. rewrite length_app.
  destruct (String.eqb_spec (trim l) EmptyString) as [Hblank|Hfull].
  - apply trim_empty in Hblank. now rewrite (parseLine_blank _ Hblank).
  - cbn [negb List.length]. destruct (parseLine l); cbn; lia.
Qed.

(** *** Plain fields *)

Lemma plain_facts (c : ascii) :
  plain c = true ->
  asciiSpace c = false /\ isQuote c = false /\ (byte c =? 44)%N = false
  /\ Ascii.eqb c newline = false
  /\ forall r, spaceLength (String c r) = 0%nat.
Proof.
  destruct c as [[] [] [] [] [] [] [] []]; try discriminate; intros _;
    repeat split; intros [|b [|c r]]; reflexivity.
Qed.

Lemma plain_sepLength (c : ascii) (r : string) :
  plain c = true -> sepLength (String c r) = 0%nat.
Proof.
  intros H. destruct (plain_facts c H) as (_ & _ & Hcomma & _ & Hsp).
  cbn [sepLength]. now rewrite Hcomma, Hsp.
Qed.

Lemma plain_allSpace (c : ascii) (r : string) :
  plain c = true -> allSpace (String c r) = false.
Proof.
  intros H. destruct (plain_facts c H) as (_ & _ & _ & _ & Hsp).
  now rewrite allSpace_eq, Hsp.
Qed.

Lemma plain_trimStart (c : ascii) (r : string) :
  plain c = true -> trimStart (String c r) = String c r.
Proof.
  intros H. destruct (plain_facts c H) as (_ & _ & _ & _ & Hsp).
  now rewrite trimStart_eq, Hsp.
Qed.

Lemma plain_trimEnd (s : string) :
  allBytes plain s = true -> trimEnd s = s.
Proof.
  induction s as [|c r IH]; [reflexivity|]. cbn [allBytes trimEnd].
  intros H. apply andb_true_iff in H as [Hc Hr].
  now rewrite (plain_allSpace c r Hc), IH.
Qed.

Lemma plain_trim (s : string) : allBytes plain s = true -> trim s = s.
Proof.
  intros H. unfold trim. destruct s as [|c r]; [reflexivity|].
  cbn [allBytes] in H. pose proof H as H'.
  apply andb_true_iff in H' as [Hc _].
  rewrite (plain_trimStart c r Hc). now apply plain_trimEnd.
Qed.

Lemma plain_removeQuotes (s t : string) :
  allBytes plain s = true -> removeQuotes (s ++ t) = s ++ removeQuotes t.
Proof.
  induction s as [|c r IH]; [reflexivity|]. cbn [allBytes].
  intros H. apply andb_true_iff in H as [Hc Hr].
  destruct (plain_facts c Hc) as (_ & Hq & _).
  cbn [append removeQuotes]. now rewrite Hq, IH.
Qed.

Lemma plain_split (s : string) (inSep : bool) :
  allBytes plain s = true -> splitFrom inSep s = [s].
Proof.
  revert inSep. induction s as [|c r IH]; intros inSep H; [reflexivity|].
  cbn [allBytes] in H. apply andb_true_iff in H as [Hc Hr].
  rewrite splitFrom_eq, (plain_sepLength c r Hc).
  now rewrite (IH false Hr).
Qed.


Lemma line_split (x y : string) :
  allBytes plain x = true -> allBytes plain y = true ->
  splitFrom false (x ++ String space y) = [x; y].
Proof.
  intros Hx Hy. induction x as [|c r IH].
  - cbn [append]. rewrite splitFrom_eq.
    change (sepLength (String space y)) with 1%nat.
    now rewrite (plain_split y true Hy).
  - cbn [allBytes] in Hx. apply andb_true_iff in Hx as [Hc Hr].
    cbn [append]. rewrite splitFrom_eq, (plain_sepLength c _ Hc).
    now rewrite (IH Hr).
Qed.

Lemma line_trimEnd (x y : string) :
  allBytes plain x = true -> allBytes plain y = true ->
  y <> EmptyString ->
  trimEnd (x ++ String space y) = x ++ String space y.
Proof.
  intros Hx Hy Hne. induction x as [|c r IH].
  - cbn [append trimEnd]. rewrite (allSpace_cons space y eq_refl).
    destruct y as [|d y']; [congruence|].
    cbn [allBytes] in Hy. pose proof Hy as Hy'.
    apply andb_true_iff in Hy' as [Hd _].
    rewrite (plain_allSpace d y' Hd).
    now rewrite (plain_trimEnd (String d y')).
  - cbn [allBytes] in Hx. apply andb_true_iff in Hx as [Hc Hr].
    cbn [append trimEnd].
    rewrite (plain_allSpace c _ Hc). now rewrite (IH Hr).
Qed.

Lemma plainField_spec (s : string) :
  plainField s = true <-> s <> EmptyString /\ allBytes plain s = true.
Proof.
  unfold plainField. rewrite andb_true_iff, negb_true_iff.
  now rewrite String.eqb_neq.
Qed.

Lemma allBytes_app (P : ascii -> bool) (x y : string) :
  allBytes P (x ++ y) = allBytes P x && allBytes P y.
Proof.
  induction x as [|c r IH]; [reflexivity|]. cbn [append allBytes].
  now rewrite IH, andb_assoc.
Qed.

Lemma removeQuotes_none (s : string) :
  allBytes (fun c => negb (isQuote c)) s = true -> removeQuotes s = s.
Proof.
  induction s as [|c r IH]; [reflexivity|]. cbn [allBytes removeQuotes].
  intros H. apply andb_true_iff in H as [Hc Hr].
  apply negb_true_iff in Hc. now rewrite Hc, IH.
Qed.

Lemma parseLine_credentialLine (cred : OzonCredentials) :
  plainField (clientId cred) = true -> plainField (apiKey cred) = true ->
  parseLine (credentialLine cred) = Some cred
  /\ trim (credentialLine cred) <> EmptyString
  /\ allBytes (fun c => negb (Ascii.eqb c newline)) (credentialLine cred)
     = true.
Proof.
  destruct cred as [id key]. unfold credentialLine. cbn [clientId apiKey].
  intros Hid Hkey. apply plainField_spec in Hid as [Hid0 Hid].
  apply plainField_spec in Hkey as [Hkey0 Hkey].
  change (id ++ " " ++ key) with (id ++ String space key).
  assert (Htrim : trim (id ++ String space key) = id ++ String space key).
  { unfold trim. destruct id as [|c r]; [congruence|].
    cbn [allBytes] in Hid. pose proof Hid as Hid'.
    apply andb_true_iff in Hid' as [Hc _]. cbn [append].
    rewrite (plain_trimStart c _ Hc).
    now apply (line_trimEnd (String c r) key). }
  assert (Hall : forall P : ascii -> bool,
             (forall c, plain c = true -> P c = true) -> P space = true ->
             allBytes P (id ++ String space key) = true).
  { intros P HP Hs. rewrite allBytes_app. cbn [allBytes].
    rewrite Hs, (allBytes_impl plain P id HP Hid),
      (allBytes_impl plain P key HP Hkey). reflexivity. }
  repeat split.
  - unfold parseLine. cbv zeta.
    rewrite removeQuotes_none.
    + rewrite Htrim, (line_split id key Hid Hkey).
      rewrite (plain_trim id Hid), (plain_trim key Hkey).
      destruct id; [congruence|]. destruct key; [congruence|]. reflexivity.
    + apply Hall; [|reflexivity]. intros c Hc.
      destruct (plain_facts c Hc) as (_ & Hq & _). now rewrite Hq.
  - rewrite Htrim. destruct id; [congruence|discriminate].
  - apply Hall; [|reflexivity]. intros c Hc.
    destruct (plain_facts c Hc) as (_ & _ & _ & Hn & _). now rewrite Hn.
Qed.

Lemma splitLines_one (x : string) :
  allBytes (fun c => negb (Ascii.eqb c newline)) x = true ->
  splitLines x = [x].
Proof.
  induction x as [|c r IH]; [reflexivity|]. cbn [allBytes splitLines].
  intros H. apply andb_true_iff in H as [Hc Hr].
  apply negb_true_iff in Hc. now rewrite Hc, IH.
Qed.

Lemma splitLines_cons (x rest : string) :
  allBytes (fun c => negb (Ascii.eqb c newline)) x = true ->
  splitLines (x ++ String newline rest) = x :: splitLines rest.
Proof.
  induction x as [|c r IH]; [reflexivity|]. cbn [allBytes append splitLines].
  intros H. apply andb_true_iff in H as [Hc Hr].
  apply negb_true_iff in Hc. now rewrite Hc, IH.
Qed.

Lemma splitLines_concat (lines : list string) :
  lines <> [] ->
  Forall (fun x => allBytes (fun c => negb (Ascii.eqb c newline)) x = true)
         lines ->
  splitLines (String.concat (String newline EmptyString) lines) = lines.
Proof.
  intros Hne Hall. induction Hall as [|x ls Hx Hls IH]; [congruence|].
  destruct ls as [|y ls].
  - cbn [String.concat]. now apply splitLines_one.
  - change (String.concat (String newline EmptyString) (x :: y :: ls))
      with (x ++ String newline
              (String.concat (String newline EmptyString) (y :: ls))).
    rewrite (splitLines_cons _ _ Hx), IH; [reflexivity|discriminate].
Qed.

(** X19.  Round trip of the settings form: the text the form shows for
    the saved credentials parses back to these credentials, in order,
    and is previewed with their number, when every client id and API key
    is a non-empty string of printable ASCII characters other than the
    space, the comma and the quotes. *)
Theorem saved_text_parses_back (creds : list OzonCredentials) :
  Forall (fun c => plainField (clientId c) = true
                   /\ plainField (apiKey c) = true) creds ->
  handleSubmit (initialText creds) = OnSave creds
  /\ parsedCount (initialText creds) = List.length creds.
Proof.
  intros Hplain. destruct creds as [|c0 cs] eqn:Hc; [now split|].
  rewrite <- Hc in *. assert (Hne : creds <> []) by (rewrite Hc; discriminate).
  clear Hc c0 cs.
  assert (Hlines : splitLines (initialText creds) = map credentialLine creds).
  { unfold initialText. apply splitLines_concat.
    - destruct creds; [congruence|discriminate].
    - apply Forall_map. eapply Forall_impl; [|exact Hplain].
      intros c [H1 H2]. now apply parseLine_credentialLine. }
  assert (Hparsed : parsedLines (initialText creds) = creds).
  { unfold parsedLines. rewrite Hlines. clear Hlines Hne.
    induction Hplain as [|c cs [H1 H2] _ IH]; [reflexivity|].
    cbn [map flat_map].
    rewrite (proj1 (parseLine_credentialLine c H1 H2)), IH. reflexivity. }
  split.
  - unfold handleSubmit. cbv zeta. rewrite Hparsed.
    destruct creds; [congruence|reflexivity].
  - unfold parsedCount. rewrite Hlines, <- (length_map credentialLine).
    f_equal. clear Hlines Hne Hparsed.
    induction Hplain as [|c cs [H1 H2] _ IH]; [reflexivity|].
    cbn [map filter].
    destruct (parseLine_credentialLine c H1 H2) as (_ & Hfull & _).
    apply String.eqb_neq in Hfull. rewrite Hfull. cbn [negb].
    now rewrite IH.
Qed.

(** X20.  Whatever the text, every credential that [handleSubmit] saves
    has a non-empty client id and a non-empty API key, neither of which
    holds ASCII white space, a comma or a quote; and no more credentials
    are saved than the preview counted. *)
Theorem saved_credentials_are_tidy (text : string) (creds : list OzonCredentials) :
  handleSubmit text = OnSave creds ->
  Forall (fun c => clientId c <> EmptyString /\ apiKey c <> EmptyString
                   /\ allBytes tidy (clientId c) = true
                   /\ allBytes tidy (apiKey c) = true) creds
  /\ (List.length creds <= parsedCount text)%nat.
Proof.
  unfold handleSubmit. cbv zeta.
  destruct ((List.length (parsedLines text) =? 0)%nat
            && negb (String.eqb (trim text) EmptyString)); [discriminate|].
  intros [= <-]. split.
  - unfold parsedLines. apply Forall_forall. intros c Hin.
    apply in_flat_map in Hin as (line & _ & Hc).
    destruct (parseLine line) as [c'|] eqn:Hp; [|destruct Hc].
    destruct Hc as [<-|[]]. exact (parseLine_tidy _ _ Hp).
  - apply parsed_le_counted.
Qed.

(** X21.  Submitting a blank text saves the empty list of credentials
    without an alert.  The alert is raised, and nothing saved, exactly
    when the text is not blank and none of its lines yields a
    credential. *)
Theorem blank_text_saves_nothing (text : string) :
  (trim text = EmptyString -> handleSubmit text = OnSave [])
  /\ (handleSubmit text = AlertFormat <->
      trim text <> EmptyString
      /\ forall line, In line (splitLines text) -> parseLine line = None).
Proof.
  split.
  - intros Hblank. unfold handleSubmit. cbv zeta.
    rewrite Hblank. cbn [String.eqb negb]. rewrite andb_false_r.
    apply trim_empty in Hblank.
    now rewrite (proj1 (blank_parses_nothing _ Hblank)).
  - unfold handleSubmit. cbv zeta. split.
    + destruct (Nat.eqb_spec (List.length (parsedLines text)) 0)
        as [Hlen|Hlen]; [|discriminate].
      destruct (String.eqb_spec (trim text) EmptyString) as [|Hne];
        [discriminate|].
      intros _. split; [assumption|]. intros line Hin.
      destruct (parseLine line) as [c|] eqn:Hp; [|reflexivity].
      exfalso. apply length_zero_iff_nil in Hlen.
      assert (Hc : In c (parsedLines text)).
      { unfold parsedLines. apply in_flat_map. exists line.
        split; [assumption|]. rewrite Hp. now left. }
      rewrite Hlen in Hc. destruct Hc.
    + intros [Hne Hnone].
      assert (Hempty : parsedLines text = []).
      { unfold parsedLines. induction (splitLines text) as [|l ls IH];
          [reflexivity|].
        cbn [flat_map]. rewrite (Hnone l (or_introl eq_refl)).
        apply IH. intros line Hin. apply Hnone. now right. }
      rewrite Hempty. apply String.eqb_neq in Hne. now rewrite Hne.
Qed.

Lemma saved_text_parses_back_witness :
  handleSubmit (initialText savedStores) = OnSave savedStores.
Proof.
  apply (proj1 (saved_text_parses_back savedStores
                  ltac:(repeat constructor))).
Defined.

Lemma saved_credentials_are_tidy_witness :
  (List.length [{| clientId := "123"; apiKey := "key-1" |}]
   <= parsedCount pastedText)%nat.
Proof.
  apply (proj2 (saved_credentials_are_tidy
                  pastedText [{| clientId := "123"; apiKey := "key-1" |}]
                  eq_refl)).
Defined.

Lemma blank_text_saves_nothing_witness :
  handleSubmit (String newline "  ") = OnSave [].
Proof.
  apply (proj1 (blank_text_saves_nothing (String newline "  "))).
  reflexivity.
Defined.

End SettingsExtras.
